(** * Smart Shop catalog engine: a shallow embedding of [dataStore.js]

    The development follows [smart-shop-mvp/dataStore.js]: the text
    normaliser and tokenizer, the sentiment scorer, the review summariser,
    the catalog cache with its lazy reload, and the queries answered from a
    snapshot (search, recommendations, price comparison, policy lookup).

    Modelling conventions.
    - A JavaScript number is a [number]: the rational value of a finite
      binary64 number, [NaN] or one of the two infinities.  The arithmetic
      operations and the reading of a numeral round the exact result to the
      nearest binary64 number, the even one on a tie, and give an infinity
      on overflow ([round64]).  The sign of zero is outside the model; every
      comparison with [NaN] is false, as in the language.
    - A JavaScript string is a [string] whose characters are read as the
      code units U+0000 to U+00FF.
    - A [Map] whose iteration order is observed is an association list in
      insertion order; a [Map] that is only looked up is a [gmap].
    - [Array.prototype.sort] is the stable sort of the language standard.
    - A record of a source file is a record with one string for each column
      of the header the file is documented to have.
    - The closure variables [cache], [lastLoaded] and [lastModified] are the
      fields of a [Store]; the clock and the file system are answered by the
      environment, one [event] per request.
    - The exported queries are in [Api]; the function that carries the name
      of a query is its body after the call of [ensureFresh], with the
      snapshot as an argument. *)

From Stdlib Require Import ZArith QArith Qround Qabs String Ascii List.
From Stdlib Require Import Lia Lqa Permutation Sorted.
From stdpp Require Import gmap strings list.
Import ListNotations.

Open Scope string_scope.

(* ================================================================== *)
(** * Numbers *)
(* ================================================================== *)

Inductive number : Type :=
| NaN
| PInf
| NInf
| Fin (q : Q).

Definition Qlt_bool (a b : Q) : bool := negb (Qle_bool b a).

(** Sign of a number that is not [NaN]: [Lt] negative, [Eq] zero, [Gt]
    positive. *)
Definition num_sign (x : number) : comparison :=
  match x with
  | NaN => Eq
  | PInf => Gt
  | NInf => Lt
  | Fin q => (q ?= 0)%Q
  end.

Definition num_of_Z (z : Z) : number := Fin (inject_Z z).
Definition num_of_nat (n : nat) : number := Fin (inject_Z (Z.of_nat n)).

Definition num_neg (x : number) : number :=
  match x with
  | NaN => NaN
  | PInf => NInf
  | NInf => PInf
  | Fin q => Fin (- q)
  end.

(** Rounding to binary64.  [pow2_le j n d] is [2^j <= n / d], for positive
    [n] and [d]. *)
Definition pow2_le (j n d : Z) : bool :=
  if (0 <=? j)%Z then (d * 2 ^ j <=? n)%Z else (d <=? n * 2 ^ (- j))%Z.

(** The integer part of the binary logarithm of [n / d]. *)
Definition ilog2 (n d : Z) : Z :=
  let k := (Z.log2 n - Z.log2 d)%Z in
  if pow2_le k n d then k else (k - 1)%Z.

(** The integer nearest to [n / d], the even one of two that are as near. *)
Definition nearest_even (n d : Z) : Z :=
  let f := (n / d)%Z in
  let r := (2 * (n mod d))%Z in
  if (r <? d)%Z then f
  else if (d <? r)%Z then (f + 1)%Z
  else if Z.even f then f else (f + 1)%Z.

(** [m * 2^e], in lowest terms. *)
Definition dyadic (m e : Z) : Q :=
  if (0 <=? e)%Z then inject_Z (m * 2 ^ e)
  else Qred (m # Z.to_pos (2 ^ (- e))).

(** The binary64 number nearest to [n / d], for positive [n] and [d]: a
    significand of 53 bits at the exponent of [n / d], or at the least
    exponent, -1074, for a subnormal number; infinity from [2^1024] on. *)
Definition round_pos (n d : Z) : number :=
  let e := Z.max (ilog2 n d - 52) (-1074) in
  let m :=
    if (0 <=? e)%Z then nearest_even n (d * 2 ^ e)
    else nearest_even (n * 2 ^ (- e)) d in
  if (0 <=? e)%Z && (2 ^ 1024 <=? m * 2 ^ e)%Z then PInf
  else Fin (dyadic m e).

Definition round64 (q : Q) : number :=
  match Qnum q with
  | Z0 => Fin 0
  | Zpos n => round_pos (Zpos n) (Zpos (Qden q))
  | Zneg n => num_neg (round_pos (Zpos n) (Zpos (Qden q)))
  end.

Definition num_add (x y : number) : number :=
  match x, y with
  | NaN, _ | _, NaN => NaN
  | PInf, NInf | NInf, PInf => NaN
  | PInf, _ | _, PInf => PInf
  | NInf, _ | _, NInf => NInf
  | Fin a, Fin b => round64 (a + b)
  end.

Definition num_sub (x y : number) : number := num_add x (num_neg y).

Definition num_mul (x y : number) : number :=
  match x, y with
  | NaN, _ | _, NaN => NaN
  | Fin a, Fin b => round64 (a * b)
  | _, _ =>
      match num_sign x, num_sign y with
      | Eq, _ | _, Eq => NaN
      | Gt, Gt | Lt, Lt => PInf
      | _, _ => NInf
      end
  end.

Definition num_div (x y : number) : number :=
  match x, y with
  | NaN, _ | _, NaN => NaN
  | Fin a, Fin b =>
      if Qeq_bool b 0 then
        match (a ?= 0)%Q with Eq => NaN | Gt => PInf | Lt => NInf end
      else round64 (a / b)
  | Fin _, _ => Fin 0
  | _, Fin b =>
      match num_sign x, (b ?= 0)%Q with
      | Gt, Lt | Lt, (Eq | Gt) => NInf
      | _, _ => PInf
      end
  | _, _ => NaN
  end.

Definition num_abs (x : number) : number :=
  match x with
  | NaN => NaN
  | PInf | NInf => PInf
  | Fin q => Fin (Qabs q)
  end.

Definition num_lt (x y : number) : bool :=
  match x, y with
  | Fin a, Fin b => Qlt_bool a b
  | NInf, (Fin _ | PInf) | Fin _, PInf => true
  | _, _ => false
  end.

Definition num_le (x y : number) : bool :=
  match x, y with
  | Fin a, Fin b => Qle_bool a b
  | NInf, (NInf | Fin _ | PInf) | Fin _, PInf | PInf, PInf => true
  | _, _ => false
  end.

Definition num_gt (x y : number) : bool := num_lt y x.
Definition num_ge (x y : number) : bool := num_le y x.

(** [Math.min] and [Math.max] of two arguments: [NaN] is contagious. *)
Definition min2 (x y : number) : number :=
  match x, y with
  | NaN, _ | _, NaN => NaN
  | _, _ => if num_le x y then x else y
  end.

Definition max2 (x y : number) : number :=
  match x, y with
  | NaN, _ | _, NaN => NaN
  | _, _ => if num_le x y then y else x
  end.

(** [Math.min(...xs)] and [Math.max(...xs)]. *)
Definition Math_min (xs : list number) : number := fold_left min2 xs PInf.
Definition Math_max (xs : list number) : number := fold_left max2 xs NInf.

(** [ToBoolean] on numbers, and the idiom [x || d]. *)
Definition truthy_num (x : number) : bool :=
  match x with
  | NaN => false
  | Fin q => negb (Qeq_bool q 0)
  | _ => true
  end.

Definition num_or (x d : number) : number := if truthy_num x then x else d.

(** The decimal that [q.toFixed(2)] prints: the nearest multiple of 1/100,
    the magnitude rounding up on a tie. *)
Definition round2 (q : Q) : Q :=
  let n := Qfloor (Qabs q * 100 + (1 # 2)) in
  Qred (if Qlt_bool q 0 then - (inject_Z n / 100) else inject_Z n / 100).

(** [Number(x.toFixed(2))]: the decimal is read back as a number. *)
Definition toFixed2 (x : number) : number :=
  match x with
  | Fin q => round64 (round2 q)
  | _ => x
  end.

(** Numbers are compared up to the value of the rational. *)
Definition num_eq (x y : number) : Prop :=
  match x, y with
  | NaN, NaN | PInf, PInf | NInf, NInf => True
  | Fin a, Fin b => (a == b)%Q
  | _, _ => False
  end.

(** The rationals that are binary64 numbers: rounding leaves them as they
    are. *)
Definition is_double (q : Q) : bool :=
  match round64 q with
  | Fin v => Qeq_bool v q
  | _ => false
  end.

(** A finite number of the language. *)
Definition is_fin (x : number) : Prop :=
  match x with Fin q => is_double q = true | _ => False end.

Infix "≈" := num_eq (at level 70, no associativity).

(* ================================================================== *)
(** * Strings *)
(* ================================================================== *)

Definition code (c : ascii) : N := N_of_ascii c.

(** The class [\s] of the regular expressions, on U+0000 to U+00FF. *)
Definition is_space (c : ascii) : bool :=
  let n := code c in
  (((9 <=? n) && (n <=? 13)) || (n =? 32) || (n =? 160))%N.

(** The class [[a-z0-9]]. *)
Definition is_alnum (c : ascii) : bool :=
  let n := code c in
  (((97 <=? n) && (n <=? 122)) || ((48 <=? n) && (n <=? 57)))%N.

(** [String.prototype.toLowerCase], one code unit at a time. *)
Definition lower_char (c : ascii) : ascii :=
  let n := code c in
  if (((65 <=? n) && (n <=? 90))
      || ((192 <=? n) && (n <=? 222) && negb (n =? 215)))%N
  then ascii_of_N (n + 32) else c.

Fixpoint map_string (f : ascii -> ascii) (s : string) : string :=
  match s with
  | EmptyString => EmptyString
  | String c s' => String (f c) (map_string f s')
  end.

Definition toLowerCase (s : string) : string := map_string lower_char s.

(** [s.replace(/[^a-z0-9\s]/g, " ")]. *)
Definition replace_other (c : ascii) : ascii :=
  if is_alnum c || is_space c then c else " "%char.

(** [s.split(/\s+/)]: the pieces between maximal runs of white space.  The
    piece being read is [cur]; [in_ws] tells that the last character closed
    a piece. *)
Fixpoint split_ws_from (cur : string) (in_ws : bool) (s : string) : list string :=
  match s with
  | EmptyString => [cur]
  | String c s' =>
      if is_space c then
        if in_ws then split_ws_from EmptyString true s'
        else cur :: split_ws_from EmptyString true s'
      else split_ws_from (cur ++ String c EmptyString) false s'
  end.

Definition split_ws (s : string) : list string := split_ws_from "" false s.

(** [hay.includes(needle)]. *)
Fixpoint includes (hay needle : string) : bool :=
  String.prefix needle hay
  || match hay with
     | EmptyString => false
     | String _ hay' => includes hay' needle
     end.

(** [ToBoolean] on strings and the idiom [s || d]. *)
Definition truthy_str (s : string) : bool :=
  match s with EmptyString => false | _ => true end.

Definition str_or (s d : string) : string := if truthy_str s then s else d.

(** [xs.includes(x)] on an array of strings, [set.has(x)] on a set of them. *)
Definition mem_str (x : string) (xs : list string) : bool :=
  existsb (String.eqb x) xs.

(* ================================================================== *)
(** * Text normaliser, tokenizer and sentiment scorer *)
(* ================================================================== *)

Definition STOPWORDS : list string :=
  [ "the"; "and"; "a"; "an"; "is"; "it"; "this"; "that"; "to"; "of"; "for";
    "in"; "on"; "with"; "very"; "really"; "my"; "our"; "your"; "all"; "at";
    "as"; "was"; "were"; "be"; "are"; "but"; "so"; "if"; "by"; "from"; "has";
    "have"; "had"; "its"; "i"; "me"; "we"; "you"; "they" ].

Definition SENTIMENT_positive : list string :=
  [ "great"; "excellent"; "amazing"; "love"; "fast"; "snappy"; "beautiful";
    "clear"; "crystal"; "smooth"; "awesome"; "perfect"; "good"; "durable";
    "battery"; "bright" ].

Definition SENTIMENT_negative : list string :=
  [ "bad"; "poor"; "slow"; "broken"; "cracked"; "damage"; "overheats"; "lag";
    "laggy"; "heavy"; "dim"; "terrible"; "awful"; "disappoint"; "noisy" ].

Definition normalizeText (text : string) : string :=
  map_string replace_other (toLowerCase text).

Definition tokenize (text : string) : list string :=
  List.filter (fun token => truthy_str token && negb (mem_str token STOPWORDS))
    (split_ws (normalizeText text)).

Definition scoreSentiment (text : string) : Z :=
  let tokens := tokenize text in
  fold_left
    (fun score token =>
       let score :=
         if mem_str token SENTIMENT_positive then (score + 1)%Z else score in
       if mem_str token SENTIMENT_negative then (score - 1)%Z else score)
    tokens 0%Z.

(** The argument of a call as the language sees it: [normalizeText] starts
    with a method call on its argument, which a missing argument does not
    support. *)
Inductive value : Type :=
| Undefined
| Str (s : string).

Inductive error : Type :=
| TypeError
| RangeError
| ReadError.

Inductive result (A : Type) : Type :=
| Ok (a : A)
| Throw (e : error).
Arguments Ok {A} a.
Arguments Throw {A} e.

(** [text.toLowerCase()] on an arbitrary argument. *)
Definition call_toLowerCase (text : value) : result string :=
  match text with
  | Str s => Ok (toLowerCase s)
  | Undefined => Throw TypeError
  end.

Definition normalizeText_call (text : value) : result string :=
  match call_toLowerCase text with
  | Ok s => Ok (map_string replace_other s)
  | Throw e => Throw e
  end.

Definition tokenize_call (text : value) : result (list string) :=
  match normalizeText_call text with
  | Ok s =>
      Ok (List.filter
            (fun token => truthy_str token && negb (mem_str token STOPWORDS))
            (split_ws s))
  | Throw e => Throw e
  end.

(* ================================================================== *)
(** * Arrays: stable sort and slice *)
(* ================================================================== *)

Section Sort.
Context {A : Type}.
Variable cmp : A -> A -> number.

(** The standard asks [sort] to be stable and, for a comparator that orders
    the elements consistently, fixes the result: the elements in the order
    of the comparator, those it holds equal in the order they had.  The
    insertion sort below computes it.  [x] is placed behind the elements it
    compares greater than; a comparison that yields zero or [NaN] leaves the
    earlier element in front.  For a comparator that is not consistent (the
    difference of two scores is [NaN]) the standard leaves the order to the
    implementation; the statements about sorted results are about finite
    scores. *)
Fixpoint insert_sorted (x : A) (l : list A) : list A :=
  match l with
  | [] => [x]
  | y :: l' =>
      if num_gt (cmp x y) (Fin 0) then y :: insert_sorted x l' else x :: l
  end.

(** [l.sort(cmp)]. *)
Definition js_sort (l : list A) : list A := fold_right insert_sorted [] l.
End Sort.

(** [l.slice(0, n)]. *)
Definition slice0 {A : Type} (n : nat) (l : list A) : list A := firstn n l.

(* ================================================================== *)
(** * Review summariser *)
(* ================================================================== *)

Record Review : Type := mkReview {
  product_id : string;
  r_rating : number;
  text : string;
  date : string
}.

Record Sentiment : Type := mkSentiment {
  positive : nat;
  neutral : nat;
  negative : nat
}.

Record Theme : Type := mkTheme {
  word : string;
  count : nat
}.

Record Summary : Type := mkSummary {
  average_rating : number;
  total_reviews : nat;
  sentiment : Sentiment;
  themes : list Theme
}.

(** The [Map] from token to count, in insertion order. *)
Definition WordCounts : Type := list (string * nat).

Fixpoint wc_get (m : WordCounts) (k : string) : option nat :=
  match m with
  | [] => None
  | (k', v) :: m' => if String.eqb k' k then Some v else wc_get m' k
  end.

(** [m.set(k, v)]: an existing key keeps its place, a new key goes last. *)
Fixpoint wc_set (m : WordCounts) (k : string) (v : nat) : WordCounts :=
  match m with
  | [] => [(k, v)]
  | (k', v') :: m' =>
      if String.eqb k' k then (k', v) :: m' else (k', v') :: wc_set m' k v
  end.

(** [wordCounts.set(token, (wordCounts.get(token) || 0) + 1)]. *)
Definition wc_bump (m : WordCounts) (token : string) : WordCounts :=
  wc_set m token (S (default 0%nat (wc_get m token))).

(** The comparator [(a, b) => b[1] - a[1]] of the themes. *)
Definition by_count_desc (a b : string * nat) : number :=
  num_sub (num_of_nat (snd b)) (num_of_nat (snd a)).

(** The variables of the loop of [summarizeReviews]. *)
Record Tally : Type := mkTally {
  t_total : number;
  t_positive : nat;
  t_negative : nat;
  t_neutral : nat;
  t_wordCounts : WordCounts
}.

Definition tally0 : Tally := mkTally (Fin 0) 0 0 0 [].

(** One turn of the loop over the reviews.  The rating is a number already,
    so that [Number(review.rating)] is the rating itself. *)
Definition tally_review (t : Tally) (review : Review) : Tally :=
  let total := num_add (t_total t) (num_or (r_rating review) (Fin 0)) in
  let sentimentScore := scoreSentiment (str_or (text review) "") in
  let wordCounts :=
    fold_left wc_bump (tokenize (str_or (text review) "")) (t_wordCounts t) in
  if num_ge (r_rating review) (Fin 4) || (sentimentScore >? 0)%Z then
    mkTally total (S (t_positive t)) (t_negative t) (t_neutral t) wordCounts
  else if num_le (r_rating review) (Fin 2) || (sentimentScore <? 0)%Z then
    mkTally total (t_positive t) (S (t_negative t)) (t_neutral t) wordCounts
  else
    mkTally total (t_positive t) (t_negative t) (S (t_neutral t)) wordCounts.

Definition summarizeReviews (reviews : list Review) : Summary :=
  match reviews with
  | [] => mkSummary (Fin 0) 0 (mkSentiment 0 0 0) []
  | _ =>
      let t := fold_left tally_review reviews tally0 in
      let themes :=
        map (fun e => mkTheme (fst e) (snd e))
          (slice0 5
             (js_sort by_count_desc (t_wordCounts t))) in
      mkSummary
        (toFixed2 (num_div (t_total t) (num_of_nat (length reviews))))
        (length reviews)
        (mkSentiment (t_positive t) (t_neutral t) (t_negative t))
        themes
  end.

Definition spec_reviews : list Review :=
  [ mkReview "p1" (Fin 5) "great and fast" "2024-01-01";
    mkReview "p1" (Fin 1) "broken and slow" "2024-01-02";
    mkReview "p1" (Fin 3) "ok product" "2024-01-03" ].

(* ================================================================== *)
(** * [Number] applied to a string *)
(* ================================================================== *)

Definition is_digit (c : ascii) : bool :=
  let n := code c in ((48 <=? n) && (n <=? 57))%N.

(** The value of a digit in a base up to 16, when it is one. *)
Definition digit_in (base : N) (c : ascii) : option N :=
  let n := code c in
  let v :=
    if ((48 <=? n) && (n <=? 57))%N then Some (n - 48)%N
    else if ((97 <=? n) && (n <=? 102))%N then Some (n - 87)%N
    else if ((65 <=? n) && (n <=? 70))%N then Some (n - 55)%N
    else None in
  match v with
  | Some d => if (d <? base)%N then Some d else None
  | None => None
  end.

(** The whole list read as a numeral of the base; [None] when it is empty
    or holds a character that is not a digit of the base. *)
Fixpoint numeral_from (base : N) (acc : N) (l : list ascii) : option N :=
  match l with
  | [] => Some acc
  | c :: l' =>
      match digit_in base c with
      | Some d => numeral_from base (acc * base + d)%N l'
      | None => None
      end
  end.

Definition numeral (base : N) (l : list ascii) : option N :=
  match l with
  | [] => None
  | _ => numeral_from base 0 l
  end.

(** The longest prefix of decimal digits and what follows it. *)
Fixpoint span_digits (l : list ascii) : list ascii * list ascii :=
  match l with
  | c :: l' =>
      if is_digit c then
        let (ds, rest) := span_digits l' in (c :: ds, rest)
      else ([], l)
  | [] => ([], [])
  end.

Definition strip_sign (l : list ascii) : bool * list ascii :=
  match l with
  | "-"%char :: l' => (true, l')
  | "+"%char :: l' => (false, l')
  | _ => (false, l)
  end.

(** The exponent part: empty, or [e] or [E], a sign and digits. *)
Definition exponent_part (l : list ascii) : option Z :=
  match l with
  | [] => Some 0%Z
  | ("e"%char | "E"%char) :: l' =>
      let (neg, ds) := strip_sign l' in
      match numeral 10 ds with
      | Some n => Some (if neg then (- Z.of_N n)%Z else Z.of_N n)
      | None => None
      end
  | _ => None
  end.

(** [StrUnsignedDecimalLiteral] without [Infinity]. *)
Definition unsigned_decimal (l : list ascii) : option Q :=
  let (ip, r1) := span_digits l in
  let '(fp, r2) :=
    match r1 with
    | "."%char :: r => span_digits r
    | _ => ([], r1)
    end in
  match ip, fp with
  | [], [] => None
  | _, _ =>
      match numeral_from 10 0 (ip ++ fp), exponent_part r2 with
      | Some m, Some e =>
          Some (inject_Z (Z.of_N m) * Qpower 10 (e - Z.of_nat (length fp)))%Q
      | _, _ => None
      end
  end.

Definition Infinity_chars : list ascii := list_ascii_of_string "Infinity".

Fixpoint drop_space (l : list ascii) : list ascii :=
  match l with
  | c :: l' => if is_space c then drop_space l' else l
  | [] => []
  end.

Definition trim_chars (l : list ascii) : list ascii :=
  rev (drop_space (rev (drop_space l))).

Definition list_ascii_eqb (a b : list ascii) : bool :=
  String.eqb (string_of_list_ascii a) (string_of_list_ascii b).

(** [Number(s)] for a string [s]. *)
Definition Number (s : string) : number :=
  let l := trim_chars (list_ascii_of_string s) in
  match l with
  | [] => Fin 0
  | "0"%char :: ("x"%char | "X"%char) :: ds =>
      match numeral 16 ds with
      | Some n => round64 (inject_Z (Z.of_N n))
      | None => NaN
      end
  | "0"%char :: ("o"%char | "O"%char) :: ds =>
      match numeral 8 ds with
      | Some n => round64 (inject_Z (Z.of_N n))
      | None => NaN
      end
  | "0"%char :: ("b"%char | "B"%char) :: ds =>
      match numeral 2 ds with
      | Some n => round64 (inject_Z (Z.of_N n))
      | None => NaN
      end
  | _ =>
      let (neg, body) := strip_sign l in
      if list_ascii_eqb body Infinity_chars then (if neg then NInf else PInf)
      else
        match unsigned_decimal body with
        | Some q => round64 (if neg then - q else q)
        | None => NaN
        end
  end.

(* ================================================================== *)
(** * Catalog entities and the rows they are read from *)
(* ================================================================== *)

(** A record of [products.csv] as [loadCsv] returns it: one string per
    column of the header. *)
Module ProductRow.
Record t : Type := mk {
  id : string;
  name : string;
  brand : string;
  category : string;
  price : string;
  description : string;
  stock : string;
  rating : string
}.
End ProductRow.

Module ReviewRow.
Record t : Type := mk {
  product_id : string;
  rating : string;
  text : string;
  date : string
}.
End ReviewRow.

Module PolicyRow.
Record t : Type := mk {
  policy_type : string;
  description : string;
  conditions : string;
  timeframe : string
}.
End PolicyRow.

Record Product : Type := mkProduct {
  prod_id : string;
  name : string;
  brand : string;
  category : string;
  price : number;
  description : string;
  stock : number;
  rating : number
}.

Record Policy : Type := mkPolicy {
  policy_type : string;
  policy_description : string;
  conditions : list string;
  timeframe : number
}.

(** [s.split("|")]. *)
Fixpoint split_pipe_from (cur : string) (s : string) : list string :=
  match s with
  | EmptyString => [cur]
  | String c s' =>
      if Ascii.eqb c "|"%char then cur :: split_pipe_from EmptyString s'
      else split_pipe_from (cur ++ String c EmptyString) s'
  end.

Definition split_pipe (s : string) : list string := split_pipe_from "" s.

Definition parsePolicies (rows : list PolicyRow.t) : list Policy :=
  map (fun row =>
         mkPolicy (PolicyRow.policy_type row)
           (PolicyRow.description row)
           (if truthy_str (PolicyRow.conditions row)
            then split_pipe (PolicyRow.conditions row) else [])
           (Number (PolicyRow.timeframe row)))
    rows.

Definition product_of_row (row : ProductRow.t) : Product :=
  mkProduct (ProductRow.id row) (ProductRow.name row) (ProductRow.brand row)
    (ProductRow.category row) (Number (ProductRow.price row))
    (ProductRow.description row) (Number (ProductRow.stock row))
    (Number (ProductRow.rating row)).

Definition review_of_row (row : ReviewRow.t) : Review :=
  mkReview (ReviewRow.product_id row) (Number (ReviewRow.rating row))
    (ReviewRow.text row) (ReviewRow.date row).

(* ================================================================== *)
(** * The snapshot *)
(* ================================================================== *)

Record Cache : Type := mkCache {
  products : list Product;
  productById : gmap string Product;
  reviews : list Review;
  reviewsByProduct : gmap string (list Review);
  policies : list Policy
}.

(** [new Map(products.map(p => [p.id, p]))]: a later entry replaces an
    earlier one with the same key. *)
Definition index_products (ps : list Product) : gmap string Product :=
  fold_left (fun m p => <[prod_id p := p]> m) ps ∅.

(** The grouping loop of [load]. *)
Definition group_review (m : gmap string (list Review)) (review : Review)
  : gmap string (list Review) :=
  let m1 :=
    match m !! product_id review with
    | Some _ => m
    | None => <[product_id review := []]> m
    end in
  <[product_id review := (default [] (m1 !! product_id review) ++ [review])%list]> m1.

Definition group_reviews (rs : list Review) : gmap string (list Review) :=
  fold_left group_review rs ∅.

(** The snapshot [load] builds from the three sources. *)
Definition snapshot (prows : list ProductRow.t) (rrows : list ReviewRow.t)
    (qrows : list PolicyRow.t) : Cache :=
  let products := map product_of_row prows in
  let reviews := map review_of_row rrows in
  let policies := parsePolicies qrows in
  mkCache products (index_products products) reviews (group_reviews reviews)
    policies.

(* ================================================================== *)
(** * The store and its environment *)
(* ================================================================== *)

Record Store : Type := mkStore {
  cache : option Cache;
  lastLoaded : Z;
  lastModified : number
}.

(** [createDataStore] starts with no snapshot. *)
Definition initial_store : Store := mkStore None 0 (Fin 0).

(** The modification time of each of the three files, in milliseconds;
    [None] for a file that does not exist. *)
Record Mtimes : Type := mkMtimes {
  mt_products : option Q;
  mt_reviews : option Q;
  mt_policies : option Q
}.

(** A computation that asks the environment for the clock and the files. *)
Inductive io (A : Type) : Type :=
| Ret (a : A)
| DateNow (k : Z -> io A)
| StatFiles (k : Mtimes -> io A)
| ReadProducts (k : option (list ProductRow.t) -> io A)
| ReadReviews (k : option (list ReviewRow.t) -> io A)
| ReadPolicies (k : option (list PolicyRow.t) -> io A).
Arguments Ret {A} a.
Arguments DateNow {A} k.
Arguments StatFiles {A} k.
Arguments ReadProducts {A} k.
Arguments ReadReviews {A} k.
Arguments ReadPolicies {A} k.

(** What the environment answered, one event per request. *)
Inductive event : Type :=
| ENow (t : Z)
| EStat (m : Mtimes)
| EProducts (r : option (list ProductRow.t))
| EReviews (r : option (list ReviewRow.t))
| EPolicies (r : option (list PolicyRow.t)).

(** [run p evs] is the outcome of [p] when the environment answers with
    exactly the events [evs], in order. *)
Fixpoint run {A : Type} (p : io A) (evs : list event) : option A :=
  match p, evs with
  | Ret a, [] => Some a
  | DateNow k, ENow t :: evs' => run (k t) evs'
  | StatFiles k, EStat m :: evs' => run (k m) evs'
  | ReadProducts k, EProducts r :: evs' => run (k r) evs'
  | ReadReviews k, EReviews r :: evs' => run (k r) evs'
  | ReadPolicies k, EPolicies r :: evs' => run (k r) evs'
  | _, _ => None
  end.

(** Statements that may throw and that read and assign the variables of the
    store. *)
Definition M (A : Type) : Type := Store -> io (result A * Store).

Fixpoint io_bind {A B : Type} (p : io A) (f : A -> io B) : io B :=
  match p with
  | Ret a => f a
  | DateNow k => DateNow (fun t => io_bind (k t) f)
  | StatFiles k => StatFiles (fun m => io_bind (k m) f)
  | ReadProducts k => ReadProducts (fun r => io_bind (k r) f)
  | ReadReviews k => ReadReviews (fun r => io_bind (k r) f)
  | ReadPolicies k => ReadPolicies (fun r => io_bind (k r) f)
  end.

Definition ret {A : Type} (a : A) : M A := fun s => Ret (Ok a, s).
Definition throw {A : Type} (e : error) : M A := fun s => Ret (Throw e, s).

Definition bind {A B : Type} (c : M A) (f : A -> M B) : M B :=
  fun s =>
    io_bind (c s)
      (fun out =>
         match out with
         | (Ok a, s') => f a s'
         | (Throw e, s') => Ret (Throw e, s')
         end).

Notation "x <- c1 ;; c2" := (bind c1 (fun x => c2))
  (at level 100, c1 at next level, right associativity).
Notation "c1 ;; c2" := (bind c1 (fun _ => c2))
  (at level 100, right associativity).

Definition of_result {A : Type} (r : result A) : M A := fun s => Ret (r, s).

Definition get_store : M Store := fun s => Ret (Ok s, s).
Definition set_cache (c : Cache) : M unit :=
  fun s => Ret (Ok tt, mkStore (Some c) (lastLoaded s) (lastModified s)).
Definition set_lastLoaded (t : Z) : M unit :=
  fun s => Ret (Ok tt, mkStore (cache s) t (lastModified s)).
Definition set_lastModified (m : number) : M unit :=
  fun s => Ret (Ok tt, mkStore (cache s) (lastLoaded s) m).

Definition Date_now : M Z := fun s => DateNow (fun t => Ret (Ok t, s)).

(** [loadCsv(path)]: a file that cannot be read or parsed throws. *)
Definition of_read {A : Type} (s : Store) (r : option A) : io (result A * Store) :=
  match r with
  | Some rows => Ret (Ok rows, s)
  | None => Ret (Throw ReadError, s)
  end.

Definition loadCsv_products : M (list ProductRow.t) :=
  fun s => ReadProducts (of_read s).
Definition loadCsv_reviews : M (list ReviewRow.t) :=
  fun s => ReadReviews (of_read s).
Definition loadCsv_policies : M (list PolicyRow.t) :=
  fun s => ReadPolicies (of_read s).

Definition mtimeMs (m : option Q) : number :=
  match m with
  | Some t => Fin t
  | None => Fin 0
  end.

Definition getLastModified : M number :=
  fun s =>
    StatFiles (fun m =>
      Ret (Ok (Math_max [mtimeMs (mt_products m); mtimeMs (mt_reviews m);
                         mtimeMs (mt_policies m)]), s)).

Definition load : M unit :=
  prows <- loadCsv_products ;;
  rrows <- loadCsv_reviews ;;
  qrows <- loadCsv_policies ;;
  set_cache (snapshot prows rrows qrows) ;;
  now <- Date_now ;;
  set_lastLoaded now ;;
  m <- getLastModified ;;
  set_lastModified m.

Definition has_cache (s : Store) : bool :=
  match cache s with Some _ => true | None => false end.

Definition ensureFresh : M unit :=
  now <- Date_now ;;
  s <- get_store ;;
  if negb (has_cache s) || (now - lastLoaded s >? 30000)%Z then
    currentModified <- getLastModified ;;
    if negb (has_cache s) || num_gt currentModified (lastModified s)
    then load else ret tt
  else ret tt.

(** Reading a property of [cache] while it is still [null] throws. *)
Definition the_cache : M Cache :=
  fun s =>
    match cache s with
    | Some c => Ret (Ok c, s)
    | None => Ret (Throw TypeError, s)
    end.

(* ================================================================== *)
(** * Queries on a snapshot *)
(* ================================================================== *)

(** The functions below are the bodies of the queries of [createDataStore]
    after their call to [ensureFresh]; the variable [cache] they read is
    their first argument.  The queries themselves are in [Api]. *)

Definition CATEGORY_POLICY_MAP : list (string * string) :=
  [ ("laptop", "Laptop Return Policy");
    ("smartphone", "Smartphone Return Policy");
    ("smart_tv", "Smart TV Return Policy");
    ("speaker", "Speaker Return Policy") ].

(** [CATEGORY_POLICY_MAP[category]] when it is a string.  For every other
    key the value is [undefined] or a member inherited from the prototype
    of objects, none of which is a string: those are [None]. *)
Fixpoint assoc_str (m : list (string * string)) (k : string) : option string :=
  match m with
  | [] => None
  | (k', v) :: m' => if String.eqb k' k then Some v else assoc_str m' k
  end.

Definition policy_name (category : string) : option string :=
  assoc_str CATEGORY_POLICY_MAP category.

(** [policy.description === policyName]. *)
Definition description_is (policyName : option string) (policy : Policy) : bool :=
  match policyName with
  | Some n => String.eqb (policy_description policy) n
  | None => false
  end.

Module Filters.
Record t : Type := mk {
  category : option string;
  query : option string;
  minPrice : option number;
  maxPrice : option number;
  inStockOnly : bool
}.
End Filters.

Definition getTextScore (product : Product) (queryTokens : list string) : Z :=
  let haystack :=
    toLowerCase (name product ++ " " ++ brand product ++ " "
                 ++ category product ++ " " ++ description product) in
  fold_left
    (fun score token => if includes haystack token then (score + 2)%Z else score)
    queryTokens 0%Z.

Definition scoreRecommendation (baseProduct candidate : Product) : number :=
  let priceDiff := num_abs (num_sub (price candidate) (price baseProduct)) in
  let priceScore :=
    num_sub (Fin 1)
      (Math_min [num_div priceDiff (Math_max [price baseProduct; Fin 1]); Fin 1]) in
  let stockScore := if num_gt (stock candidate) (Fin 0) then Fin 1 else Fin 0 in
  num_add (num_add (num_mul (num_or (rating candidate) (Fin 0)) (Fin 2)) priceScore)
    stockScore.

(** The comparator [(a, b) => b.score - a.score] on scored items. *)
Definition by_score_desc {A : Type} (a b : A * number) : number :=
  num_sub (snd b) (snd a).

Definition getProducts (c : Cache) (filters : Filters.t) : list Product :=
  let results := products c in
  let results :=
    match Filters.category filters with
    | Some cat =>
        if truthy_str cat
        then List.filter (fun product => String.eqb (category product) cat) results
        else results
    | None => results
    end in
  let results :=
    match Filters.query filters with
    | Some q =>
        if truthy_str q then
          let tokens := tokenize q in
          map fst
            (js_sort by_score_desc
               (List.filter (fun item => num_gt (snd item) (Fin 0))
                  (map (fun product =>
                          (product, num_of_Z (getTextScore product tokens)))
                     results)))
        else results
    | None => results
    end in
  let results :=
    match Filters.minPrice filters with
    | Some lo => List.filter (fun product => num_ge (price product) lo) results
    | None => results
    end in
  let results :=
    match Filters.maxPrice filters with
    | Some hi => List.filter (fun product => num_le (price product) hi) results
    | None => results
    end in
  if Filters.inStockOnly filters
  then List.filter (fun product => num_gt (stock product) (Fin 0)) results
  else results.

(** An optional string argument that is truthy: present and not empty. *)
Definition truthy_arg (o : option string) : option string :=
  match o with
  | Some s => if truthy_str s then Some s else None
  | None => None
  end.

Definition getRecommendations (c : Cache) (productId query : option string)
  : list Product :=
  match
    match truthy_arg productId with
    | Some pid =>
        match productById c !! pid with
        | Some baseProduct => Some (pid, baseProduct)
        | None => None
        end
    | None => None
    end
  with
  | Some (pid, baseProduct) =>
      map fst
        (slice0 6
           (js_sort by_score_desc
              (map (fun product => (product, scoreRecommendation baseProduct product))
                 (List.filter
                    (fun product =>
                       String.eqb (category product) (category baseProduct)
                       && negb (String.eqb (prod_id product) pid))
                    (products c)))))
  | None =>
      match truthy_arg query with
      | Some q =>
          let tokens := tokenize q in
          map fst
            (slice0 6
               (js_sort by_score_desc
                  (List.filter (fun item => num_gt (snd item) (Fin 0))
                     (map (fun product =>
                             (product,
                              num_add (num_of_Z (getTextScore product tokens))
                                (rating product)))
                        (products c)))))
      | None =>
          slice0 6
            (js_sort (fun a b => num_sub (rating b) (rating a)) (products c))
      end
  end.

Definition getReviewSummary (c : Cache) (productId : string) : Summary :=
  let reviews := default [] (reviewsByProduct c !! productId) in
  summarizeReviews reviews.

(** The answer of [getPriceComparison]; [updated_at] is the instant, in
    milliseconds, that the ISO text of the field gives. *)
Record PriceComparison : Type := mkPriceComparison {
  base : Product;
  min : number;
  max : number;
  avg : number;
  cheaper : list Product;
  updated_at : Z
}.

(** The time value of [new Date(t)], in milliseconds: the integer part of
    [t]; there is none, the date being invalid, when [t] is not finite or is
    beyond 8.64e15 on either side. *)
Definition TimeClip (t : number) : option Z :=
  match t with
  | Fin q =>
      if Qle_bool (Qabs q) 8640000000000000
      then Some (if Qlt_bool q 0 then Qceiling q else Qfloor q)
      else None
  | _ => None
  end.

(** [new Date(t).toISOString()]: the instant that is printed, or the
    [RangeError] thrown on an invalid date. *)
Definition toISOString (t : number) : result Z :=
  match TimeClip t with
  | Some ms => Ok ms
  | None => Throw RangeError
  end.

Definition getPriceComparison (c : Cache) (lastModified : number)
    (productId : string) : result (option PriceComparison) :=
  match productById c !! productId with
  | None => Ok None
  | Some product =>
      let categoryProducts :=
        List.filter (fun p => String.eqb (category p) (category product))
          (products c) in
      let prices := map price categoryProducts in
      let min := Math_min prices in
      let max := Math_max prices in
      let avg :=
        num_div (fold_left (fun sum price => num_add sum price) prices (Fin 0))
          (num_of_nat (length prices)) in
      let cheaper :=
        slice0 5
          (js_sort (fun a b => num_sub (price a) (price b))
             (List.filter (fun p => num_lt (price p) (price product))
                categoryProducts)) in
      match toISOString lastModified with
      | Ok updated_at =>
          Ok (Some (mkPriceComparison product (toFixed2 min) (toFixed2 max)
                      (toFixed2 avg) cheaper updated_at))
      | Throw e => Throw e
      end
  end.

Definition getPolicyByCategory (c : Cache) (category : string) : option Policy :=
  let policyName := policy_name category in
  List.find (description_is policyName) (policies c).

Definition getPolicyForProduct (c : Cache) (productId : string) : option Policy :=
  match productById c !! productId with
  | None => None
  | Some product =>
      let policyName := policy_name (category product) in
      List.find (description_is policyName) (policies c)
  end.

Definition getProductById (c : Cache) (productId : string) : option Product :=
  productById c !! productId.

(** The queries as [createDataStore] exports them: each makes the snapshot
    fresh and then answers from it. *)
Module Api.
Definition fresh_cache : M Cache := ensureFresh ;; the_cache.

Definition getProducts (filters : Filters.t) : M (list Product) :=
  c <- fresh_cache ;; ret (getProducts c filters).

Definition getRecommendations (productId query : option string)
  : M (list Product) :=
  c <- fresh_cache ;; ret (getRecommendations c productId query).

Definition getReviewSummary (productId : string) : M Summary :=
  c <- fresh_cache ;; ret (getReviewSummary c productId).

Definition getPriceComparison (productId : string)
  : M (option PriceComparison) :=
  c <- fresh_cache ;;
  s <- get_store ;;
  of_result (getPriceComparison c (lastModified s) productId).

Definition getPolicyForProduct (productId : string) : M (option Policy) :=
  c <- fresh_cache ;; ret (getPolicyForProduct c productId).

Definition getPolicyByCategory (category : string) : M (option Policy) :=
  c <- fresh_cache ;; ret (getPolicyByCategory c category).

Definition getProductById (productId : string) : M (option Product) :=
  c <- fresh_cache ;; ret (getProductById c productId).
End Api.

(* ================================================================== *)
(** * The request layer *)
(* ================================================================== *)

(** The functions of [server.js] and its handlers.  A parameter of a
    request is a string or is absent; a handler answers with a status and a
    body, the status being 200 unless it is set. *)

(** [Number.isFinite]. *)
Definition isFinite (x : number) : bool :=
  match x with
  | Fin _ => true
  | _ => false
  end.

Definition asNumber (value : option string) : option number :=
  match value with
  | None => None
  | Some v =>
      if String.eqb v "" then None
      else
        let num := Number v in
        if isFinite num then Some num else None
  end.

Definition detectIntent (message : string) : string :=
  let text := toLowerCase message in
  if includes text "policy" || includes text "return" || includes text "warranty"
  then "policy"
  else if includes text "review" || includes text "summary"
          || includes text "sentiment"
  then "review"
  else if includes text "compare" || includes text "price"
          || includes text "cheaper"
  then "price"
  else if includes text "recommend" || includes text "suggest"
          || includes text "similar"
  then "recommend"
  else "search".

(** The words of the expression
    [/(laptop|smartphone|speaker|tv|smart tv|smart_tv)/i], in its order. *)
Definition category_words : list string :=
  ["laptop"; "smartphone"; "speaker"; "tv"; "smart tv"; "smart_tv"].

(** The word fits at the start of the text, letters compared without case;
    the value is the text matched, as it is written. *)
Fixpoint regexp_word (word text : string) : option string :=
  match word with
  | EmptyString => Some EmptyString
  | String p word' =>
      match text with
      | EmptyString => None
      | String ch text' =>
          if Ascii.eqb (lower_char ch) p
          then option_map (String ch) (regexp_word word' text')
          else None
      end
  end.

(** The first word of the list that fits at the start of the text. *)
Fixpoint regexp_alternatives (words : list string) (text : string)
  : option string :=
  match words with
  | [] => None
  | w :: ws =>
      match regexp_word w text with
      | Some m => Some m
      | None => regexp_alternatives ws text
      end
  end.

(** [message.match(/(laptop|...)/i)]: the match at the first place, from the
    left, where one of the words fits; its element [0]. *)
Fixpoint category_match (message : string) : option string :=
  match regexp_alternatives category_words message with
  | Some m => Some m
  | None =>
      match message with
      | EmptyString => None
      | String _ rest => category_match rest
      end
  end.

(** [s.replace(" ", "_")]: the first space becomes an underscore. *)
Fixpoint replace_space (s : string) : string :=
  match s with
  | EmptyString => EmptyString
  | String ch s' =>
      if Ascii.eqb ch " " then String "_" s' else String ch (replace_space s')
  end.

(** The category [POST /api/chat] reads in a message:
    [match ? match[0].replace(" ", "_") : null], when it is not empty. *)
Definition chat_category (message : string) : option string :=
  match option_map replace_space (category_match message) with
  | Some cat => if truthy_str cat then Some cat else None
  | None => None
  end.

(** The sentence [POST /api/chat] replies with, given by the template it is
    built from and the values printed in it. *)
Inductive Reply : Type :=
| ReplyPolicy (description : string) (timeframe : number)
| ReplyNoPolicy
| ReplyAskReview
| ReplyReview (average_rating : number) (total_reviews : nat)
| ReplyAskPrice
| ReplyNoProduct
| ReplyPrice (categoryName : string) (min max avg : number)
| ReplyRecommend
| ReplyFound
| ReplyNotFound.

(** The object [payload], which is given at most one member. *)
Inductive Payload : Type :=
| PayloadEmpty
| PayloadPolicy (policy : Policy)
| PayloadSummary (summary : Summary)
| PayloadComparison (comparison : PriceComparison)
| PayloadRecommendations (recommendations : list Product)
| PayloadResults (results : list Product).

(** What [res.json] is given. *)
Inductive Body : Type :=
| BError (error : string)
| BProducts (l : list Product)
| BSummary (s : Summary)
| BComparison (r : PriceComparison)
| BPolicy (p : Policy)
| BChat (reply : Reply) (intent : string) (payload : Payload).

Record Response : Type := mkResponse {
  res_status : nat;
  res_body : Body
}.

(** [res.json(b)] and [res.status(n).json({ error })]. *)
Definition json (b : Body) : Response := mkResponse 200 b.
Definition fail (n : nat) (error : string) : Response := mkResponse n (BError error).

Module Server.
(** The parameters of [GET /api/products]. *)
Module ProductsQuery.
Record t : Type := mk {
  query : option string;
  category : option string;
  minPrice : option string;
  maxPrice : option string;
  inStockOnly : option string
}.
End ProductsQuery.

(** [inStockOnly === "true"]. *)
Definition is_true_text (o : option string) : bool :=
  match o with
  | Some v => String.eqb v "true"
  | None => false
  end.

Definition filters_of (q : ProductsQuery.t) : Filters.t :=
  Filters.mk (ProductsQuery.category q) (ProductsQuery.query q)
    (asNumber (ProductsQuery.minPrice q)) (asNumber (ProductsQuery.maxPrice q))
    (is_true_text (ProductsQuery.inStockOnly q)).

(** [GET /api/products]. *)
Definition products (q : ProductsQuery.t) : M Response :=
  results <- Api.getProducts (filters_of q) ;;
  ret (json (BProducts (slice0 50 results))).

(** [GET /api/recommendations]. *)
Definition recommendations (productId query : option string) : M Response :=
  results <- Api.getRecommendations productId query ;;
  ret (json (BProducts results)).

(** [GET /api/reviews/summary]. *)
Definition reviews_summary (productId : option string) : M Response :=
  match truthy_arg productId with
  | None => ret (fail 400 "productId required")
  | Some pid =>
      summary <- Api.getReviewSummary pid ;;
      ret (json (BSummary summary))
  end.

(** [GET /api/price-compare]. *)
Definition price_compare (productId : option string) : M Response :=
  match truthy_arg productId with
  | None => ret (fail 400 "productId required")
  | Some pid =>
      comparison <- Api.getPriceComparison pid ;;
      match comparison with
      | None => ret (fail 404 "product not found")
      | Some r => ret (json (BComparison r))
      end
  end.

(** [GET /api/policy]. *)
Definition policy (productId category : option string) : M Response :=
  match truthy_arg productId with
  | Some pid =>
      policy <- Api.getPolicyForProduct pid ;;
      match policy with
      | None => ret (fail 404 "policy not found")
      | Some p => ret (json (BPolicy p))
      end
  | None =>
      match truthy_arg category with
      | Some cat =>
          policy <- Api.getPolicyByCategory cat ;;
          match policy with
          | None => ret (fail 404 "policy not found")
          | Some p => ret (json (BPolicy p))
          end
      | None => ret (fail 400 "productId or category required")
      end
  end.
(** [POST /api/chat], for a body whose members [message] and [productId]
    are strings or are absent. *)
Definition chat (message productId : option string) : M Response :=
  match truthy_arg message with
  | None => ret (fail 400 "message required")
  | Some message =>
      let intent := detectIntent message in
      if String.eqb intent "policy" then
        policy <-
          match truthy_arg productId with
          | Some pid => Api.getPolicyForProduct pid
          | None =>
              match chat_category message with
              | Some cat => Api.getPolicyByCategory cat
              | None => ret None
              end
          end ;;
        match policy with
        | Some p =>
            ret (json (BChat (ReplyPolicy (policy_description p) (timeframe p))
                         intent (PayloadPolicy p)))
        | None => ret (json (BChat ReplyNoPolicy intent PayloadEmpty))
        end
      else if String.eqb intent "review" then
        match truthy_arg productId with
        | None => ret (json (BChat ReplyAskReview intent PayloadEmpty))
        | Some pid =>
            summary <- Api.getReviewSummary pid ;;
            ret (json (BChat (ReplyReview (average_rating summary)
                                (total_reviews summary))
                         intent (PayloadSummary summary)))
        end
      else if String.eqb intent "price" then
        match truthy_arg productId with
        | None => ret (json (BChat ReplyAskPrice intent PayloadEmpty))
        | Some pid =>
            comparison <- Api.getPriceComparison pid ;;
            match comparison with
            | None => ret (json (BChat ReplyNoProduct intent PayloadEmpty))
            | Some r =>
                ret (json (BChat (ReplyPrice (category (base r)) (min r) (max r)
                                    (avg r))
                             intent (PayloadComparison r)))
            end
        end
      else if String.eqb intent "recommend" then
        recommendations <- Api.getRecommendations productId (Some message) ;;
        ret (json (BChat ReplyRecommend intent
                     (PayloadRecommendations recommendations)))
      else
        results <-
          Api.getProducts (Filters.mk None (Some message) None None true) ;;
        ret (json (BChat (match results with
                          | [] => ReplyNotFound
                          | _ => ReplyFound
                          end)
                     intent (PayloadResults (slice0 8 results))))
  end.
End Server.

(* ================================================================== *)
(** * Definitions used in the statements *)
(* ================================================================== *)

(** [a] comes before [b]: a greater key, or the same key and [R0]. *)
Definition by_key_then {A : Type} (key : A -> Q) (R0 : A -> A -> Prop)
    (a b : A) : Prop :=
  (key b < key a)%Q \/ ((key a == key b)%Q /\ R0 a b).

Fixpoint all_chars (p : ascii -> bool) (s : string) : bool :=
  match s with
  | EmptyString => true
  | String c s' => p c && all_chars p s'
  end.

Inductive Bucket : Type := Positive | Negative | Neutral.

Definition Bucket_eqb (a b : Bucket) : bool :=
  match a, b with
  | Positive, Positive | Negative, Negative | Neutral, Neutral => true
  | _, _ => false
  end.

(** The bucket of a review in the words of the specification: positive when
    the rating is at least 4 or the sentiment score is above zero; otherwise
    negative when the rating is at most 2 or the score is below zero;
    otherwise neutral. *)
Definition bucket (review : Review) : Bucket :=
  let score := scoreSentiment (text review) in
  if num_le (Fin 4) (r_rating review) || (0 <? score)%Z then Positive
  else if num_le (r_rating review) (Fin 2) || (score <? 0)%Z then Negative
  else Neutral.

Definition count_bucket (b : Bucket) (reviews : list Review) : nat :=
  length (List.filter (fun r => Bucket_eqb (bucket r) b) reviews).

(** All the tokens of the review bodies, in the order they are read. *)
Definition all_tokens (reviews : list Review) : list string :=
  concat (map (fun r => tokenize (text r)) reviews).

(** How often [w] occurs among the tokens, and where it occurs first (the
    length of the list when it does not occur). *)
Fixpoint occurrences (w : string) (ts : list string) : nat :=
  match ts with
  | [] => 0
  | t :: ts' => (if String.eqb t w then 1 else 0) + occurrences w ts'
  end.

Fixpoint first_index (w : string) (ts : list string) : nat :=
  match ts with
  | [] => 0
  | t :: ts' => if String.eqb t w then 0 else S (first_index w ts')
  end.

(** What the word counts hold after the tokens [ts] were counted. *)
Definition counted (ts : list string) (m : WordCounts) : Prop :=
  Forall (fun e => snd e = occurrences (fst e) ts) m /\
  (forall w, In w (map fst m) <-> In w ts) /\
  StronglySorted (fun a b => (first_index a ts < first_index b ts)%nat)
    (map fst m).

Definition entry_theme (e : string * nat) : Theme := mkTheme (fst e) (snd e).

(** [a] is ranked before [b]: a greater count, or the same count and seen
    first. *)
Definition theme_before (ts : list string) (a b : Theme) : Prop :=
  (count b < count a)%nat \/
  (count a = count b /\ (first_index (word a) ts < first_index (word b) ts)%nat).

Definition reviews_of (k : string) (rs : list Review) : list Review :=
  List.filter (fun r => String.eqb (product_id r) k) rs.

(** A snapshot whose indexes are those of its own products and reviews, as
    every snapshot built by [load] is. *)
Definition consistent (c : Cache) : Prop :=
  productById c = index_products (products c) /\
  reviewsByProduct c = group_reviews (reviews c).

(** What a query answers once [ensureFresh] has returned: the value of its
    body on the snapshot then in the store. *)
Definition answer {A : Type} (body : Cache -> Store -> A)
    (out : result unit * Store) : result A * Store :=
  match out with
  | (Ok _, s') =>
      match cache s' with
      | Some c => (Ok (body c s'), s')
      | None => (Throw TypeError, s')
      end
  | (Throw e, s') => (Throw e, s')
  end.

(** The same for a body that may throw. *)
Definition answer_try {A : Type} (body : Cache -> Store -> result A)
    (out : result unit * Store) : result A * Store :=
  match out with
  | (Ok _, s') =>
      match cache s' with
      | Some c => (body c s', s')
      | None => (Throw TypeError, s')
      end
  | (Throw e, s') => (Throw e, s')
  end.

(** The rows of the examples of the specification: a laptop of price 100
    with the two candidates A and B, three speakers of prices 50, 70 and 90,
    the three reviews of the laptop, and the policy of laptops. *)
Definition sample_product_rows : list ProductRow.t :=
  [ ProductRow.mk "L0" "Base" "Acme" "laptop" "100" "work laptop" "3" "4";
    ProductRow.mk "LA" "A" "Acme" "laptop" "100" "light laptop" "5" "4";
    ProductRow.mk "LB" "B" "Bolt" "laptop" "300" "gaming laptop" "0" "5";
    ProductRow.mk "S1" "Mini" "Sono" "speaker" "50" "small speaker" "9" "3.5";
    ProductRow.mk "S2" "Midi" "Sono" "speaker" "70" "room speaker" "2" "4.1";
    ProductRow.mk "S3" "Maxi" "Sono" "speaker" "90" "loud speaker" "1" "4.6" ].

Definition sample_review_rows : list ReviewRow.t :=
  [ ReviewRow.mk "L0" "5" "great and fast" "2024-01-01";
    ReviewRow.mk "L0" "1" "broken and slow" "2024-01-02";
    ReviewRow.mk "L0" "3" "ok product" "2024-01-03" ].

Definition sample_policy_rows : list PolicyRow.t :=
  [ PolicyRow.mk "returns" "Laptop Return Policy" "unopened|with receipt" "30" ].

(** The speaker of price 90. *)
Definition sample_speaker : Product :=
  product_of_row
    (ProductRow.mk "S3" "Maxi" "Sono" "speaker" "90" "loud speaker" "1" "4.6").

Definition sample_cache : Cache :=
  snapshot sample_product_rows sample_review_rows sample_policy_rows.

(** A store loaded at the instant 1000 from files last modified at 500. *)
Definition sample_store : Store := mkStore (Some sample_cache) 1000 (Fin 500).

(** A laptop without identifier and a television.  A base product with a
    candidate without rating and one without price.  A base product priced
    3 with the candidates A, priced 2 and rated 0, and B, priced 9 and
    rated 0.33333333333333337, neither in stock. *)
Definition anonymous_rows : list ProductRow.t :=
  [ ProductRow.mk "" "Nameless" "Acme" "laptop" "100" "" "1" "3";
    ProductRow.mk "T1" "Tele" "Acme" "smart_tv" "400" "" "1" "5" ].

Definition unrated_rows : list ProductRow.t :=
  [ ProductRow.mk "B0" "Base" "Acme" "laptop" "100" "" "1" "4";
    ProductRow.mk "A" "A" "Acme" "laptop" "100" "" "5" "n/a";
    ProductRow.mk "N" "N" "Acme" "laptop" "n/a" "" "5" "4" ].

Definition rounding_rows : list ProductRow.t :=
  [ ProductRow.mk "B0" "Base" "Acme" "laptop" "3" "" "1" "1";
    ProductRow.mk "A" "A" "Acme" "laptop" "2" "" "0" "0";
    ProductRow.mk "B" "B" "Acme" "laptop" "9" "" "0" "0.33333333333333337" ].

(** Two speakers, the price of one not a number; three products priced
    0.045. *)
Definition unpriced_rows : list ProductRow.t :=
  [ ProductRow.mk "P1" "One" "Sono" "speaker" "70" "" "1" "4";
    ProductRow.mk "P2" "Two" "Sono" "speaker" "n/a" "" "1" "4" ].

Definition cent_rows : list ProductRow.t :=
  [ ProductRow.mk "P1" "One" "Tiny" "sweet" "0.045" "" "1" "4";
    ProductRow.mk "P2" "Two" "Tiny" "sweet" "0.045" "" "1" "4";
    ProductRow.mk "P3" "Three" "Tiny" "sweet" "0.045" "" "1" "4" ].

Definition zero_summary : Summary :=
  mkSummary (Fin 0) 0 (mkSentiment 0 0 0) [].

(** The mean of rationals, without rounding. *)
Definition exact_mean (qs : list Q) : Q :=
  (fold_left Qplus qs 0 / inject_Z (Z.of_nat (length qs)))%Q.

(** The sum of the numbers from 0 on, in the order of the list, every
    addition rounded; their mean is this sum divided by their count. *)
Definition float_sum (xs : list number) : number :=
  fold_left num_add xs (Fin 0).

Definition float_mean (xs : list number) : number :=
  num_div (float_sum xs) (num_of_nat (length xs)).

(** [y] is [x] rounded to two decimals: a whole number of hundredths, at
    most half a hundredth away. *)
Definition rounded2 (x y : Q) : Prop :=
  (exists n : Z, y == inject_Z n / 100)%Q /\ (Qabs (y - x) <= 1 # 200)%Q.

(** The rational a finite number holds. *)
Definition the_Q (x : number) : Q :=
  match x with
  | Fin q => q
  | _ => 0%Q
  end.

(** [q] is a whole multiple of [2^-1074], as every binary64 number is. *)
Definition on_grid (q : Q) : Prop :=
  exists z : Z, (Qnum q * 2 ^ 1074 = z * Zpos (Qden q))%Z.

(** The fraction [n / d] divided by [2^e], as a pair. *)
Definition scaled (n d e : Z) : Z * Z :=
  if (0 <=? e)%Z then (n, d * 2 ^ e)%Z else (n * 2 ^ (- e), d)%Z.

Definition fin_grid (x : number) : Prop :=
  match x with Fin q => on_grid q | _ => False end.

(** The products of the category of [product]. *)
Definition peers (c : Cache) (product : Product) : list Product :=
  List.filter (fun p => String.eqb (category p) (category product)) (products c).

(** The peers that cost strictly less than [product]. *)
Definition cheaper_peers (c : Cache) (product : Product) : list Product :=
  List.filter (fun p => num_lt (price p) (price product)) (peers c product).

(** [ranked] holds the elements of [l] in descending order of [key],
    elements of equal key in the order they have in [l]. *)
Definition ranking {A : Type} (key : A -> Q) (l ranked : list A) : Prop :=
  Permutation ranked l /\
  StronglySorted (fun a b => (key b <= key a)%Q) ranked /\
  forall k, List.filter (fun p => Qeq_bool (key p) k) ranked
            = List.filter (fun p => Qeq_bool (key p) k) l.

Definition Qmin2 (a b : Q) : Q := if Qle_bool a b then a else b.

Definition Qmax2 (a b : Q) : Q := if Qle_bool a b then b else a.

(** The score of a candidate in the words of the specification:
    rating × 2 + (1 − min(|Δprice| / max(base.price, 1), 1)) + (1 if the
    candidate is in stock, else 0), in the arithmetic of the language. *)
Definition score_spec (baseProduct candidate : Product) : number :=
  num_add
    (num_add
       (num_mul (rating candidate) (Fin 2))
       (num_sub (Fin 1)
          (min2
             (num_div (num_abs (num_sub (price candidate) (price baseProduct)))
                (max2 (price baseProduct) (Fin 1)))
             (Fin 1))))
    (if num_gt (stock candidate) (Fin 0) then Fin 1 else Fin 0).

(** The same score in exact arithmetic, on finite prices and ratings. *)
Definition exact_score (baseProduct candidate : Product) : Q :=
  (the_Q (rating candidate) * 2
   + (1 - Qmin2 (Qabs (the_Q (price candidate) - the_Q (price baseProduct))
                 / Qmax2 (the_Q (price baseProduct)) 1) 1)
   + (if num_gt (stock candidate) (Fin 0) then 1 else 0))%Q.

(** The other products of the category of the base product. *)
Definition other_peers (c : Cache) (productId : string) (baseProduct : Product)
  : list Product :=
  List.filter
    (fun product =>
       String.eqb (category product) (category baseProduct)
       && negb (String.eqb (prod_id product) productId))
    (products c).

(** [needle] occurs in [hay]. *)
Definition appears (needle hay : string) : Prop :=
  exists pre post, hay = pre ++ needle ++ post.

(** The text that is searched: the four fields, a space between each two,
    in lower case. *)
Definition haystack (product : Product) : string :=
  toLowerCase (name product ++ " " ++ brand product ++ " "
               ++ category product ++ " " ++ description product).

(** Two points for every query token that occurs in the haystack. *)
Definition text_score_spec (product : Product) (tokens : list string) : Z :=
  (2 * Z.of_nat
         (length (List.filter (fun t => includes (haystack product) t) tokens)))%Z.

(** The greatest modification time of the three files. *)
Definition max_mtime (m : Mtimes) : number :=
  Math_max [mtimeMs (mt_products m); mtimeMs (mt_reviews m);
            mtimeMs (mt_policies m)].

Definition is_read_products (e : event) : bool :=
  match e with EProducts _ => true | _ => false end.

Definition is_stat (e : event) : bool :=
  match e with EStat _ => true | _ => false end.

(** The number of reloads begun in a run: [load] starts by reading the
    products. *)
Definition reloads (evs : list event) : nat :=
  length (List.filter is_read_products evs).

(** The number of checks of the modification times in a run. *)
Definition stats (evs : list event) : nat :=
  length (List.filter is_stat evs).

(** Rows in which a numeric field is not a number: a price spelled as a
    word, an empty stock, a rating of [n/a], a review rating of [five] and
    a policy time frame of [thirty days]. *)
Definition odd_product_rows : list ProductRow.t :=
  [ ProductRow.mk "X1" "Pad" "Acme" "laptop" "cheap" "a pad" "" "n/a" ].

Definition odd_review_rows : list ReviewRow.t :=
  [ ReviewRow.mk "X1" "five" "great" "2024-02-01" ].

Definition odd_policy_rows : list PolicyRow.t :=
  [ PolicyRow.mk "returns" "Laptop Return Policy" "" "thirty days" ].

Definition odd_events : list event :=
  [ EProducts (Some odd_product_rows); EReviews (Some odd_review_rows);
    EPolicies (Some odd_policy_rows); ENow 1000;
    EStat (mkMtimes (Some 500%Q) (Some 400%Q) (Some 300%Q)) ].

Definition is_failed_read (e : event) : Prop :=
  e = EProducts None \/ e = EReviews None \/ e = EPolicies None.

(** How many of the tokens are in the word list [ws]. *)
Definition count_in (ws tokens : list string) : nat :=
  length (List.filter (fun t => mem_str t ws) tokens).

(** A store whose snapshot, when it has one, has the indexes of its own
    products and reviews. *)
Definition store_ok (s : Store) : Prop :=
  forall c, cache s = Some c -> consistent c.

(** [l.join("|")]. *)
Fixpoint join_pipe (l : list string) : string :=
  match l with
  | [] => ""
  | x :: l' =>
      match l' with
      | [] => x
      | _ => x ++ "|" ++ join_pipe l'
      end
  end.

(** [p] passes the filters of [getProducts]: the category, a positive text
    score for the query, the two price bounds and the stock. *)
Definition matches (filters : Filters.t) (p : Product) : bool :=
  match truthy_arg (Filters.category filters) with
  | Some cat => String.eqb (category p) cat
  | None => true
  end
  && match truthy_arg (Filters.query filters) with
     | Some q => (0 <? text_score_spec p (tokenize q))%Z
     | None => true
     end
  && match Filters.minPrice filters with
     | Some lo => num_le lo (price p)
     | None => true
     end
  && match Filters.maxPrice filters with
     | Some hi => num_le (price p) hi
     | None => true
     end
  && (if Filters.inStockOnly filters then num_lt (Fin 0) (stock p) else true).

(** The base product of [getRecommendations]: the product of a given,
    non-empty identifier that the snapshot knows. *)
Definition base_product (c : Cache) (productId : option string)
  : option Product :=
  match truthy_arg productId with
  | Some pid => productById c !! pid
  | None => None
  end.

(** The key of the ranking by query: the text score plus the rating, as
    the language adds them. *)
Definition query_score (tokens : list string) (p : Product) : number :=
  num_add (num_of_Z (text_score_spec p tokens)) (rating p).

Definition query_key (tokens : list string) (p : Product) : Q :=
  the_Q (query_score tokens p).

(** One of the words occurs in the message, letters compared without case
    of the message. *)
Definition mentions (ws : list string) (message : string) : Prop :=
  exists w, In w ws /\ appears w (toLowerCase message).

Definition policy_words : list string := ["policy"; "return"; "warranty"].
Definition review_words : list string := ["review"; "summary"; "sentiment"].
Definition price_words : list string := ["compare"; "price"; "cheaper"].
Definition recommend_words : list string := ["recommend"; "suggest"; "similar"].

(** [ensureFresh] returns on the events [evs], and leaves the snapshot [c]
    in the store [s']. *)
Definition fresh (s : Store) (evs : list event) (s' : Store) (c : Cache) : Prop :=
  run (ensureFresh s) evs = Some (Ok tt, s') /\ cache s' = Some c.

(** The outcome of a handler: the response it sends, or the error it lets
    escape. *)
Definition responds (h : M Response) (s : Store) (evs : list event)
    (resp : Response) (s' : Store) : Prop :=
  run (h s) evs = Some (Ok resp, s').

(** The ways of writing a category for which [POST /api/chat] finds the
    name of a policy. *)
Definition chat_categories : list string :=
  ["laptop"; "smartphone"; "speaker"; "smart tv"; "smart_tv"].

(* ================================================================== *)
(** * Examples *)
(* ================================================================== *)

Example tokenize_sample :
  tokenize "The screen is GREAT, and fast!" = ["screen"; "great"; "fast"].
Proof. vm_compute. reflexivity. Qed.

Example split_sample : split_ws " a  b " = [""; "a"; "b"; ""].
Proof. vm_compute. reflexivity. Qed.

Example summarize_sample :
  summarizeReviews spec_reviews =
  mkSummary (Fin 3) 3 (mkSentiment 1 1 1)
    [ mkTheme "great" 1; mkTheme "fast" 1; mkTheme "broken" 1;
      mkTheme "slow" 1; mkTheme "ok" 1 ].
Proof. vm_compute. reflexivity. Qed.

Example Number_samples :
  Number "19.99" = round64 (1999 # 100) /\ Number " 42 " = Fin 42 /\
  Number "-1.5e2" = Fin (-150) /\ Number ".5" = Fin (1 # 2) /\
  Number "5." = Fin 5 /\ Number "0x1F" = Fin 31 /\
  Number "" = Fin 0 /\ Number "abc" = NaN /\ Number "12px" = NaN /\
  Number "." = NaN /\ Number "1e" = NaN /\ Number "-Infinity" = NInf /\
  Number "1,5" = NaN /\ Number "+-1" = NaN /\ Number "N/A" = NaN /\
  Number "1e400" = PInf /\ Number "-1e400" = NInf /\ Number "1e-400" = Fin 0 /\
  Number "0.1" = Fin (3602879701896397 # 36028797018963968).
Proof. vm_compute. repeat split; reflexivity. Qed.

(* ================================================================== *)
(** * Facts about numbers *)
(* ================================================================== *)

Lemma Qlt_bool_iff (a b : Q) : Qlt_bool a b = true <-> (a < b)%Q.
Proof.
  unfold Qlt_bool. rewrite negb_true_iff.
  destruct (Qle_bool b a) eqn:E.
  - apply Qle_bool_iff in E. split; [discriminate | intros H; lra].
  - split; [intros _ | reflexivity].
    apply Qnot_le_lt. intros H. apply Qle_bool_iff in H. congruence.
Qed.

Lemma Qlt_bool_false (a b : Q) : Qlt_bool a b = false <-> (b <= a)%Q.
Proof.
  unfold Qlt_bool. rewrite negb_false_iff. apply Qle_bool_iff.
Qed.

Lemma pow2_pos (j : Z) : (0 <= j -> 0 < 2 ^ j)%Z.
Proof. intros H. apply Z.pow_pos_nonneg; lia. Qed.

Lemma ilog2_lower (n d : Z) :
  (0 < n)%Z -> (0 < d)%Z -> pow2_le (ilog2 n d) n d = true.
Proof.
  intros Hn Hd. unfold ilog2.
  set (k := (Z.log2 n - Z.log2 d)%Z).
  destruct (pow2_le k n d) eqn:E; [exact E|].
  destruct (Z.log2_spec n Hn) as [Hn1 _].
  destruct (Z.log2_spec d Hd) as [_ Hd2].
  pose proof (Z.log2_nonneg n) as Ln. pose proof (Z.log2_nonneg d) as Ld.
  unfold pow2_le. destruct (0 <=? k - 1)%Z eqn:Ek.
  - apply Z.leb_le in Ek. apply Z.leb_le.
    assert (Hp : (2 ^ Z.log2 n = 2 ^ Z.succ (Z.log2 d) * 2 ^ (k - 1))%Z).
    { rewrite <- Z.pow_add_r by lia. f_equal. unfold k. lia. }
    pose proof (pow2_pos (k - 1) Ek) as Hk.
    assert (d * 2 ^ (k - 1) <= 2 ^ Z.succ (Z.log2 d) * 2 ^ (k - 1))%Z
      by (apply Z.mul_le_mono_nonneg_r; lia).
    lia.
  - apply Z.leb_gt in Ek. apply Z.leb_le.
    assert (Hp : (2 ^ Z.log2 n * 2 ^ (- (k - 1)) = 2 ^ Z.succ (Z.log2 d))%Z).
    { rewrite <- Z.pow_add_r by lia. f_equal. unfold k. lia. }
    pose proof (pow2_pos (- (k - 1)) ltac:(lia)) as Hk.
    assert (2 ^ Z.log2 n * 2 ^ (- (k - 1)) <= n * 2 ^ (- (k - 1)))%Z
      by (apply Z.mul_le_mono_nonneg_r; lia).
    lia.
Qed.

Lemma pow2_le_mono (j k n d : Z) :
  (0 < n)%Z -> (0 < d)%Z -> (j <= k)%Z ->
  pow2_le k n d = true -> pow2_le j n d = true.
Proof.
  intros Hn Hd Hjk. unfold pow2_le.
  destruct (0 <=? k)%Z eqn:Ek, (0 <=? j)%Z eqn:Ej;
    try apply Z.leb_le in Ek; try apply Z.leb_le in Ej;
    try apply Z.leb_gt in Ek; try apply Z.leb_gt in Ej;
    rewrite !Z.leb_le; intros H.
  - assert (2 ^ j <= 2 ^ k)%Z by (apply Z.pow_le_mono_r; lia).
    assert (d * 2 ^ j <= d * 2 ^ k)%Z by (apply Z.mul_le_mono_nonneg_l; lia).
    lia.
  - pose proof (pow2_pos k Ek). pose proof (pow2_pos (- j) ltac:(lia)).
    assert (d * 1 <= d * 2 ^ k)%Z by (apply Z.mul_le_mono_nonneg_l; lia).
    assert (n * 1 <= n * 2 ^ (- j))%Z by (apply Z.mul_le_mono_nonneg_l; lia).
    lia.
  - lia.
  - assert (2 ^ (- k) <= 2 ^ (- j))%Z by (apply Z.pow_le_mono_r; lia).
    assert (n * 2 ^ (- k) <= n * 2 ^ (- j))%Z
      by (apply Z.mul_le_mono_nonneg_l; lia).
    lia.
Qed.

Lemma nearest_even_ge (n d : Z) :
  (0 < d)%Z -> (n / d <= nearest_even n d)%Z.
Proof.
  intros Hd. unfold nearest_even.
  destruct (2 * (n mod d) <? d)%Z; [lia|].
  destruct (d <? 2 * (n mod d))%Z; [lia|].
  destruct (Z.even (n / d)); lia.
Qed.

Lemma nearest_even_nonneg (n d : Z) :
  (0 <= n)%Z -> (0 < d)%Z -> (0 <= nearest_even n d)%Z.
Proof.
  intros Hn Hd. pose proof (nearest_even_ge n d Hd).
  pose proof (Z.div_pos n d Hn Hd). lia.
Qed.

Lemma nearest_even_pos (n d : Z) :
  (0 < d <= n)%Z -> (0 < nearest_even n d)%Z.
Proof.
  intros [Hd Hn]. pose proof (nearest_even_ge n d Hd).
  assert (1 <= n / d)%Z by (apply Z.div_le_lower_bound; lia). lia.
Qed.

Lemma dyadic_grid (m e : Z) : (-1074 <= e)%Z -> on_grid (dyadic m e).
Proof.
  intros He. unfold dyadic, on_grid. destruct (0 <=? e)%Z eqn:E.
  - exists (m * 2 ^ e * 2 ^ 1074)%Z. cbn [inject_Z Qnum Qden]. lia.
  - apply Z.leb_gt in E.
    pose proof (pow2_pos (- e) ltac:(lia)) as Hp.
    set (q := (m # Z.to_pos (2 ^ (- e)))).
    assert (Hq : (Qred q == q)%Q) by apply Qred_correct.
    unfold Qeq in Hq. unfold q at 2 3 in Hq. cbn [Qnum Qden] in Hq.
    rewrite Z2Pos.id in Hq by exact Hp.
    exists (m * 2 ^ (1074 + e))%Z.
    assert (Hs : (2 ^ 1074 = 2 ^ (1074 + e) * 2 ^ (- e))%Z).
    { rewrite <- Z.pow_add_r by lia. f_equal. lia. }
    apply (Z.mul_reg_r _ _ (2 ^ (- e))%Z); [lia|].
    rewrite Hs.
    transitivity (Qnum (Qred q) * 2 ^ (- e) * 2 ^ (1074 + e) * 2 ^ (- e))%Z; [ring|].
    rewrite Hq. ring.
Qed.

Lemma dyadic_sign (m e : Z) :
  ((0 <= m)%Z -> (0 <= dyadic m e)%Q) /\ ((0 < m)%Z -> (0 < dyadic m e)%Q).
Proof.
  unfold dyadic. destruct (0 <=? e)%Z eqn:E.
  - apply Z.leb_le in E. pose proof (pow2_pos e E).
    split; intros Hm.
    + change 0%Q with (inject_Z 0). rewrite <- Zle_Qle. nia.
    + change 0%Q with (inject_Z 0). rewrite <- Zlt_Qlt. nia.
  - split; intros Hm; rewrite Qred_correct; unfold Qle, Qlt; cbn; lia.
Qed.

(** The outcome of [round_pos]: positive infinity, or a multiple of
    [2^-1074] that is not negative, and is positive when the argument is at
    least [2^-1074]. *)
Lemma round_pos_cases (n d : Z) :
  (0 < n)%Z -> (0 < d)%Z ->
  round_pos n d = PInf \/
  exists v, round_pos n d = Fin v /\ on_grid v /\ (0 <= v)%Q /\
            (pow2_le (-1074) n d = true -> (0 < v)%Q).
Proof.
  intros Hn Hd. unfold round_pos.
  set (e := Z.max (ilog2 n d - 52) (-1074)).
  set (m := if (0 <=? e)%Z then nearest_even n (d * 2 ^ e)
            else nearest_even (n * 2 ^ (- e)) d).
  destruct ((0 <=? e)%Z && (2 ^ 1024 <=? m * 2 ^ e)%Z); [now left|right].
  exists (dyadic m e). split; [reflexivity|].
  split; [apply dyadic_grid; unfold e; lia|].
  assert (Hm0 : (0 <= m)%Z).
  { unfold m. destruct (0 <=? e)%Z eqn:E.
    - apply Z.leb_le in E. pose proof (pow2_pos e E).
      apply nearest_even_nonneg; nia.
    - apply Z.leb_gt in E. pose proof (pow2_pos (- e) ltac:(lia)).
      apply nearest_even_nonneg; nia. }
  split; [now apply dyadic_sign|].
  intros Hg. apply dyadic_sign.
  assert (He : pow2_le e n d = true).
  { unfold e. destruct (Z.max_spec (ilog2 n d - 52) (-1074)) as [[_ ->]|[_ ->]].
    - exact Hg.
    - apply (pow2_le_mono _ (ilog2 n d)); try assumption; [lia|].
      now apply ilog2_lower. }
  unfold pow2_le in He. unfold m. destruct (0 <=? e)%Z eqn:E.
  - apply Z.leb_le in E, He. pose proof (pow2_pos e E).
    apply nearest_even_pos. nia.
  - apply Z.leb_le in He. apply nearest_even_pos. lia.
Qed.

Lemma round64_grid (q v : Q) : round64 q = Fin v -> on_grid v.
Proof.
  unfold round64. destruct (Qnum q) as [|n|n] eqn:E.
  - intros [= <-]. exists 0%Z. reflexivity.
  - destruct (round_pos_cases (Zpos n) (Zpos (Qden q))) as [->|(w & -> & Hw & _)];
      try lia; [discriminate | now intros [= <-]].
  - destruct (round_pos_cases (Zpos n) (Zpos (Qden q))) as [->|(w & -> & Hw & _)];
      try lia; [discriminate|].
    cbn [num_neg]. intros [= <-]. destruct Hw as (z & Hz).
    exists (- z)%Z. cbn [Qopp Qnum Qden]. lia.
Qed.

(** Rounding keeps the sign of a multiple of [2^-1074]. *)
Lemma round64_sign (q : Q) :
  on_grid q -> num_lt (Fin 0) (round64 q) = Qlt_bool 0 q.
Proof.
  intros (z & Hz). unfold round64. destruct q as [n d]. cbn [Qnum Qden] in *.
  destruct n as [|n|n].
  - reflexivity.
  - assert (Hq : Qlt_bool 0 (Zpos n # d) = true)
      by (apply Qlt_bool_iff; unfold Qlt; cbn; lia).
    rewrite Hq.
    destruct (round_pos_cases (Zpos n) (Zpos d)) as [->|(w & -> & _ & _ & Hw)];
      try lia; [reflexivity|].
    cbn [num_lt]. apply Qlt_bool_iff, Hw.
    unfold pow2_le. cbn [Z.leb Z.compare Z.opp]. apply Z.leb_le.
    assert (0 < z)%Z by nia. nia.
  - assert (Hq : Qlt_bool 0 (Zneg n # d) = false)
      by (apply Qlt_bool_false; unfold Qle; cbn; lia).
    rewrite Hq.
    destruct (round_pos_cases (Zpos n) (Zpos d)) as [->|(w & -> & _ & Hw & _)];
      try lia; [reflexivity|].
    cbn [num_neg num_lt]. apply Qlt_bool_false. lra.
Qed.

Lemma on_grid_add (a b : Q) : on_grid a -> on_grid b -> on_grid (a + b).
Proof.
  intros (x & Hx) (y & Hy). exists (x + y)%Z.
  destruct a as [na da], b as [nb db]. cbn [Qplus Qnum Qden] in *.
  rewrite Pos2Z.inj_mul. nia.
Qed.

Lemma on_grid_opp (a : Q) : on_grid a -> on_grid (- a).
Proof.
  intros (x & Hx). exists (- x)%Z. destruct a as [na da].
  cbn [Qopp Qnum Qden] in *. lia.
Qed.

Lemma on_grid_Z (z : Z) : on_grid (inject_Z z).
Proof. exists (z * 2 ^ 1074)%Z. cbn [inject_Z Qnum Qden]. lia. Qed.

Lemma on_grid_eq (a b : Q) : (a == b)%Q -> on_grid a -> on_grid b.
Proof.
  intros Hab (x & Hx). exists x. unfold Qeq in Hab.
  destruct a as [na da], b as [nb db]. cbn [Qnum Qden] in *.
  apply (Z.mul_reg_r _ _ (Zpos da)); [lia|]. nia.
Qed.

Lemma ilog2_upper (n d : Z) :
  (0 < n)%Z -> (0 < d)%Z -> pow2_le (ilog2 n d + 1) n d = false.
Proof.
  intros Hn Hd. unfold ilog2.
  set (k := (Z.log2 n - Z.log2 d)%Z).
  destruct (pow2_le k n d) eqn:E.
  - destruct (Z.log2_spec n Hn) as [_ Hn2].
    destruct (Z.log2_spec d Hd) as [Hd1 _].
    pose proof (Z.log2_nonneg n) as Ln. pose proof (Z.log2_nonneg d) as Ld.
    unfold pow2_le. destruct (0 <=? k + 1)%Z eqn:Ek.
    + apply Z.leb_le in Ek. apply Z.leb_gt.
      assert (Hp : (2 ^ Z.succ (Z.log2 n) = 2 ^ Z.log2 d * 2 ^ (k + 1))%Z).
      { rewrite <- Z.pow_add_r by lia. f_equal. unfold k. lia. }
      pose proof (pow2_pos (k + 1) Ek) as Hk.
      assert (2 ^ Z.log2 d * 2 ^ (k + 1) <= d * 2 ^ (k + 1))%Z
        by (apply Z.mul_le_mono_nonneg_r; lia).
      lia.
    + apply Z.leb_gt in Ek. apply Z.leb_gt.
      assert (Hp : (2 ^ Z.succ (Z.log2 n) * 2 ^ (- (k + 1)) = 2 ^ Z.log2 d)%Z).
      { rewrite <- Z.pow_add_r by lia. f_equal. unfold k. lia. }
      pose proof (pow2_pos (- (k + 1)) ltac:(lia)) as Hk.
      assert (n * 2 ^ (- (k + 1)) < 2 ^ Z.succ (Z.log2 n) * 2 ^ (- (k + 1)))%Z
        by (apply Z.mul_lt_mono_pos_r; lia).
      lia.
  - replace (k - 1 + 1)%Z with k by lia. exact E.
Qed.

Lemma pow2_le_ratio (j n d n' d' : Z) :
  (0 < d)%Z -> (0 < d')%Z -> (n * d' <= n' * d)%Z ->
  pow2_le j n d = true -> pow2_le j n' d' = true.
Proof.
  intros Hd Hd' Hq. unfold pow2_le. destruct (0 <=? j)%Z eqn:Ej.
  - apply Z.leb_le in Ej. pose proof (pow2_pos j Ej) as Hj.
    rewrite !Z.leb_le. intros H.
    apply (Z.mul_le_mono_pos_r _ _ d Hd).
    assert (d' * (d * 2 ^ j) <= d' * n)%Z by (apply Z.mul_le_mono_nonneg_l; lia).
    lia.
  - apply Z.leb_gt in Ej. pose proof (pow2_pos (- j) ltac:(lia)) as Hj.
    rewrite !Z.leb_le. intros H.
    apply (Z.mul_le_mono_pos_r _ _ d Hd).
    assert (d' * d <= d' * (n * 2 ^ (- j)))%Z by (apply Z.mul_le_mono_nonneg_l; lia).
    assert (n * d' * 2 ^ (- j) <= n' * d * 2 ^ (- j))%Z
      by (apply Z.mul_le_mono_nonneg_r; lia).
    lia.
Qed.

Lemma ilog2_mono (n d n' d' : Z) :
  (0 < n)%Z -> (0 < d)%Z -> (0 < n')%Z -> (0 < d')%Z ->
  (n * d' <= n' * d)%Z -> (ilog2 n d <= ilog2 n' d')%Z.
Proof.
  intros Hn Hd Hn' Hd' Hq.
  destruct (Z_le_gt_dec (ilog2 n d) (ilog2 n' d')) as [H|H]; [exact H|].
  exfalso.
  pose proof (ilog2_lower n d Hn Hd) as H1.
  pose proof (ilog2_upper n' d' Hn' Hd') as H2.
  apply (pow2_le_mono (ilog2 n' d' + 1)) in H1; try assumption; [|lia].
  apply (pow2_le_ratio _ n d n' d') in H1; try assumption. congruence.
Qed.

Lemma nearest_even_le (n d N : Z) :
  (0 < d)%Z -> (n < N * d)%Z -> (nearest_even n d <= N)%Z.
Proof.
  intros Hd H.
  assert (n / d < N)%Z by (apply Z.div_lt_upper_bound; lia).
  unfold nearest_even.
  destruct (2 * (n mod d) <? d)%Z; [lia|].
  destruct (d <? 2 * (n mod d))%Z; [lia|].
  destruct (Z.even (n / d)); lia.
Qed.

Lemma nearest_even_lower (n d N : Z) :
  (0 < d)%Z -> (N * d <= n)%Z -> (N <= nearest_even n d)%Z.
Proof.
  intros Hd H. pose proof (nearest_even_ge n d Hd).
  assert (N <= n / d)%Z by (apply Z.div_le_lower_bound; lia). lia.
Qed.

Lemma nearest_even_mono (n d n' d' : Z) :
  (0 < d)%Z -> (0 < d')%Z -> (n * d' <= n' * d)%Z ->
  (nearest_even n d <= nearest_even n' d')%Z.
Proof.
  intros Hd Hd' Hq.
  pose proof (Z.div_mod n d ltac:(lia)) as E.
  pose proof (Z.div_mod n' d' ltac:(lia)) as E'.
  pose proof (Z.mod_pos_bound n d Hd) as B.
  pose proof (Z.mod_pos_bound n' d' Hd') as B'.
  set (f := (n / d)%Z) in *. set (r := (n mod d)%Z) in *.
  set (f' := (n' / d')%Z) in *. set (r' := (n' mod d')%Z) in *.
  assert (Hf : (f <= f')%Z).
  { destruct (Z_le_gt_dec f f') as [H|H]; [exact H|]. exfalso.
    assert (f' + 1 <= f)%Z by lia.
    assert ((f' + 1) * (d * d') <= f * (d * d'))%Z
      by (apply Z.mul_le_mono_nonneg_r; nia).
    nia. }
  assert (Hup : (nearest_even n d <= f + 1)%Z).
  { unfold nearest_even. fold f r.
    destruct (2 * r <? d)%Z; [lia|]. destruct (d <? 2 * r)%Z; [lia|].
    destruct (Z.even f); lia. }
  pose proof (nearest_even_ge n' d' Hd') as Hlow. fold f' in Hlow.
  destruct (Z.eq_dec f f') as [Eq|Ne]; [|lia].
  assert (Hr : (r * d' <= r' * d)%Z) by nia.
  unfold nearest_even. fold f r f' r'. rewrite <- Eq.
  destruct (2 * r <? d)%Z eqn:C1.
  - destruct (2 * r' <? d')%Z; [lia|]. destruct (d' <? 2 * r')%Z; [lia|].
    destruct (Z.even f); lia.
  - apply Z.ltb_ge in C1. destruct (d <? 2 * r)%Z eqn:C2.
    + apply Z.ltb_lt in C2.
      assert (d' < 2 * r')%Z by nia.
      destruct (2 * r' <? d')%Z eqn:C3; [apply Z.ltb_lt in C3; lia|].
      destruct (d' <? 2 * r')%Z eqn:C4; [lia | apply Z.ltb_ge in C4; lia].
    + apply Z.ltb_ge in C2. assert (2 * r = d)%Z by lia.
      assert (d' <= 2 * r')%Z by nia.
      destruct (2 * r' <? d')%Z eqn:C3; [apply Z.ltb_lt in C3; lia|].
      destruct (d' <? 2 * r')%Z; [destruct (Z.even f); lia|].
      destruct (Z.even f); lia.
Qed.

(** The value of [dyadic m e] as a multiple of [2^-1074]. *)
Lemma dyadic_val (m e : Z) :
  (-1074 <= e)%Z ->
  (dyadic m e == inject_Z (m * 2 ^ (e + 1074)) / inject_Z (2 ^ 1074))%Q.
Proof.
  intros He. unfold dyadic. destruct (0 <=? e)%Z eqn:E.
  - apply Z.leb_le in E.
    assert (HP : (0 < inject_Z (2 ^ 1074))%Q).
    { change 0%Q with (inject_Z 0). rewrite <- Zlt_Qlt. now apply pow2_pos. }
    rewrite Z.pow_add_r by lia.
    rewrite Z.mul_assoc, (inject_Z_mult (m * 2 ^ e) (2 ^ 1074)).
    set (a := inject_Z (m * 2 ^ e)) in *.
    set (b := inject_Z (2 ^ 1074)) in *. clearbody a b.
    field. intros H. rewrite H in HP. apply (Qlt_irrefl 0 HP).
  - apply Z.leb_gt in E. rewrite Qred_correct.
    pose proof (pow2_pos (- e) ltac:(lia)) as Hp.
    pose proof (pow2_pos (e + 1074) ltac:(lia)) as Hp2.
    unfold Qeq, Qdiv, Qmult, Qinv, inject_Z. cbn [Qnum Qden].
    assert (Hs : (2 ^ 1074 = 2 ^ (e + 1074) * 2 ^ (- e))%Z).
    { rewrite <- Z.pow_add_r by lia. f_equal. lia. }
    change (2 ^ 1074)%Z with (Z.pow 2 1074) in *.
    destruct (Z.pow 2 1074) as [|P|P] eqn:EP; try lia.
    cbn [Qnum Qden]. rewrite Z2Pos.id by exact Hp.
    rewrite !Pos2Z.inj_mul. rewrite Hs. lia.
Qed.

Lemma dyadic_le (m e m' e' : Z) :
  (-1074 <= e)%Z -> (-1074 <= e')%Z ->
  (m * 2 ^ (e + 1074) <= m' * 2 ^ (e' + 1074))%Z ->
  (dyadic m e <= dyadic m' e')%Q.
Proof.
  intros He He' H. rewrite (dyadic_val m e He), (dyadic_val m' e' He').
  assert (HP : (0 < inject_Z (2 ^ 1074))%Q).
  { change 0%Q with (inject_Z 0). rewrite <- Zlt_Qlt. now apply pow2_pos. }
  apply Qle_shift_div_l; [exact HP|].
  unfold Qdiv. rewrite <- Qmult_assoc, (Qmult_comm (/ _)), Qmult_inv_r, Qmult_1_r
    by (intros E; rewrite E in HP; apply (Qlt_irrefl 0 HP)).
  now rewrite <- Zle_Qle.
Qed.

Lemma round_pos_eq (n d : Z) :
  round_pos n d =
  let e := Z.max (ilog2 n d - 52) (-1074) in
  let m := nearest_even (fst (scaled n d e)) (snd (scaled n d e)) in
  if (0 <=? e)%Z && (2 ^ 1024 <=? m * 2 ^ e)%Z then PInf
  else Fin (dyadic m e).
Proof.
  unfold round_pos, scaled. cbv zeta.
  destruct (0 <=? Z.max (ilog2 n d - 52) (-1074))%Z; reflexivity.
Qed.

Lemma leb_iff (a b c d : Z) :
  ((a <= b)%Z <-> (c <= d)%Z) -> (a <=? b)%Z = (c <=? d)%Z.
Proof.
  intros H. destruct (Z.leb_spec a b), (Z.leb_spec c d); try reflexivity; lia.
Qed.

Lemma scaled_pos (n d e : Z) :
  (0 < n)%Z -> (0 < d)%Z ->
  (0 < fst (scaled n d e))%Z /\ (0 < snd (scaled n d e))%Z.
Proof.
  intros Hn Hd. unfold scaled. destruct (0 <=? e)%Z eqn:E; cbn [fst snd].
  - apply Z.leb_le in E. pose proof (pow2_pos e E). nia.
  - apply Z.leb_gt in E. pose proof (pow2_pos (- e) ltac:(lia)). nia.
Qed.

Lemma scaled_pow2_le (n d e j : Z) :
  (0 < n)%Z -> (0 < d)%Z -> (0 <= j)%Z ->
  pow2_le (e + j) n d
  = (2 ^ j * snd (scaled n d e) <=? fst (scaled n d e))%Z.
Proof.
  intros Hn Hd Hj. pose proof (pow2_pos j Hj) as Pj.
  unfold pow2_le, scaled.
  destruct (0 <=? e)%Z eqn:Ee; cbn [fst snd].
  - apply Z.leb_le in Ee.
    assert (E1 : (0 <=? e + j)%Z = true) by (apply Z.leb_le; lia).
    rewrite E1. f_equal. rewrite Z.pow_add_r by lia. ring.
  - apply Z.leb_gt in Ee. pose proof (pow2_pos (- e) ltac:(lia)) as Pe.
    destruct (0 <=? e + j)%Z eqn:E1.
    + apply Z.leb_le in E1. pose proof (pow2_pos (e + j) E1) as Pej.
      assert (Hs : (2 ^ j = 2 ^ (e + j) * 2 ^ (- e))%Z).
      { rewrite <- Z.pow_add_r by lia. f_equal. lia. }
      apply leb_iff. rewrite Hs. split; intros H.
      * assert (d * 2 ^ (e + j) * 2 ^ (- e) <= n * 2 ^ (- e))%Z
          by (apply Z.mul_le_mono_nonneg_r; lia).
        lia.
      * apply (Z.mul_le_mono_pos_r _ _ (2 ^ (- e))); lia.
    + apply Z.leb_gt in E1. pose proof (pow2_pos (- (e + j)) ltac:(lia)) as Pej.
      assert (Hs : (2 ^ (- e) = 2 ^ (- (e + j)) * 2 ^ j)%Z).
      { rewrite <- Z.pow_add_r by lia. f_equal. lia. }
      apply leb_iff. rewrite Hs. split; intros H.
      * assert (d * 2 ^ j <= n * 2 ^ (- (e + j)) * 2 ^ j)%Z
          by (apply Z.mul_le_mono_nonneg_r; lia).
        lia.
      * apply (Z.mul_le_mono_pos_r _ _ (2 ^ j)); lia.
Qed.

Lemma scaled_ratio (n d n' d' e : Z) :
  (0 < n)%Z -> (0 < d)%Z -> (0 < n')%Z -> (0 < d')%Z ->
  (n * d' <= n' * d)%Z ->
  (fst (scaled n d e) * snd (scaled n' d' e)
   <= fst (scaled n' d' e) * snd (scaled n d e))%Z.
Proof.
  intros Hn Hd Hn' Hd' Hq. unfold scaled.
  destruct (0 <=? e)%Z eqn:E; cbn [fst snd].
  - apply Z.leb_le in E. pose proof (pow2_pos e E).
    assert (n * d' * 2 ^ e <= n' * d * 2 ^ e)%Z
      by (apply Z.mul_le_mono_nonneg_r; lia).
    lia.
  - apply Z.leb_gt in E. pose proof (pow2_pos (- e) ltac:(lia)).
    assert (n * d' * 2 ^ (- e) <= n' * d * 2 ^ (- e))%Z
      by (apply Z.mul_le_mono_nonneg_r; lia).
    lia.
Qed.

(** Rounding is monotone. *)
Lemma round_pos_mono (n d n' d' : Z) :
  (0 < n)%Z -> (0 < d)%Z -> (0 < n')%Z -> (0 < d')%Z ->
  (n * d' <= n' * d)%Z ->
  num_le (round_pos n d) (round_pos n' d') = true.
Proof.
  intros Hn Hd Hn' Hd' Hq.
  pose proof (ilog2_mono n d n' d' Hn Hd Hn' Hd' Hq) as Hk.
  rewrite (round_pos_eq n d), (round_pos_eq n' d'). cbv zeta.
  set (e := Z.max (ilog2 n d - 52) (-1074)).
  set (e' := Z.max (ilog2 n' d' - 52) (-1074)).
  assert (He : (-1074 <= e)%Z) by (unfold e; lia).
  assert (He' : (-1074 <= e')%Z) by (unfold e'; lia).
  assert (Hee : (e <= e')%Z) by (unfold e, e'; lia).
  destruct (scaled_pos n d e Hn Hd) as [HN HD].
  destruct (scaled_pos n' d' e' Hn' Hd') as [HN' HD'].
  set (m := nearest_even (fst (scaled n d e)) (snd (scaled n d e))).
  set (m' := nearest_even (fst (scaled n' d' e')) (snd (scaled n' d' e'))).
  assert (Hm0 : (0 <= m)%Z) by (apply nearest_even_nonneg; lia).
  assert (Hval : (m * 2 ^ (e + 1074) <= m' * 2 ^ (e' + 1074))%Z).
  { destruct (Z.eq_dec e e') as [Eq|Ne].
    - assert (m <= m')%Z.
      { unfold m, m'. rewrite <- Eq.
        apply nearest_even_mono; try lia.
        - destruct (scaled_pos n' d' e Hn' Hd'); lia.
        - now apply scaled_ratio. }
      rewrite <- Eq. apply Z.mul_le_mono_nonneg_r; [|assumption].
      pose proof (pow2_pos (e + 1074) ltac:(lia)). lia.
    - assert (Hm : (m <= 2 ^ 53)%Z).
      { apply nearest_even_le; [lia|].
        pose proof (ilog2_upper n d Hn Hd) as Hu.
        assert (Hu' : pow2_le (e + 53) n d = false).
        { destruct (pow2_le (e + 53) n d) eqn:E; [|reflexivity].
          apply (pow2_le_mono (ilog2 n d + 1)) in E; try assumption;
            [congruence | unfold e; lia]. }
        rewrite (scaled_pow2_le n d e 53 Hn Hd ltac:(lia)) in Hu'.
        apply Z.leb_gt in Hu'. lia. }
      assert (Hm' : (2 ^ 52 <= m')%Z).
      { apply nearest_even_lower; [lia|].
        pose proof (ilog2_lower n' d' Hn' Hd') as Hl.
        assert (E' : (e' = ilog2 n' d' - 52)%Z) by (unfold e, e' in *; lia).
        replace (ilog2 n' d') with (e' + 52)%Z in Hl by lia.
        rewrite (scaled_pow2_le n' d' e' 52 Hn' Hd' ltac:(lia)) in Hl.
        apply Z.leb_le in Hl. lia. }
      pose proof (pow2_pos (e + 1074) ltac:(lia)) as P1.
      pose proof (pow2_pos (e' + 1074) ltac:(lia)) as P2.
      assert (H1 : (m * 2 ^ (e + 1074) <= 2 ^ 53 * 2 ^ (e + 1074))%Z)
        by (apply Z.mul_le_mono_nonneg_r; lia).
      assert (H2 : (2 ^ 52 * 2 ^ (e' + 1074) <= m' * 2 ^ (e' + 1074))%Z)
        by (apply Z.mul_le_mono_nonneg_r; lia).
      assert (H3 : (2 ^ 53 * 2 ^ (e + 1074) <= 2 ^ 52 * 2 ^ (e' + 1074))%Z).
      { rewrite <- !Z.pow_add_r by lia. apply Z.pow_le_mono_r; lia. }
      lia. }
  destruct ((0 <=? e')%Z && (2 ^ 1024 <=? m' * 2 ^ e')%Z) eqn:O'.
  - destruct ((0 <=? e)%Z && (2 ^ 1024 <=? m * 2 ^ e)%Z); reflexivity.
  - destruct ((0 <=? e)%Z && (2 ^ 1024 <=? m * 2 ^ e)%Z) eqn:O.
    + exfalso. apply andb_prop in O as [O1 O2].
      apply Z.leb_le in O1, O2.
      assert (O1' : (0 <=? e')%Z = true) by (apply Z.leb_le; lia).
      rewrite O1' in O'. cbn [andb] in O'. apply Z.leb_gt in O'.
      rewrite !Z.pow_add_r in Hval by lia.
      pose proof (pow2_pos 1074 ltac:(lia)) as P.
      assert (m * 2 ^ e * 2 ^ 1074 <= m' * 2 ^ e' * 2 ^ 1074)%Z by lia.
      assert (m * 2 ^ e <= m' * 2 ^ e')%Z
        by (apply (Z.mul_le_mono_pos_r _ _ (2 ^ 1074)); lia).
      lia.
    + cbn [num_le]. apply Qle_bool_iff. now apply dyadic_le.
Qed.

Lemma round_pos_nonneg (n d : Z) :
  (0 < n)%Z -> (0 < d)%Z -> num_le (Fin 0) (round_pos n d) = true.
Proof.
  intros Hn Hd.
  destruct (round_pos_cases n d Hn Hd) as [->|(v & -> & _ & Hv & _)];
    [reflexivity|].
  cbn [num_le]. now apply Qle_bool_iff.
Qed.

Lemma num_le_neg (x y : number) :
  num_le x y = true -> num_le (num_neg y) (num_neg x) = true.
Proof.
  destruct x, y; cbn; try reflexivity; try discriminate.
  intros H. apply Qle_bool_iff in H. apply Qle_bool_iff. lra.
Qed.

Lemma num_le_neg_nonneg (x y : number) :
  num_le (Fin 0) x = true -> num_le (Fin 0) y = true ->
  num_le (num_neg x) y = true.
Proof.
  destruct x, y; cbn; try reflexivity; try discriminate.
  intros H1 H2. apply Qle_bool_iff in H1, H2. apply Qle_bool_iff. lra.
Qed.

Theorem round64_mono (q q' : Q) :
  (q <= q')%Q -> num_le (round64 q) (round64 q') = true.
Proof.
  unfold Qle, round64. destruct q as [n d], q' as [n' d']. cbn [Qnum Qden].
  intros H.
  destruct n as [|n|n], n' as [|n'|n']; try lia; try reflexivity.
  - now apply round_pos_nonneg.
  - apply round_pos_mono; lia.
  - apply (num_le_neg_nonneg _ (Fin 0)); [now apply round_pos_nonneg | reflexivity].
  - apply num_le_neg_nonneg; now apply round_pos_nonneg.
  - apply num_le_neg. apply round_pos_mono; lia.
Qed.

Lemma Qred_Z (z : Z) : Qred (inject_Z z) = inject_Z z.
Proof.
  unfold Qred, inject_Z.
  pose proof (Z.ggcd_correct_divisors z 1) as Hd.
  pose proof (Z.ggcd_gcd z 1) as Hg. rewrite Z.gcd_1_r in Hg.
  destruct (Z.ggcd z 1) as (g & a & b). cbn [fst snd] in *. subst g.
  destruct Hd as [Ha Hb]. assert (Ea : a = z) by lia.
  assert (Eb : b = 1%Z) by lia. rewrite Ea, Eb. reflexivity.
Qed.

Lemma nearest_even_whole (n : Z) : nearest_even n 1 = n.
Proof.
  unfold nearest_even. rewrite Z.mod_1_r, Z.div_1_r. reflexivity.
Qed.

(** Whole numbers up to [2^53] are binary64 numbers. *)
Lemma round64_Z (z : Z) :
  (0 <= z <= 2 ^ 53)%Z -> round64 (inject_Z z) = Fin (inject_Z z).
Proof.
  intros Hz. unfold round64, inject_Z. cbn [Qnum Qden].
  destruct z as [|n|n]; [reflexivity| |lia].
  destruct (Z.eq_dec (Zpos n) (2 ^ 53)%Z) as [E|NE].
  { rewrite E. vm_compute. reflexivity. }
  unfold round_pos.
  assert (Hk : ilog2 (Zpos n) 1 = Z.log2 (Zpos n)).
  { unfold ilog2. change (Z.log2 1) with 0%Z. rewrite Z.sub_0_r.
    assert (H : pow2_le (Z.log2 (Zpos n)) (Zpos n) 1 = true).
    { unfold pow2_le. pose proof (Z.log2_nonneg (Zpos n)) as L.
      destruct (0 <=? Z.log2 (Zpos n))%Z eqn:E; [|apply Z.leb_gt in E; lia].
      apply Z.leb_le. destruct (Z.log2_spec (Zpos n)); lia. }
    now rewrite H. }
  rewrite Hk.
  assert (Lk : (0 <= Z.log2 (Zpos n) <= 52)%Z).
  { split; [apply Z.log2_nonneg|].
    assert (Z.log2 (Zpos n) < 53)%Z; [|lia].
    apply Z.log2_lt_pow2; lia. }
  set (k := Z.log2 (Zpos n)) in *.
  replace (Z.max (k - 52) (-1074)) with (k - 52)%Z by lia.
  destruct (Z.eq_dec k 52%Z) as [K|K].
  - rewrite K. change (52 - 52)%Z with 0%Z. change (0 <=? 0)%Z with true.
    cbv iota. rewrite Z.pow_0_r, !Z.mul_1_r, nearest_even_whole.
    assert (O : (2 ^ 1024 <=? Zpos n)%Z = false) by (apply Z.leb_gt; lia).
    rewrite O. cbn [andb]. unfold dyadic. change (0 <=? 0)%Z with true.
    cbv iota. now rewrite Z.pow_0_r, Z.mul_1_r.
  - assert (E : (0 <=? k - 52)%Z = false) by (apply Z.leb_gt; lia).
    rewrite E. cbn [andb]. rewrite nearest_even_whole.
    pose proof (pow2_pos (- (k - 52)) ltac:(lia)) as P.
    unfold dyadic. rewrite E.
    change (Zpos n # 1) with (inject_Z (Zpos n)).
    rewrite <- (Qred_Z (Zpos n)).
    apply f_equal, Qred_complete. unfold inject_Z. unfold Qeq. cbn [Qnum Qden].
    rewrite Z2Pos.id by exact P. ring.
Qed.

Lemma num_sub_fin (a b : Q) : num_sub (Fin a) (Fin b) = round64 (a - b).
Proof. reflexivity. Qed.

(** On binary64 numbers the sign of a difference orders its operands. *)
Lemma num_gt_sub (a b : Q) :
  on_grid a -> on_grid b ->
  num_gt (num_sub (Fin b) (Fin a)) (Fin 0) = Qlt_bool a b.
Proof.
  intros Ha Hb. rewrite num_sub_fin. unfold num_gt.
  rewrite round64_sign by (apply on_grid_add; [|apply on_grid_opp]; assumption).
  destruct (Qlt_bool a b) eqn:E.
  - apply Qlt_bool_iff in E. apply Qlt_bool_iff. lra.
  - apply Qlt_bool_false in E. apply Qlt_bool_false. lra.
Qed.

Lemma is_double_grid (q : Q) : is_double q = true -> on_grid q.
Proof.
  unfold is_double. destruct (round64 q) as [| | |v] eqn:E; try discriminate.
  intros H. apply Qeq_bool_iff in H.
  exact (on_grid_eq v q H (round64_grid q v E)).
Qed.

Lemma is_fin_grid (x : number) : is_fin x -> fin_grid x.
Proof. destruct x; try contradiction. apply is_double_grid. Qed.

Lemma num_of_Z_grid (z : Z) : fin_grid (num_of_Z z).
Proof. apply on_grid_Z. Qed.

(** What an operation gives on finite numbers is a multiple of [2^-1074]
    when it is finite. *)
Lemma num_add_grid (x y : number) (v : Q) :
  fin_grid x -> fin_grid y -> num_add x y = Fin v -> on_grid v.
Proof.
  destruct x, y; try contradiction. intros _ _. apply round64_grid.
Qed.

(** A sum that is finite is a multiple of [2^-1074]. *)
Lemma num_add_finite_grid (x y : number) :
  isFinite (num_add x y) = true -> fin_grid (num_add x y).
Proof.
  destruct x as [| | |a], y as [| | |b]; try discriminate. cbn [num_add].
  destruct (round64 (a + b)) as [| | |v] eqn:E; try discriminate.
  intros _. exact (round64_grid _ _ E).
Qed.

Lemma num_eq_refl (x : number) : x ≈ x.
Proof. destruct x; simpl; auto. reflexivity. Qed.

(* ================================================================== *)
(** * Facts about the stable sort *)
(* ================================================================== *)

Section SortFacts.
Context {A : Type}.
Variable cmp : A -> A -> number.

Lemma insert_sorted_perm (x : A) (l : list A) :
  Permutation (insert_sorted cmp x l) (x :: l).
Proof.
  induction l as [|y l IH]; cbn [insert_sorted]; [reflexivity|].
  destruct (num_gt (cmp x y) (Fin 0)); [|reflexivity].
  rewrite IH. apply perm_swap.
Qed.

Lemma js_sort_perm (l : list A) : Permutation (js_sort cmp l) l.
Proof.
  induction l as [|x l IH]; cbn [js_sort fold_right]; [reflexivity|].
  rewrite insert_sorted_perm. now constructor.
Qed.

Lemma js_sort_length (l : list A) : length (js_sort cmp l) = length l.
Proof. apply Permutation_length, js_sort_perm. Qed.

Lemma js_sort_In (l : list A) (x : A) : In x (js_sort cmp l) <-> In x l.
Proof.
  split; apply Permutation_in; [|symmetry]; apply js_sort_perm.
Qed.

(** The comparator orders the elements that satisfy [P] by a rational
    key, the greater key first. *)
Variable key : A -> Q.
Variable P : A -> Prop.
Hypothesis cmp_key :
  forall x y, P x -> P y ->
    num_gt (cmp x y) (Fin 0) = Qlt_bool (key x) (key y).

Lemma js_sort_Forall (l : list A) : Forall P l -> Forall P (js_sort cmp l).
Proof.
  intros H. rewrite List.Forall_forall in *. intros x Hx.
  apply H, js_sort_In, Hx.
Qed.

Lemma insert_sorted_sorted (x : A) (l : list A) :
  P x -> Forall P l ->
  StronglySorted (fun a b => (key b <= key a)%Q) l ->
  StronglySorted (fun a b => (key b <= key a)%Q) (insert_sorted cmp x l).
Proof.
  intros Px Pl Hs. induction Hs as [|y l Hs IH Hy]; cbn [insert_sorted].
  - repeat constructor.
  - inversion Pl as [|? ? Py Pl']; subst.
    rewrite (cmp_key x y Px Py).
    destruct (Qlt_bool (key x) (key y)) eqn:E.
    + constructor; [apply IH; assumption|].
      rewrite List.Forall_forall in *. intros z Hz.
      apply (Permutation_in _ (insert_sorted_perm x l)) in Hz.
      destruct Hz as [<-|Hz]; [|apply Hy, Hz].
      apply Qlt_bool_iff in E. lra.
    + apply Qlt_bool_false in E.
      constructor; [constructor; assumption|].
      constructor; [exact E|].
      rewrite List.Forall_forall in *. intros z Hz.
      specialize (Hy z Hz). simpl in Hy. lra.
Qed.

(** The result is in descending order of the key. *)
Lemma js_sort_sorted (l : list A) :
  Forall P l -> StronglySorted (fun a b => (key b <= key a)%Q) (js_sort cmp l).
Proof.
  induction l as [|x l IH]; intros H; cbn [js_sort fold_right]; [constructor|].
  inversion H; subst. fold (js_sort cmp l).
  apply insert_sorted_sorted; auto using js_sort_Forall.
Qed.

Lemma insert_sorted_stable (x : A) (l : list A) (k : Q) :
  P x -> Forall P l ->
  List.filter (fun a => Qeq_bool (key a) k) (insert_sorted cmp x l) =
  List.filter (fun a => Qeq_bool (key a) k) (x :: l).
Proof.
  intros Px Pl. induction Pl as [|y l Py Pl IH]; [reflexivity|].
  cbn [insert_sorted]. rewrite (cmp_key x y Px Py).
  destruct (Qlt_bool (key x) (key y)) eqn:E; [|reflexivity].
  apply Qlt_bool_iff in E.
  cbn [List.filter] in *. rewrite IH.
  destruct (Qeq_bool (key x) k) eqn:Ex, (Qeq_bool (key y) k) eqn:Ey;
    try reflexivity.
  apply Qeq_bool_iff in Ex, Ey. lra.
Qed.

(** Elements with the same key keep the order they had. *)
Lemma js_sort_stable (l : list A) (k : Q) :
  Forall P l ->
  List.filter (fun a => Qeq_bool (key a) k) (js_sort cmp l) =
  List.filter (fun a => Qeq_bool (key a) k) l.
Proof.
  induction 1 as [|x l Px Pl IH]; [reflexivity|].
  cbn [js_sort fold_right]. fold (js_sort cmp l).
  rewrite insert_sorted_stable by auto using js_sort_Forall.
  cbn [List.filter]. now rewrite IH.
Qed.

(** When the input is in the order [R0], the result is ordered by the
    key and, for equal keys, by [R0]. *)
Variable R0 : A -> A -> Prop.

Lemma insert_sorted_lex (x : A) (l : list A) :
  P x -> Forall P l -> Forall (R0 x) l ->
  StronglySorted (by_key_then key R0) l ->
  StronglySorted (by_key_then key R0) (insert_sorted cmp x l).
Proof.
  intros Px Pl Hx Hs. induction Hs as [|y l Hs IH Hy]; cbn [insert_sorted].
  - repeat constructor.
  - inversion Pl as [|? ? Py Pl']; subst.
    inversion Hx as [|? ? Rxy Hx']; subst.
    rewrite (cmp_key x y Px Py).
    destruct (Qlt_bool (key x) (key y)) eqn:E.
    + constructor; [apply IH; assumption|].
      rewrite List.Forall_forall in *. intros z Hz.
      apply (Permutation_in _ (insert_sorted_perm x l)) in Hz.
      destruct Hz as [<-|Hz]; [|apply Hy, Hz].
      apply Qlt_bool_iff in E. left. exact E.
    + apply Qlt_bool_false in E.
      constructor; [constructor; assumption|].
      assert (Hxy : by_key_then key R0 x y).
      { destruct (Qlt_le_dec (key y) (key x)); [left; assumption|].
        right. split; [lra | exact Rxy]. }
      constructor; [exact Hxy|].
      rewrite List.Forall_forall in *. intros z Hz.
      specialize (Hy z Hz). specialize (Hx' z Hz).
      unfold by_key_then in *.
      destruct (Qlt_le_dec (key z) (key x)); [left; assumption|].
      right. split; [|exact Hx'].
      destruct Hy as [Hy|[Hy _]]; lra.
Qed.

Lemma js_sort_lex (l : list A) :
  Forall P l -> StronglySorted R0 l ->
  StronglySorted (by_key_then key R0) (js_sort cmp l).
Proof.
  intros HP Hs. induction Hs as [|x l Hs IH Hx]; cbn [js_sort fold_right]; [constructor|].
  inversion HP; subst. fold (js_sort cmp l).
  apply insert_sorted_lex; auto using js_sort_Forall.
  rewrite List.Forall_forall in *. intros z Hz.
  apply Hx, js_sort_In, Hz.
Qed.
End SortFacts.

(* ================================================================== *)
(** * Facts about the text functions *)
(* ================================================================== *)

Lemma str_or_empty (s : string) : str_or s "" = s.
Proof. destruct s; reflexivity. Qed.

Lemma map_string_length (f : ascii -> ascii) (s : string) :
  String.length (map_string f s) = String.length s.
Proof. induction s; simpl; congruence. Qed.

Lemma replace_other_class (c : ascii) :
  is_alnum (replace_other c) || is_space (replace_other c) = true.
Proof.
  unfold replace_other.
  destruct (is_alnum c || is_space c) eqn:E; [exact E | reflexivity].
Qed.

Lemma normalizeText_class (s : string) :
  all_chars (fun c => is_alnum c || is_space c) (normalizeText s) = true.
Proof.
  unfold normalizeText. induction (toLowerCase s) as [|c t IH]; simpl; [reflexivity|].
  rewrite IH, andb_true_r. apply replace_other_class.
Qed.

(* ================================================================== *)
(** * Facts about the review summariser *)
(* ================================================================== *)

Lemma tally_review_counts (t : Tally) (r : Review) :
  let t' := tally_review t r in
  t_positive t' = (t_positive t + (if Bucket_eqb (bucket r) Positive then 1 else 0))%nat /\
  t_negative t' = (t_negative t + (if Bucket_eqb (bucket r) Negative then 1 else 0))%nat /\
  t_neutral t' = (t_neutral t + (if Bucket_eqb (bucket r) Neutral then 1 else 0))%nat /\
  t_wordCounts t' = fold_left wc_bump (tokenize (text r)) (t_wordCounts t).
Proof.
  unfold tally_review, bucket. rewrite str_or_empty.
  unfold num_ge. rewrite Z.gtb_ltb.
  destruct (num_le (Fin 4) (r_rating r) || (0 <? scoreSentiment (text r))%Z);
    [cbn; repeat split; lia|].
  destruct (num_le (r_rating r) (Fin 2) || (scoreSentiment (text r) <? 0)%Z);
    cbn; repeat split; lia.
Qed.

Lemma tally_counts (reviews : list Review) (t : Tally) :
  let t' := fold_left tally_review reviews t in
  t_positive t' = (t_positive t + count_bucket Positive reviews)%nat /\
  t_negative t' = (t_negative t + count_bucket Negative reviews)%nat /\
  t_neutral t' = (t_neutral t + count_bucket Neutral reviews)%nat /\
  t_wordCounts t' = fold_left wc_bump (all_tokens reviews) (t_wordCounts t).
Proof.
  revert t. induction reviews as [|r rs IH]; intros t; cbn [fold_left].
  - unfold count_bucket. cbn. repeat split; lia.
  - destruct (IH (tally_review t r)) as (Hp & Hn & Hz & Hw).
    destruct (tally_review_counts t r) as (Hp1 & Hn1 & Hz1 & Hw1).
    cbv zeta. rewrite Hp, Hn, Hz, Hw, Hp1, Hn1, Hz1, Hw1.
    unfold count_bucket, all_tokens. cbn [List.filter map concat].
    rewrite fold_left_app.
    clear. repeat split; try reflexivity;
      [ destruct (Bucket_eqb (bucket r) Positive)
      | destruct (Bucket_eqb (bucket r) Negative)
      | destruct (Bucket_eqb (bucket r) Neutral) ]; cbn [length]; lia.
Qed.



(* ================================================================== *)
(** * Facts about the word counts and the themes *)
(* ================================================================== *)

Lemma occurrences_app (w : string) (ts us : list string) :
  occurrences w (ts ++ us)%list = (occurrences w ts + occurrences w us)%nat.
Proof. induction ts as [|t ts IH]; simpl; [reflexivity | lia]. Qed.

Lemma occurrences_zero (w : string) (ts : list string) :
  occurrences w ts = 0%nat <-> ~ In w ts.
Proof.
  induction ts as [|t ts IH]; simpl; [tauto|].
  destruct (String.eqb_spec t w) as [->|Hne]; simpl.
  - split; [discriminate | intros H; exfalso; apply H; now left].
  - rewrite IH. tauto.
Qed.

Lemma first_index_lt (w : string) (ts : list string) :
  In w ts -> (first_index w ts < length ts)%nat.
Proof.
  induction ts as [|t ts IH]; simpl; [tauto|].
  destruct (String.eqb_spec t w) as [->|Hne]; [lia|].
  intros [H|H]; [congruence | specialize (IH H); lia].
Qed.

Lemma first_index_app_in (w : string) (ts us : list string) :
  In w ts -> first_index w (ts ++ us)%list = first_index w ts.
Proof.
  induction ts as [|t ts IH]; simpl; [tauto|].
  destruct (String.eqb_spec t w) as [->|Hne]; [reflexivity|].
  intros [H|H]; [congruence | now rewrite IH].
Qed.

Lemma first_index_app_new (w : string) (ts : list string) :
  ~ In w ts -> first_index w (ts ++ [w])%list = length ts.
Proof.
  induction ts as [|t ts IH]; simpl.
  - now rewrite String.eqb_refl.
  - destruct (String.eqb_spec t w) as [->|Hne]; [tauto|].
    intros H. rewrite IH; tauto.
Qed.

Lemma wc_get_None (m : WordCounts) (k : string) :
  wc_get m k = None -> ~ In k (map fst m).
Proof.
  induction m as [|[k' v'] m IH]; simpl; [tauto|].
  destruct (String.eqb_spec k' k) as [->|Hne]; [discriminate|].
  intros H [E|E]; [congruence | exact (IH H E)].
Qed.

Lemma wc_get_Some (m : WordCounts) (k : string) (c : nat) :
  wc_get m k = Some c -> In (k, c) m.
Proof.
  induction m as [|[k' v'] m IH]; simpl; [discriminate|].
  destruct (String.eqb_spec k' k) as [->|Hne].
  - intros [= ->]. now left.
  - intros H. right. exact (IH H).
Qed.

Lemma wc_set_new (m : WordCounts) (k : string) (v : nat) :
  wc_get m k = None -> wc_set m k v = (m ++ [(k, v)])%list.
Proof.
  induction m as [|[k' v'] m IH]; simpl; [reflexivity|].
  destruct (String.eqb_spec k' k) as [->|Hne]; [discriminate|].
  intros H. now rewrite IH.
Qed.

Lemma wc_set_keys (m : WordCounts) (k : string) (v c : nat) :
  wc_get m k = Some c -> map fst (wc_set m k v) = map fst m.
Proof.
  induction m as [|[k' v'] m IH]; simpl; [discriminate|].
  destruct (String.eqb_spec k' k) as [->|Hne]; simpl; [reflexivity|].
  intros H. now rewrite IH.
Qed.

(** After [m.set(k, v)] on a map without repeated keys, every entry holds
    what [f] says, when the entries other than [k] already did. *)
Lemma wc_set_Forall (f g : string -> nat) (m : WordCounts) (k : string) (v : nat) :
  List.NoDup (map fst m) ->
  Forall (fun e => snd e = f (fst e)) m ->
  (forall w, w <> k -> g w = f w) -> g k = v ->
  Forall (fun e => snd e = g (fst e)) (wc_set m k v).
Proof.
  intros Hnd Hf Hg Hk. induction m as [|[k' v'] m IH]; simpl.
  - repeat constructor. simpl. congruence.
  - inversion Hnd as [|? ? Hnotin Hnd']; subst.
    inversion Hf as [|? ? Hv Hf']; subst. simpl in Hv.
    destruct (String.eqb_spec k' k) as [->|Hne].
    + constructor; [simpl; congruence|].
      rewrite List.Forall_forall in *. intros [w c] Hin.
      pose proof (Hf' _ Hin) as E. simpl in E |- *.
      rewrite E. symmetry. apply Hg.
      intros ->. apply Hnotin. apply (in_map fst) in Hin. exact Hin.
    + constructor; [simpl; rewrite Hg; congruence | apply IH; assumption].
Qed.

Lemma StronglySorted_map {A B : Type} (R : B -> B -> Prop) (f : A -> B)
    (l : list A) :
  StronglySorted R (map f l) <-> StronglySorted (fun a b => R (f a) (f b)) l.
Proof.
  induction l as [|x l IH]; simpl.
  - split; constructor.
  - split; intros H; inversion H; subst; constructor;
      try (apply IH; assumption);
      rewrite List.Forall_forall in *; intros y Hy.
    + match goal with H : forall _, In _ (map f l) -> _ |- _ =>
        apply H, in_map, Hy end.
    + apply in_map_iff in Hy as (z & <- & Hz). auto.
Qed.

Lemma StronglySorted_snoc {A : Type} (R : A -> A -> Prop) (l : list A) (x : A) :
  StronglySorted R l -> Forall (fun a => R a x) l ->
  StronglySorted R (l ++ [x])%list.
Proof.
  induction 1 as [|y l Hs IH Hy]; intros Hx; simpl.
  - repeat constructor.
  - inversion Hx; subst. constructor; [apply IH; assumption|].
    apply Forall_app. split; [assumption | repeat constructor; assumption].
Qed.

Lemma StronglySorted_impl {A : Type} (R S : A -> A -> Prop) (l : list A) :
  (forall a b, In a l -> In b l -> R a b -> S a b) ->
  StronglySorted R l -> StronglySorted S l.
Proof.
  intros H Hs. induction Hs as [|x l Hs IH Hx]; constructor.
  - apply IH. intros a b Ha Hb. apply H; now right.
  - rewrite List.Forall_forall in *. intros y Hy.
    apply H; [now left | now right | apply Hx, Hy].
Qed.

Lemma StronglySorted_irrefl_NoDup {A : Type} (R : A -> A -> Prop) (l : list A) :
  (forall a, ~ R a a) -> StronglySorted R l -> List.NoDup l.
Proof.
  intros Hirr. induction 1 as [|x l Hs IH Hx]; constructor; [|assumption].
  intros Hin. rewrite List.Forall_forall in Hx. exact (Hirr x (Hx x Hin)).
Qed.

Lemma counted_NoDup (ts : list string) (m : WordCounts) :
  counted ts m -> List.NoDup (map fst m).
Proof.
  intros (_ & _ & Hs).
  eapply StronglySorted_irrefl_NoDup; [|exact Hs].
  intros a. apply Nat.lt_irrefl.
Qed.

Lemma counted_bump (ts : list string) (m : WordCounts) (t : string) :
  counted ts m -> counted (ts ++ [t])%list (wc_bump m t).
Proof.
  intros Hc. pose proof (counted_NoDup _ _ Hc) as Hnd.
  destruct Hc as (Hf & Hin & Hs). unfold wc_bump.
  destruct (wc_get m t) as [c|] eqn:Hget; cbn [default from_option id].
  - (* a token seen before *)
    pose proof (wc_get_Some _ _ _ Hget) as Hmem.
    assert (Ht : In t ts) by (apply Hin; apply (in_map fst) in Hmem; exact Hmem).
    assert (Hcnt : c = occurrences t ts).
    { rewrite List.Forall_forall in Hf. exact (Hf _ Hmem). }
    split; [|split].
    + apply (wc_set_Forall (fun w => occurrences w ts)
               (fun w => occurrences w (ts ++ [t])%list)); auto.
      * intros w Hne. rewrite occurrences_app. simpl.
        destruct (String.eqb_spec t w); [congruence | lia].
      * rewrite occurrences_app. simpl. rewrite String.eqb_refl. lia.
    + intros w. rewrite (wc_set_keys _ _ _ _ Hget), Hin, in_app_iff. simpl.
      split; [tauto | intros [H|[<-|[]]]; assumption].
    + rewrite (wc_set_keys _ _ _ _ Hget).
      eapply StronglySorted_impl; [|exact Hs].
      intros a b Ha Hb. apply Hin in Ha, Hb.
      now rewrite !first_index_app_in.
  - (* a new token *)
    pose proof (wc_get_None _ _ Hget) as Hnew.
    assert (Ht : ~ In t ts) by (rewrite <- Hin; exact Hnew).
    rewrite (wc_set_new _ _ _ Hget). split; [|split].
    + apply Forall_app. split.
      * rewrite List.Forall_forall in *. intros [w c] Hw.
        pose proof (Hf _ Hw) as E. simpl in E |- *.
        rewrite E, occurrences_app. simpl.
        destruct (String.eqb_spec t w) as [->|Hne]; [|lia].
        exfalso. apply Hnew. apply (in_map fst) in Hw. exact Hw.
      * repeat constructor. simpl. rewrite occurrences_app. simpl.
        rewrite String.eqb_refl.
        apply occurrences_zero in Ht. lia.
    + intros w. rewrite map_app, !in_app_iff, Hin. simpl. tauto.
    + rewrite map_app. simpl. apply StronglySorted_snoc.
      * eapply StronglySorted_impl; [|exact Hs].
        intros a b Ha Hb. apply Hin in Ha, Hb.
        now rewrite !first_index_app_in.
      * rewrite List.Forall_forall. intros a Ha. apply Hin in Ha.
        rewrite first_index_app_in by assumption.
        rewrite first_index_app_new by assumption.
        now apply first_index_lt.
Qed.

Lemma counted_fold (us ts : list string) (m : WordCounts) :
  counted ts m -> counted (ts ++ us)%list (fold_left wc_bump us m).
Proof.
  revert ts m. induction us as [|u us IH]; intros ts m Hc; simpl.
  - now rewrite app_nil_r.
  - replace (ts ++ u :: us)%list with ((ts ++ [u]) ++ us)%list
      by (rewrite <- app_assoc; reflexivity).
    apply IH, counted_bump, Hc.
Qed.

Lemma counted_nil : counted [] [].
Proof. repeat split; simpl; try constructor; tauto. Qed.

Lemma summarizeReviews_wordCounts (reviews : list Review) :
  reviews <> [] ->
  themes (summarizeReviews reviews) =
  firstn 5
    (map entry_theme
       (js_sort by_count_desc (fold_left wc_bump (all_tokens reviews) []))).
Proof.
  intros Hne. destruct reviews as [|r rs]; [congruence|].
  unfold summarizeReviews, slice0. cbn [themes].
  destruct (tally_counts (r :: rs) tally0) as (_ & _ & _ & Hw).
  cbv zeta in Hw. rewrite Hw. cbn [t_wordCounts tally0].
  rewrite firstn_map. reflexivity.
Qed.

Lemma ranked_themes (ts : list string) (m : WordCounts) :
  counted ts m ->
  let ranked := map entry_theme (js_sort by_count_desc m) in
  (forall w c, In (mkTheme w c) ranked <-> (In w ts /\ c = occurrences w ts)) /\
  List.NoDup (map word ranked) /\
  StronglySorted (theme_before ts) ranked.
Proof.
  intros Hc ranked. pose proof (counted_NoDup _ _ Hc) as Hnd.
  destruct Hc as (Hf & Hin & Hs).
  assert (Hmem : forall w c, In (mkTheme w c) ranked <-> In (w, c) m).
  { intros w c. unfold ranked. rewrite in_map_iff. split.
    - intros ([w' c'] & [= -> ->] & H). now apply js_sort_In in H.
    - intros H. exists (w, c). split; [reflexivity | now apply js_sort_In]. }
  split; [|split].
  - intros w c. rewrite Hmem. rewrite List.Forall_forall in Hf. split.
    + intros H. split; [apply Hin; apply (in_map fst) in H; exact H|].
      exact (Hf _ H).
    + intros [Hw ->]. apply Hin in Hw.
      apply in_map_iff in Hw as ([w' c'] & <- & H).
      pose proof (Hf _ H) as E. simpl in E |- *. now rewrite <- E.
  - unfold ranked. rewrite map_map.
    apply (Permutation_NoDup (l := map fst m)); [|exact Hnd].
    apply Permutation_map. symmetry. apply js_sort_perm.
  - unfold ranked. apply StronglySorted_map.
    apply (StronglySorted_map
             (fun a b => (first_index a ts < first_index b ts)%nat) fst) in Hs.
    eapply StronglySorted_impl;
      [| apply (js_sort_lex by_count_desc
                  (fun e => inject_Z (Z.of_nat (snd e))) (fun _ => True)
                  (fun a b e1 e2 => num_gt_sub _ _ (on_grid_Z _) (on_grid_Z _))
                  (fun a b => (first_index (fst a) ts < first_index (fst b) ts)%nat));
         [apply List.Forall_forall; auto | exact Hs] ].
    intros a b _ _ [H|[H1 H2]]; unfold theme_before; simpl.
    + left. rewrite <- Zlt_Qlt in H. clear -H. lia.
    + right. split; [|exact H2].
      apply (proj1 (inject_Z_injective _ _)) in H1. clear -H1. lia.
Qed.

(** C9.  For every non-empty review sequence the themes are the first five
    entries of a ranking of the token-frequency pairs: each token of the
    review bodies occurs once in the ranking with its number of occurrences,
    and the ranking is in descending order of count, tokens with the same
    count in the order in which they were first seen. *)
Theorem summarizeReviews_themes (reviews : list Review) :
  reviews <> [] ->
  let ts := all_tokens reviews in
  exists ranked : list Theme,
    themes (summarizeReviews reviews) = firstn 5 ranked /\
    (forall w c, In (mkTheme w c) ranked <-> (In w ts /\ c = occurrences w ts)) /\
    List.NoDup (map word ranked) /\
    StronglySorted (theme_before ts) ranked.
Proof.
  intros Hne ts.
  exists (map entry_theme
            (js_sort by_count_desc (fold_left wc_bump (all_tokens reviews) []))).
  split; [apply summarizeReviews_wordCounts, Hne|].
  apply ranked_themes.
  apply (counted_fold (all_tokens reviews) [] [] counted_nil).
Qed.

Lemma summarizeReviews_themes_witness :
  spec_reviews <> [] /\
  exists ranked : list Theme,
    themes (summarizeReviews spec_reviews) = firstn 5 ranked /\
    (forall w c, In (mkTheme w c) ranked <->
                 (In w (all_tokens spec_reviews)
                  /\ c = occurrences w (all_tokens spec_reviews))) /\
    List.NoDup (map word ranked) /\
    StronglySorted (theme_before (all_tokens spec_reviews)) ranked.
Proof.
  split; [discriminate|].
  apply (summarizeReviews_themes spec_reviews). discriminate.
Defined.



(* ================================================================== *)
(** * The normaliser on its arguments *)
(* ================================================================== *)

(** Called without an argument, [normalizeText] and [tokenize] throw: the
    call does not return a text. *)
Lemma normalizeText_undefined_throws :
  normalizeText_call Undefined = Throw TypeError /\
  tokenize_call Undefined = Throw TypeError.
Proof. split; reflexivity. Qed.

(** C3, amended.  On every string [normalizeText] and [tokenize] return,
    the result being a function of the string alone; the normalised text
    holds only the characters [a-z], [0-9] and white space; the empty string
    gives the empty text and no token.  On a missing argument both throw a
    [TypeError]. *)
Theorem normalizeText_total_on_strings (s : string) :
  normalizeText_call (Str s) = Ok (normalizeText s) /\
  tokenize_call (Str s) = Ok (tokenize s) /\
  all_chars (fun c => is_alnum c || is_space c) (normalizeText s) = true /\
  normalizeText "" = "" /\ tokenize "" = [] /\
  normalizeText_call Undefined = Throw TypeError /\
  tokenize_call Undefined = Throw TypeError.
Proof.
  repeat split; try reflexivity. apply normalizeText_class.
Qed.

(* ================================================================== *)
(** * Facts about the indexes of a snapshot *)
(* ================================================================== *)

Lemma index_fold_lookup (ps : list Product) (m : gmap string Product)
    (k : string) (p : Product) :
  fold_left (fun m p => <[prod_id p := p]> m) ps m !! k = Some p ->
  (In p ps /\ prod_id p = k) \/ m !! k = Some p.
Proof.
  revert m. induction ps as [|x ps IH]; intros m H; simpl in H; [now right|].
  destruct (IH _ H) as [[Hin Hid]|Hm].
  - left. split; [now right | exact Hid].
  - destruct (decide (prod_id x = k)) as [<-|Hne].
    + rewrite lookup_insert_eq in Hm. injection Hm as <-.
      left. split; [now left | reflexivity].
    + rewrite lookup_insert_ne in Hm by exact Hne. now right.
Qed.

(** A product found by its identifier is one of the products of the
    catalog and carries that identifier. *)
Lemma index_products_Some (ps : list Product) (k : string) (p : Product) :
  index_products ps !! k = Some p -> In p ps /\ prod_id p = k.
Proof.
  intros H. apply index_fold_lookup in H as [H|H]; [exact H|].
  rewrite lookup_empty in H. discriminate.
Qed.

Lemma index_fold_None (ps : list Product) (m : gmap string Product) (k : string) :
  fold_left (fun m p => <[prod_id p := p]> m) ps m !! k = None <->
  (m !! k = None /\ forall p, In p ps -> prod_id p <> k).
Proof.
  revert m. induction ps as [|x ps IH]; intros m; simpl.
  - split; [intros H; split; [exact H | tauto] | tauto].
  - rewrite IH. destruct (decide (prod_id x = k)) as [<-|Hne].
    + rewrite lookup_insert_eq. split; [intros [H _]; discriminate|].
      intros [_ H]. exfalso. apply (H x); [now left | reflexivity].
    + rewrite lookup_insert_ne by exact Hne. split.
      * intros [H1 H2]. split; [exact H1|].
        intros p [<-|Hp]; [exact Hne | now apply H2].
      * intros [H1 H2]. split; [exact H1|]. intros p Hp. apply H2. now right.
Qed.

(** An identifier is unknown exactly when no product carries it. *)
Lemma index_products_None (ps : list Product) (k : string) :
  index_products ps !! k = None <-> forall p, In p ps -> prod_id p <> k.
Proof.
  unfold index_products. rewrite index_fold_None, lookup_empty. tauto.
Qed.

Lemma group_review_lookup (m : gmap string (list Review)) (r : Review) (k : string) :
  group_review m r !! k =
  if String.eqb (product_id r) k
  then Some (default [] (m !! k) ++ [r])%list
  else m !! k.
Proof.
  unfold group_review.
  destruct (String.eqb_spec (product_id r) k) as [<-|Hne].
  - rewrite lookup_insert_eq.
    destruct (m !! product_id r) as [l|] eqn:E; [now rewrite E|].
    now rewrite lookup_insert_eq.
  - rewrite lookup_insert_ne by exact Hne.
    destruct (m !! product_id r); [reflexivity|].
    now rewrite lookup_insert_ne by exact Hne.
Qed.

Lemma group_fold_lookup (rs : list Review) (m : gmap string (list Review))
    (k : string) :
  fold_left group_review rs m !! k =
  match reviews_of k rs with
  | [] => m !! k
  | l => Some (default [] (m !! k) ++ l)%list
  end.
Proof.
  revert m. induction rs as [|r rs IH]; intros m; simpl; [reflexivity|].
  rewrite IH, group_review_lookup.
  destruct (String.eqb (product_id r) k); [|reflexivity].
  cbn [default from_option id].
  destruct (reviews_of k rs) as [|r' l]; [reflexivity|].
  now rewrite <- app_assoc.
Qed.

(** The reviews grouped under an identifier are the reviews that carry it,
    in the order of the source; there is no group without a review. *)
Lemma group_reviews_lookup (rs : list Review) (k : string) :
  group_reviews rs !! k =
  match reviews_of k rs with
  | [] => None
  | l => Some l
  end.
Proof.
  unfold group_reviews. rewrite group_fold_lookup, lookup_empty.
  destruct (reviews_of k rs); reflexivity.
Qed.

Lemma snapshot_consistent prows rrows qrows :
  consistent (snapshot prows rrows qrows).
Proof. split; reflexivity. Qed.

(* ================================================================== *)
(** * Facts about running a query *)
(* ================================================================== *)

Lemma run_io_bind_pure {A B : Type} (p : io A) (f : A -> io B) (h : A -> B) :
  (forall a, f a = Ret (h a)) ->
  forall evs, run (io_bind p f) evs = h <$> run p evs.
Proof.
  intros Hf. induction p as [a|k IH|k IH|k IH|k IH|k IH]; intros evs; simpl.
  - rewrite Hf. destruct evs; reflexivity.
  - destruct evs as [|[] evs]; try reflexivity. apply IH.
  - destruct evs as [|[] evs]; try reflexivity. apply IH.
  - destruct evs as [|[] evs]; try reflexivity. apply IH.
  - destruct evs as [|[] evs]; try reflexivity. apply IH.
  - destruct evs as [|[] evs]; try reflexivity. apply IH.
Qed.

Lemma run_query {A : Type} (k : Cache -> M A) (body : Cache -> Store -> A)
    (s : Store) (evs : list event) :
  (forall c s', k c s' = Ret (Ok (body c s'), s')) ->
  run ((c <- Api.fresh_cache ;; k c) s) evs
  = answer body <$> run (ensureFresh s) evs.
Proof.
  intros Hk. unfold Api.fresh_cache, bind.
  set (g := fun out : result Cache * Store =>
              match out with
              | (Ok c, s') => (Ok (body c s'), s')
              | (Throw e, s') => (Throw e, s')
              end).
  set (f1 := fun out : result unit * Store =>
               match out with
               | (Ok _, s') => the_cache s'
               | (Throw e, s') => Ret (Throw e, s')
               end).
  rewrite (run_io_bind_pure _ _ g).
  2:{ intros [[c|e] s']; [apply Hk | reflexivity]. }
  rewrite (run_io_bind_pure _ f1
             (fun out => match out with
                         | (Ok _, s') =>
                             match cache s' with
                             | Some c => (Ok c, s')
                             | None => (Throw TypeError, s')
                             end
                         | (Throw e, s') => (Throw e, s')
                         end)).
  2:{ intros [[u|e] s']; [|reflexivity]. unfold f1, the_cache.
      destruct (cache s'); reflexivity. }
  destruct (run (ensureFresh s) evs) as [[[u|e] s']|]; simpl; try reflexivity.
  destruct (cache s'); reflexivity.
Qed.

(* ================================================================== *)
(** * Policy lookup and review summary of an unknown identifier *)
(* ================================================================== *)

Lemma find_first {A : Type} (f : A -> bool) (l : list A) (x : A) :
  List.find f l = Some x <->
  exists before after,
    l = (before ++ x :: after)%list /\ f x = true /\
    forall y, In y before -> f y = false.
Proof.
  induction l as [|y l IH]; simpl.
  - split; [discriminate|]. intros (b & a & H & _). destruct b; discriminate.
  - destruct (f y) eqn:E.
    + split.
      * intros [= <-]. exists [], l. repeat split; [exact E | intros ? []].
      * intros ([|z b] & a & H & Hx & Hb); injection H as <- ->; [reflexivity|].
        rewrite (Hb y) in E by now left. discriminate.
    + rewrite IH. split.
      * intros (b & a & -> & Hx & Hb). exists (y :: b), a.
        repeat split; [exact Hx|]. intros z [<-|Hz]; [exact E | now apply Hb].
      * intros ([|z b] & a & H & Hx & Hb); injection H as <- ->.
        -- congruence.
        -- exists b, a. repeat split; [exact Hx|]. intros w Hw. apply Hb. now right.
Qed.

Lemma find_none {A : Type} (f : A -> bool) (l : list A) :
  List.find f l = None <-> forall y, In y l -> f y = false.
Proof.
  induction l as [|y l IH]; simpl; [split; [intros _ ? [] | reflexivity]|].
  destruct (f y) eqn:E.
  - split; [discriminate|]. intros H. rewrite (H y) in E by now left. discriminate.
  - rewrite IH. split.
    + intros H z [<-|Hz]; [exact E | now apply H].
    + intros H z Hz. apply H. now right.
Qed.

Lemma policy_name_table (category n : string) :
  policy_name category = Some n <->
  In (category, n) CATEGORY_POLICY_MAP.
Proof.
  unfold policy_name, CATEGORY_POLICY_MAP. cbn [assoc_str In].
  repeat match goal with
         | |- context [String.eqb ?a category] =>
             destruct (String.eqb_spec a category) as [<-|?]
         end;
    split; intros H;
    repeat match goal with
           | H : _ \/ _ |- _ => destruct H as [H|H]
           | H : (_, _) = (_, _) |- _ => injection H as ? ?; subst
           | H : Some _ = Some _ |- _ => injection H as ?; subst
           end;
    try discriminate; try contradiction; try congruence; auto 6.
Qed.

Lemma description_is_true (o : option string) (p : Policy) :
  description_is o p = true <-> o = Some (policy_description p).
Proof.
  destruct o as [n|]; simpl; [|split; discriminate].
  rewrite String.eqb_eq. split; [intros ->; reflexivity | now intros [= ->]].
Qed.

Lemma api_policy (categoryName productId : string) (s s' : Store) (c : Cache)
    (evs : list event) :
  run (ensureFresh s) evs = Some (Ok tt, s') -> cache s' = Some c ->
  run (Api.getPolicyByCategory categoryName s) evs
    = Some (Ok (getPolicyByCategory c categoryName), s') /\
  run (Api.getPolicyForProduct productId s) evs
    = Some (Ok (getPolicyForProduct c productId), s').
Proof.
  intros Hrun Hc. unfold Api.getPolicyByCategory, Api.getPolicyForProduct.
  rewrite (run_query _ (fun c _ => getPolicyByCategory c categoryName))
    by reflexivity.
  rewrite (run_query _ (fun c _ => getPolicyForProduct c productId))
    by reflexivity.
  rewrite Hrun. simpl. rewrite Hc. split; reflexivity.
Qed.

(** C8.  The category is mapped through the four entries of the table and
    the answer is the first policy whose description is the mapped name;
    the answer is null, not an exception, when the category is not in the
    table or no policy has that description.  [getPolicyForProduct] answers
    as [getPolicyByCategory] does on the category of the resolved product.
    Once the store is fresh, the exported queries return these answers. *)
Theorem policy_lookup (c : Cache) (categoryName : string) :
  (forall n, policy_name categoryName = Some n <->
             In (categoryName, n)
               [ ("laptop", "Laptop Return Policy");
                 ("smartphone", "Smartphone Return Policy");
                 ("smart_tv", "Smart TV Return Policy");
                 ("speaker", "Speaker Return Policy") ]) /\
  (forall p, getPolicyByCategory c categoryName = Some p <->
     exists n before after,
       policy_name categoryName = Some n /\
       policies c = (before ++ p :: after)%list /\
       policy_description p = n /\
       (forall q, In q before -> policy_description q <> n)) /\
  (getPolicyByCategory c categoryName = None <->
     (policy_name categoryName = None \/
      exists n, policy_name categoryName = Some n /\
                forall q, In q (policies c) -> policy_description q <> n)) /\
  (forall productId,
     getPolicyForProduct c productId =
     match productById c !! productId with
     | Some product => getPolicyByCategory c (category product)
     | None => None
     end) /\
  (forall s evs s' productId,
     run (ensureFresh s) evs = Some (Ok tt, s') -> cache s' = Some c ->
     run (Api.getPolicyByCategory categoryName s) evs
       = Some (Ok (getPolicyByCategory c categoryName), s') /\
     run (Api.getPolicyForProduct productId s) evs
       = Some (Ok (getPolicyForProduct c productId), s')).
Proof.
  split; [intros n; apply policy_name_table|].
  split; [|split; [|split]].
  - intros p. unfold getPolicyByCategory. rewrite find_first. split.
    + intros (b & a & Hl & Hp & Hb).
      apply description_is_true in Hp.
      exists (policy_description p), b, a. repeat split; auto.
      intros q Hq E. specialize (Hb q Hq).
      rewrite Hp in Hb. simpl in Hb. rewrite E, String.eqb_refl in Hb.
      discriminate.
    + intros (n & b & a & Hn & Hl & Hp & Hb). exists b, a.
      rewrite Hn. simpl. repeat split; [exact Hl | now apply String.eqb_eq|].
      intros q Hq. apply String.eqb_neq. now apply Hb.
  - unfold getPolicyByCategory. rewrite find_none.
    destruct (policy_name categoryName) as [n|]; simpl.
    + split.
      * intros H. right. exists n. split; [reflexivity|].
        intros q Hq. apply String.eqb_neq. now apply H.
      * intros [H|(n' & [= <-] & H)]; [discriminate|].
        intros q Hq. apply String.eqb_neq. now apply H.
    + split; [now left | reflexivity].
  - intros productId. unfold getPolicyForProduct, getPolicyByCategory.
    destruct (productById c !! productId); reflexivity.
  - intros s evs s' productId. apply api_policy.
Qed.

Lemma policy_lookup_witness :
  run (Api.getPolicyByCategory "laptop" sample_store) [ENow 2000]
    = Some (Ok (getPolicyByCategory sample_cache "laptop"), sample_store) /\
  getPolicyByCategory sample_cache "tablet" = None.
Proof.
  split.
  - apply (proj2 (proj2 (proj2 (proj2 (policy_lookup sample_cache "laptop"))))
             sample_store [ENow 2000%Z] sample_store "L0"); reflexivity.
  - apply (proj1 (proj2 (proj2 (policy_lookup sample_cache "tablet")))).
    left. reflexivity.
Defined.

(** In a snapshot built by [load], no review is grouped under an
    identifier exactly when no review names it. *)
Lemma no_reviews_grouped (c : Cache) (productId : string) :
  consistent c ->
  (reviewsByProduct c !! productId = None <->
   forall r, In r (reviews c) -> product_id r <> productId).
Proof.
  intros [_ ->]. rewrite group_reviews_lookup. unfold reviews_of.
  split.
  - intros H r Hr E.
    assert (Hin : In r (List.filter (fun r => String.eqb (product_id r) productId)
                          (reviews c))).
    { apply filter_In. split; [exact Hr | now apply String.eqb_eq]. }
    destruct (List.filter _ (reviews c)); [destruct Hin | discriminate].
  - intros H.
    destruct (List.filter _ (reviews c)) as [|r l] eqn:E; [reflexivity|].
    assert (Hin : In r (r :: l)) by now left.
    rewrite <- E in Hin. apply filter_In in Hin as [Hr Hid].
    apply String.eqb_eq in Hid. exfalso. exact (H r Hr Hid).
Qed.

(** C10.  An identifier under which no review is grouped gets the
    zero-valued summary, whether or not a product carries the identifier,
    and once the store is fresh the exported query returns that summary and
    does not throw.  In a snapshot built by [load] an identifier that no
    review names has no review grouped under it. *)
Theorem getReviewSummary_no_reviews (c : Cache) (productId : string) :
  (reviewsByProduct c !! productId = None \/
   reviewsByProduct c !! productId = Some [] ->
   getReviewSummary c productId = zero_summary /\
   (forall s evs s',
      run (ensureFresh s) evs = Some (Ok tt, s') -> cache s' = Some c ->
      run (Api.getReviewSummary productId s) evs
        = Some (Ok zero_summary, s'))) /\
  (consistent c ->
   (forall r, In r (reviews c) -> product_id r <> productId) ->
   reviewsByProduct c !! productId = None).
Proof.
  split; [|intros Hc; apply (no_reviews_grouped c productId Hc)].
  intros Hnone.
  assert (H : getReviewSummary c productId = zero_summary).
  { unfold getReviewSummary. destruct Hnone as [-> | ->]; reflexivity. }
  split; [exact H|].
  intros s evs s' Hrun Hc. unfold Api.getReviewSummary.
  rewrite (run_query _ (fun c _ => getReviewSummary c productId))
    by reflexivity.
  rewrite Hrun. simpl. rewrite Hc, H. reflexivity.
Qed.

Lemma getReviewSummary_no_reviews_witness :
  reviewsByProduct sample_cache !! "nowhere" = None /\
  getReviewSummary sample_cache "nowhere" = zero_summary.
Proof.
  assert (H : reviewsByProduct sample_cache !! "nowhere" = None)
    by (vm_compute; reflexivity).
  split; [exact H|].
  apply (proj1 (getReviewSummary_no_reviews sample_cache "nowhere") (or_introl H)).
Defined.

(** The prices and the ratings of the sample catalog are numbers. *)
Lemma sample_catalog_numeric (p : Product) :
  In p (products sample_cache) -> is_fin (price p) /\ is_fin (rating p).
Proof.
  intros H. vm_compute in H.
  repeat (destruct H as [<-|H]; [split; vm_compute; reflexivity|]). destruct H.
Qed.

(* ================================================================== *)
(** * Facts about minimum, maximum, mean and rounding *)
(* ================================================================== *)

Lemma Forall_is_fin (xs : list number) :
  Forall is_fin xs -> exists qs, xs = map Fin qs.
Proof.
  induction 1 as [|x xs Hx _ (qs & ->)]; [now exists []|].
  destruct x; try contradiction. now exists (q :: qs).
Qed.

Lemma fold_min2_fin (qs : list Q) (a : Q) :
  exists m, fold_left min2 (map Fin qs) (Fin a) = Fin m /\
            (m = a \/ In m qs) /\ (m <= a)%Q /\
            forall x, In x qs -> (m <= x)%Q.
Proof.
  revert a. induction qs as [|q qs IH]; intros a; simpl.
  - exists a. repeat split; [now left | lra | tauto].
  - destruct (Qle_bool a q) eqn:E.
    + apply Qle_bool_iff in E. destruct (IH a) as (m & -> & Hm & Hle & Hall).
      exists m. repeat split; [destruct Hm as [->|Hm]; auto | exact Hle|].
      intros x [<-|Hx]; [lra | auto].
    + assert (Hqa : (q <= a)%Q).
      { destruct (Qlt_le_dec q a); [lra|].
        apply Qle_bool_iff in q0. congruence. }
      destruct (IH q) as (m & -> & Hm & Hle & Hall).
      exists m. repeat split; [destruct Hm as [->|Hm]; auto | lra|].
      intros x [<-|Hx]; [lra | auto].
Qed.

Lemma fold_max2_fin (qs : list Q) (a : Q) :
  exists m, fold_left max2 (map Fin qs) (Fin a) = Fin m /\
            (m = a \/ In m qs) /\ (a <= m)%Q /\
            forall x, In x qs -> (x <= m)%Q.
Proof.
  revert a. induction qs as [|q qs IH]; intros a; simpl.
  - exists a. repeat split; [now left | lra | tauto].
  - destruct (Qle_bool a q) eqn:E.
    + apply Qle_bool_iff in E. destruct (IH q) as (m & -> & Hm & Hle & Hall).
      exists m. repeat split; [destruct Hm as [->|Hm]; auto | lra|].
      intros x [<-|Hx]; [lra | auto].
    + assert (Hqa : (q <= a)%Q).
      { destruct (Qlt_le_dec q a); [lra|].
        apply Qle_bool_iff in q0. congruence. }
      destruct (IH a) as (m & -> & Hm & Hle & Hall).
      exists m. repeat split; [destruct Hm as [->|Hm]; auto | exact Hle|].
      intros x [<-|Hx]; [lra | auto].
Qed.

(** The least of a non-empty list of finite numbers. *)
Lemma Math_min_fin (q : Q) (qs : list Q) :
  exists m, Math_min (map Fin (q :: qs)) = Fin m /\ In m (q :: qs) /\
            forall x, In x (q :: qs) -> (m <= x)%Q.
Proof.
  unfold Math_min. cbn [map fold_left min2 num_le].
  destruct (fold_min2_fin qs q) as (m & -> & Hm & Hle & Hall).
  exists m. repeat split.
  - destruct Hm as [->|Hm]; [now left | now right].
  - intros x [<-|Hx]; [exact Hle | auto].
Qed.

Lemma Math_max_fin (q : Q) (qs : list Q) :
  exists m, Math_max (map Fin (q :: qs)) = Fin m /\ In m (q :: qs) /\
            forall x, In x (q :: qs) -> (x <= m)%Q.
Proof.
  unfold Math_max. cbn [map fold_left max2 num_le].
  destruct (fold_max2_fin qs q) as (m & -> & Hm & Hle & Hall).
  exists m. repeat split.
  - destruct Hm as [->|Hm]; [now left | now right].
  - intros x [<-|Hx]; [exact Hle | auto].
Qed.

Lemma round2_rounded (q : Q) : rounded2 q (round2 q).
Proof.
  unfold rounded2, round2.
  set (a := (Qabs q * 100 + (1 # 2))%Q).
  pose proof (Qfloor_le a) as Hlo. pose proof (Qlt_floor a) as Hhi.
  set (n := Qfloor a) in *.
  assert (Hn1 : (inject_Z (n + 1) == inject_Z n + 1)%Q)
    by (rewrite inject_Z_plus; reflexivity).
  rewrite Hn1 in Hhi. subst a.
  destruct (Qlt_bool q 0) eqn:E.
  - apply Qlt_bool_iff in E.
    rewrite (Qabs_neg q) in Hlo, Hhi by lra.
    set (y := Qred (- (inject_Z n / 100))).
    assert (Hy : (y == - (inject_Z n / 100))%Q) by apply Qred_correct.
    clearbody y. split.
    + exists (- n)%Z. rewrite Hy, inject_Z_opp. unfold Qdiv. ring.
    + assert (H100 : (y * 100 == - inject_Z n)%Q) by (rewrite Hy; field).
      apply Qabs_Qle_condition. split; lra.
  - apply Qlt_bool_false in E.
    rewrite (Qabs_pos q) in Hlo, Hhi by lra.
    set (y := Qred (inject_Z n / 100)).
    assert (Hy : (y == inject_Z n / 100)%Q) by apply Qred_correct.
    clearbody y. split.
    + exists n. exact Hy.
    + assert (H100 : (y * 100 == inject_Z n)%Q) by (rewrite Hy; field).
      apply Qabs_Qle_condition. split; lra.
Qed.

(** The comparator [(a, b) => a.price - b.price] orders finite prices
    upwards. *)
Lemma num_gt_sub_asc (a b : Q) :
  on_grid a -> on_grid b ->
  num_gt (num_sub (Fin a) (Fin b)) (Fin 0) = Qlt_bool (- a) (- b).
Proof.
  intros Ha Hb. rewrite (num_gt_sub b a Hb Ha).
  destruct (Qlt_bool (- a) (- b)) eqn:E.
  - apply Qlt_bool_iff in E. apply Qlt_bool_iff. lra.
  - apply Qlt_bool_false in E. apply Qlt_bool_false. lra.
Qed.

(* ================================================================== *)
(** * Price comparison *)
(* ================================================================== *)

Lemma fin_prices (l : list Product) :
  (forall p, In p l -> is_fin (price p)) ->
  map price l = map Fin (map (fun p => the_Q (price p)) l).
Proof.
  induction l as [|x l IH]; intros H; simpl; [reflexivity|].
  rewrite <- IH by (intros p Hp; apply H; now right).
  specialize (H x (or_introl eq_refl)).
  destruct (price x); try contradiction. reflexivity.
Qed.

Lemma Qeq_bool_opp (a b : Q) : Qeq_bool (- a) (- b) = Qeq_bool a b.
Proof.
  destruct (Qeq_bool a b) eqn:E.
  - apply Qeq_bool_iff in E. apply Qeq_bool_iff. lra.
  - apply Qeq_bool_neq in E. destruct (Qeq_bool (- a) (- b)) eqn:E'; [|reflexivity].
    apply Qeq_bool_iff in E'. exfalso. apply E. lra.
Qed.

(** The comparator [(a, b) => a.price - b.price] on products of finite
    price. *)
Lemma by_price_asc (x y : Product) :
  is_fin (price x) -> is_fin (price y) ->
  num_gt (num_sub (price x) (price y)) (Fin 0)
  = Qlt_bool (- the_Q (price x)) (- the_Q (price y)).
Proof.
  destruct (price x), (price y); try contradiction. intros Hx Hy.
  apply num_gt_sub_asc; now apply is_double_grid.
Qed.

Lemma cheaper_ranking (c : Cache) (product : Product) :
  (forall p, In p (products c) -> is_fin (price p)) ->
  let ranked :=
    js_sort (fun a b => num_sub (price a) (price b)) (cheaper_peers c product) in
  Permutation ranked (cheaper_peers c product) /\
  StronglySorted (fun a b => (the_Q (price a) <= the_Q (price b))%Q) ranked /\
  (forall k,
     List.filter (fun p => Qeq_bool (the_Q (price p)) k) ranked =
     List.filter (fun p => Qeq_bool (the_Q (price p)) k) (cheaper_peers c product)).
Proof.
  intros Hfin ranked.
  assert (HP : Forall (fun p => is_fin (price p)) (cheaper_peers c product)).
  { apply List.Forall_forall. intros p Hp. apply Hfin.
    unfold cheaper_peers, peers in Hp.
    apply filter_In in Hp as [Hp _]. apply filter_In in Hp as [Hp _]. exact Hp. }
  split; [apply js_sort_perm|]. split.
  - eapply StronglySorted_impl;
      [| apply (js_sort_sorted _ (fun p => (- the_Q (price p))%Q)
                  (fun p => is_fin (price p)) by_price_asc _ HP)].
    intros a b _ _ H. simpl in H. lra.
  - intros k.
    pose proof (js_sort_stable _ (fun p => (- the_Q (price p))%Q)
                  (fun p => is_fin (price p)) by_price_asc _ (- k)%Q HP) as H.
    rewrite !(filter_ext (fun p => Qeq_bool (the_Q (price p)) k)
                (fun p => Qeq_bool (- the_Q (price p)) (- k)))
      by (intros p; symmetry; apply Qeq_bool_opp).
    exact H.
Qed.

(** The claim of the specification read in exact arithmetic does not hold:
    with a price that is not a number the three figures are [NaN]; with
    three prices of 0.045 the least and the greatest price are printed as
    0.04, and so is their exact mean, but the mean the code computes is
    printed as 0.05; and with a modification time that is no valid date the
    call throws instead of returning. *)
Lemma getPriceComparison_not_the_exact_mean :
  (exists r,
     getPriceComparison (snapshot unpriced_rows [] []) (Fin 500) "P1"
       = Ok (Some r) /\
     map price (peers (snapshot unpriced_rows [] []) (base r)) = [Fin 70; NaN] /\
     min r = NaN /\ max r = NaN /\ avg r = NaN) /\
  (exists r,
     getPriceComparison (snapshot cent_rows [] []) (Fin 500) "P1"
       = Ok (Some r) /\
     map price (peers (snapshot cent_rows [] []) (base r))
       = [round64 (45 # 1000); round64 (45 # 1000); round64 (45 # 1000)] /\
     min r = round64 (4 # 100) /\ max r = round64 (4 # 100) /\
     avg r = round64 (5 # 100) /\
     round2 (exact_mean (map (fun p => the_Q (price p))
                           (peers (snapshot cent_rows [] []) (base r))))
       = Qred (4 # 100)) /\
  getPriceComparison sample_cache (Fin 9000000000000000) "S3"
    = Throw RangeError /\
  getPriceComparison sample_cache NaN "S3" = Throw RangeError.
Proof.
  split; [|split; [|split]].
  - eexists. split; [vm_compute; reflexivity|].
    vm_compute. repeat split; reflexivity.
  - eexists. split; [vm_compute; reflexivity|].
    vm_compute. repeat split; reflexivity.
  - vm_compute. reflexivity.
  - vm_compute. reflexivity.
Qed.

(** C7, amended.  An identifier that does not resolve gives null.  In a
    snapshot built by [load] whose prices are finite numbers, and with a
    modification time that is a valid date, an identifier that resolves
    gives the product itself; the least and the greatest price of the
    products of its category, each printed with two decimals and read back;
    their mean as the language computes it, the prices added from 0 on in
    catalog order and the sum divided by their count, printed and read back
    likewise; and the first five of the products of the category that cost
    strictly less, in ascending order of price, products of equal price in
    catalog order.  Printing with two decimals gives the nearest hundredth,
    and reading it back the nearest number.  For the speakers priced 50, 70
    and 90 and the one priced 90 the answer is 50, 90, 70 and the products
    priced 50 and 70. *)
Theorem getPriceComparison_spec (c : Cache) (lm : number) (productId : string) :
  (productById c !! productId = None ->
   getPriceComparison c lm productId = Ok None) /\
  (forall product t,
     consistent c ->
     (forall p, In p (products c) -> is_fin (price p)) ->
     TimeClip lm = Some t ->
     productById c !! productId = Some product ->
     exists r lo hi,
       getPriceComparison c lm productId = Ok (Some r) /\ base r = product /\
       let qs := map (fun p => the_Q (price p)) (peers c product) in
       (In lo qs /\ (forall x, In x qs -> (lo <= x)%Q) /\
        min r = toFixed2 (Fin lo)) /\
       (In hi qs /\ (forall x, In x qs -> (x <= hi)%Q) /\
        max r = toFixed2 (Fin hi)) /\
       avg r = toFixed2 (float_mean (map price (peers c product))) /\
       (exists ranked,
          cheaper r = firstn 5 ranked /\
          Permutation ranked (cheaper_peers c product) /\
          StronglySorted (fun a b => (the_Q (price a) <= the_Q (price b))%Q) ranked /\
          forall k,
            List.filter (fun p => Qeq_bool (the_Q (price p)) k) ranked =
            List.filter (fun p => Qeq_bool (the_Q (price p)) k)
              (cheaper_peers c product)) /\
       (length (cheaper r) <= 5)%nat) /\
  (forall q, rounded2 q (round2 q) /\ toFixed2 (Fin q) = round64 (round2 q)) /\
  (exists r,
     getPriceComparison sample_cache (Fin 500) "S3" = Ok (Some r) /\
     map price (peers sample_cache (base r)) = [Fin 50; Fin 70; Fin 90] /\
     price (base r) = Fin 90 /\
     min r = Fin 50 /\ max r = Fin 90 /\ avg r = Fin 70 /\
     map price (cheaper r) = [Fin 50; Fin 70]).
Proof.
  split; [|split; [|split]].
  - intros H. unfold getPriceComparison. now rewrite H.
  - intros product t [Hidx _] Hfin Ht Hlook.
    assert (Hin : In product (products c)).
    { rewrite Hidx in Hlook. now apply index_products_Some in Hlook. }
    unfold getPriceComparison, toISOString. rewrite Hlook, Ht.
    fold (peers c product).
    assert (Hpeer : In product (peers c product)).
    { apply filter_In. split; [exact Hin | apply String.eqb_refl]. }
    assert (Hpf : forall p, In p (peers c product) -> is_fin (price p)).
    { intros p Hp. apply Hfin. now apply filter_In in Hp as [Hp _]. }
    set (qs := map (fun p => the_Q (price p)) (peers c product)).
    assert (Hqs : exists q qs', qs = q :: qs').
    { subst qs. destruct (peers c product) as [|p l]; [destruct Hpeer|].
      simpl. eauto. }
    destruct Hqs as (q & qs' & Hqs).
    destruct (Math_min_fin q qs') as (lo & Hmin & Hlo & Hlo').
    destruct (Math_max_fin q qs') as (hi & Hmax & Hhi & Hhi').
    rewrite <- Hqs in Hmin, Hmax, Hlo, Hlo', Hhi, Hhi'.
    unfold qs in Hmin, Hmax. rewrite <- (fin_prices _ Hpf) in Hmin, Hmax.
    eexists _, lo, hi. split; [reflexivity|]. cbn [base min max avg cheaper].
    split; [reflexivity|]. cbv zeta.
    rewrite Hmin, Hmax.
    split; [auto|]. split; [auto|]. split; [reflexivity|]. split.
    + eexists. split; [reflexivity|].
      apply (cheaper_ranking c product Hfin).
    + unfold slice0. rewrite length_firstn. lia.
  - intros q. split; [apply round2_rounded | reflexivity].
  - eexists. split; [vm_compute; reflexivity|].
    vm_compute. repeat split; reflexivity.
Qed.

Lemma getPriceComparison_spec_witness :
  exists product r,
    productById sample_cache !! "S3" = Some product /\
    getPriceComparison sample_cache (Fin 500) "S3" = Ok (Some r) /\
    base r = product /\ (length (cheaper r) <= 5)%nat.
Proof.
  assert (Hl : exists b, productById sample_cache !! "S3" = Some b)
    by (eexists; vm_compute; reflexivity).
  destruct Hl as (b & Hb). exists b.
  destruct (proj1 (proj2 (getPriceComparison_spec sample_cache (Fin 500) "S3"))
              b 500%Z (snapshot_consistent _ _ _)
              (fun p Hp => proj1 (sample_catalog_numeric p Hp)) eq_refl Hb)
    as (r & lo & hi & H1 & H2 & _ & _ & _ & _ & H3).
  exists r. auto.
Defined.

(* ================================================================== *)
(** * Ranking by a score *)
(* ================================================================== *)

Lemma insert_sorted_map {A B : Type} (f : A -> B) (cmp : B -> B -> number)
    (x : A) (l : list A) :
  insert_sorted cmp (f x) (map f l)
  = map f (insert_sorted (fun a b => cmp (f a) (f b)) x l).
Proof.
  induction l as [|y l IH]; cbn [insert_sorted map]; [reflexivity|].
  destruct (num_gt (cmp (f x) (f y)) (Fin 0)); [|reflexivity].
  cbn [map]. now rewrite IH.
Qed.

Lemma js_sort_map {A B : Type} (f : A -> B) (cmp : B -> B -> number)
    (l : list A) :
  js_sort cmp (map f l) = map f (js_sort (fun a b => cmp (f a) (f b)) l).
Proof.
  induction l as [|x l IH]; [reflexivity|].
  cbn [js_sort fold_right map]. fold (js_sort cmp (map f l)).
  rewrite IH. apply insert_sorted_map.
Qed.

Lemma filter_map_comm {A B : Type} (f : A -> B) (p : B -> bool) (l : list A) :
  List.filter p (map f l) = map f (List.filter (fun a => p (f a)) l).
Proof.
  induction l as [|x l IH]; simpl; [reflexivity|].
  destruct (p (f x)); simpl; now rewrite IH.
Qed.

(** Pairing every element with its score, sorting the pairs by
    [(a, b) => b.score - a.score] and dropping the scores again is sorting
    the elements by their score. *)
Lemma rank_undecorate {A : Type} (score : A -> number) (l : list A) :
  map fst (js_sort by_score_desc (map (fun p => (p, score p)) l))
  = js_sort (fun a b => num_sub (score b) (score a)) l.
Proof.
  rewrite js_sort_map, map_map. simpl. apply map_id.
Qed.

Lemma by_score_key {A : Type} (score : A -> number) (x y : A) :
  fin_grid (score x) -> fin_grid (score y) ->
  num_gt (num_sub (score y) (score x)) (Fin 0)
  = Qlt_bool (the_Q (score x)) (the_Q (score y)).
Proof.
  destruct (score x), (score y); try contradiction. apply num_gt_sub.
Qed.

Lemma js_sort_ranking {A : Type} (score : A -> number) (l : list A) :
  (forall p, In p l -> fin_grid (score p)) ->
  ranking (fun p => the_Q (score p)) l
    (js_sort (fun a b => num_sub (score b) (score a)) l).
Proof.
  intros Hfin.
  assert (HP : Forall (fun p => fin_grid (score p)) l)
    by (apply List.Forall_forall; exact Hfin).
  split; [apply js_sort_perm|]. split.
  - apply (js_sort_sorted _ (fun p => the_Q (score p))
             (fun p => fin_grid (score p)) (by_score_key score) _ HP).
  - intros k.
    apply (js_sort_stable _ (fun p => the_Q (score p))
             (fun p => fin_grid (score p)) (by_score_key score) _ k HP).
Qed.

(** A ranking by a key is a ranking by any key that agrees with it on the
    elements ranked. *)
Lemma ranking_ext {A : Type} (key key' : A -> Q) (l ranked : list A) :
  (forall p, In p l -> (key p == key' p)%Q) ->
  ranking key l ranked -> ranking key' l ranked.
Proof.
  intros Heq (Hperm & Hs & Hst).
  assert (Heq' : forall p, In p ranked -> (key p == key' p)%Q).
  { intros p Hp. apply Heq. eapply Permutation_in; eassumption. }
  assert (Hb : forall k p, (key p == key' p)%Q ->
                           Qeq_bool (key' p) k = Qeq_bool (key p) k).
  { intros k p E. destruct (Qeq_bool (key p) k) eqn:E1.
    - apply Qeq_bool_iff in E1. apply Qeq_bool_iff. lra.
    - destruct (Qeq_bool (key' p) k) eqn:E2; [|reflexivity].
      apply Qeq_bool_iff in E2. apply Qeq_bool_neq in E1. exfalso. apply E1. lra. }
  split; [exact Hperm|]. split.
  - eapply StronglySorted_impl; [|exact Hs].
    intros a b Ha Hb' H. simpl in H.
    rewrite <- (Heq' a Ha), <- (Heq' b Hb'). exact H.
  - intros k.
    rewrite (filter_ext_in (fun p => Qeq_bool (key' p) k)
               (fun p => Qeq_bool (key p) k) ranked)
      by (intros p Hp; apply Hb, Heq', Hp).
    rewrite (filter_ext_in (fun p => Qeq_bool (key' p) k)
               (fun p => Qeq_bool (key p) k) l)
      by (intros p Hp; apply Hb, Heq, Hp).
    apply Hst.
Qed.

(* ================================================================== *)
(** * Recommendations for a product *)
(* ================================================================== *)

Lemma Qmin2_spec (a b : Q) :
  (Qmin2 a b <= a)%Q /\ (Qmin2 a b <= b)%Q /\ (Qmin2 a b = a \/ Qmin2 a b = b).
Proof.
  unfold Qmin2. destruct (Qle_bool a b) eqn:E.
  - apply Qle_bool_iff in E. repeat split; [lra | lra | now left].
  - assert (b <= a)%Q.
    { destruct (Qlt_le_dec b a); [lra|]. apply Qle_bool_iff in q. congruence. }
    repeat split; [lra | lra | now right].
Qed.

Lemma Qmax2_spec (a b : Q) :
  (a <= Qmax2 a b)%Q /\ (b <= Qmax2 a b)%Q /\ (Qmax2 a b = a \/ Qmax2 a b = b).
Proof.
  unfold Qmax2. destruct (Qle_bool a b) eqn:E.
  - apply Qle_bool_iff in E. repeat split; [lra | lra | now right].
  - assert (b <= a)%Q.
    { destruct (Qlt_le_dec b a); [lra|]. apply Qle_bool_iff in q. congruence. }
    repeat split; [lra | lra | now left].
Qed.

Lemma Math_min_pair (x y : number) : Math_min [x; y] = min2 x y.
Proof. unfold Math_min. cbn [fold_left]. now destruct x. Qed.

Lemma Math_max_pair (x y : number) : Math_max [x; y] = max2 x y.
Proof. unfold Math_max. cbn [fold_left]. now destruct x. Qed.

Lemma num_or_twice (r : number) :
  r <> NaN -> num_mul (num_or r (Fin 0)) (Fin 2) = num_mul r (Fin 2).
Proof.
  intros Hr. destruct r as [| | |q]; try reflexivity; [congruence|].
  unfold num_or, truthy_num. destruct (Qeq_bool q 0) eqn:E; [|reflexivity].
  cbn [negb num_mul]. apply Qeq_bool_iff in E. unfold Qeq in E.
  destruct q as [n d]. cbn [Qnum Qden] in E.
  assert (n = 0%Z) by lia. subst n. reflexivity.
Qed.

(** Unless the rating is [NaN], which the code scores as 0, the score is the
    one of the specification. *)
Lemma scoreRecommendation_spec (baseProduct candidate : Product) :
  rating candidate <> NaN ->
  scoreRecommendation baseProduct candidate = score_spec baseProduct candidate.
Proof.
  intros Hr. unfold scoreRecommendation, score_spec.
  now rewrite Math_min_pair, Math_max_pair, (num_or_twice _ Hr).
Qed.

(** The claim of the specification does not hold as it is worded.  An empty
    identifier is read as no identifier, also when a product carries it: the
    answer then is the catalog ranked by rating, the product itself and the
    products of other categories included.  A rating that is not a number
    is scored as 0, and a price that is not a number gives a score that is
    not one.  And the score is the one the language computes: with a base
    price of 3, a candidate A priced 2 and rated 0 and a candidate B priced
    9 and rated 0.33333333333333337, the score of B is the greater one in
    exact arithmetic, but both are computed as 0.6666666666666667 and A,
    first in the catalog, stays first. *)
Lemma getRecommendations_not_the_exact_score :
  (exists b T,
     productById (snapshot anonymous_rows [] []) !! "" = Some b /\
     products (snapshot anonymous_rows [] []) = [b; T] /\
     category T <> category b /\
     getRecommendations (snapshot anonymous_rows [] []) (Some "") None
       = [T; b]) /\
  (exists b A N,
     productById (snapshot unrated_rows [] []) !! "B0" = Some b /\
     other_peers (snapshot unrated_rows [] []) "B0" b = [A; N] /\
     rating A = NaN /\ scoreRecommendation b A = Fin 2 /\
     score_spec b A = NaN /\
     price N = NaN /\ scoreRecommendation b N = NaN) /\
  (exists b A B,
     productById (snapshot rounding_rows [] []) !! "B0" = Some b /\
     other_peers (snapshot rounding_rows [] []) "B0" b = [A; B] /\
     (exact_score b A < exact_score b B)%Q /\
     scoreRecommendation b A = scoreRecommendation b B /\
     getRecommendations (snapshot rounding_rows [] []) (Some "B0") None
       = [A; B]).
Proof.
  split; [|split].
  - eexists _, _. split; [vm_compute; reflexivity|].
    split; [vm_compute; reflexivity|]. split; [discriminate|].
    vm_compute. reflexivity.
  - eexists _, _, _. split; [vm_compute; reflexivity|].
    split; [vm_compute; reflexivity|].
    repeat split; vm_compute; reflexivity.
  - eexists _, _, _. split; [vm_compute; reflexivity|].
    split; [vm_compute; reflexivity|].
    split; [vm_compute; reflexivity|].
    split; vm_compute; reflexivity.
Qed.

(** C5, amended.  For a non-empty identifier that resolves to a product,
    when every other product of its category has a rating that is a number
    and a finite score, the answer is the first six entries of a ranking of
    those products: the ranking is in descending order of the score
    rating × 2 + (1 − min(|Δprice| / max(base.price, 1), 1)) + (1 if in
    stock, else 0) as the language computes it, every operation rounded,
    products of equal score in catalog order.  For the laptop of price 100
    both candidates score 10 and A comes before B. *)
Theorem getRecommendations_for_product :
  (forall (c : Cache) (productId : string) (query : option string)
          (baseProduct : Product),
     productId <> "" ->
     productById c !! productId = Some baseProduct ->
     (forall p, In p (other_peers c productId baseProduct) ->
                rating p <> NaN /\
                isFinite (score_spec baseProduct p) = true) ->
     exists ranked,
       getRecommendations c (Some productId) query = firstn 6 ranked /\
       (length (getRecommendations c (Some productId) query) <= 6)%nat /\
       ranking (fun p => the_Q (score_spec baseProduct p))
         (other_peers c productId baseProduct) ranked /\
       (forall p, rating p <> NaN ->
                  scoreRecommendation baseProduct p = score_spec baseProduct p)) /\
  (forall query,
     exists b A B,
       productById sample_cache !! "L0" = Some b /\
       price b = Fin 100 /\ rating b = Fin 4 /\ category b = "laptop" /\
       other_peers sample_cache "L0" b = [A; B] /\
       (price A = Fin 100 /\ stock A = Fin 5 /\ rating A = Fin 4) /\
       (price B = Fin 300 /\ stock B = Fin 0 /\ rating B = Fin 5) /\
       scoreRecommendation b A = Fin 10 /\ scoreRecommendation b B = Fin 10 /\
       score_spec b A = Fin 10 /\ score_spec b B = Fin 10 /\
       getRecommendations sample_cache (Some "L0") query = [A; B]).
Proof.
  split.
  - intros c productId query baseProduct Hne Hlook Hnum.
    unfold getRecommendations. cbn [truthy_arg].
    assert (Ht : truthy_str productId = true)
      by (destruct productId; [congruence | reflexivity]).
    rewrite Ht, Hlook. unfold slice0. fold (other_peers c productId baseProduct).
    rewrite <- firstn_map, rank_undecorate.
    eexists. split; [reflexivity|]. split; [rewrite length_firstn; lia|].
    split; [|intros p; apply scoreRecommendation_spec].
    apply (ranking_ext (fun p => the_Q (scoreRecommendation baseProduct p))).
    + intros p Hp. destruct (Hnum p Hp) as [Hr _].
      now rewrite (scoreRecommendation_spec baseProduct p Hr).
    + apply js_sort_ranking. intros p Hp. destruct (Hnum p Hp) as [Hr Hs].
      rewrite (scoreRecommendation_spec baseProduct p Hr).
      now apply num_add_finite_grid.
  - intros query. eexists _, _, _.
    split; [vm_compute; reflexivity|].
    split; [reflexivity|]. split; [reflexivity|]. split; [reflexivity|].
    split; [vm_compute; reflexivity|].
    split; [repeat split; reflexivity|]. split; [repeat split; reflexivity|].
    split; [vm_compute; reflexivity|]. split; [vm_compute; reflexivity|].
    split; [vm_compute; reflexivity|]. split; [vm_compute; reflexivity|].
    vm_compute. reflexivity.
Qed.

Lemma sample_laptop_scores (b p : Product) :
  productById sample_cache !! "L0" = Some b ->
  In p (other_peers sample_cache "L0" b) ->
  rating p <> NaN /\ isFinite (score_spec b p) = true.
Proof.
  intros Hb. vm_compute in Hb. injection Hb as <-. intros Hp.
  vm_compute in Hp.
  repeat (destruct Hp as [<-|Hp];
          [split; [discriminate | vm_compute; reflexivity]|]).
  destruct Hp.
Qed.

Lemma getRecommendations_for_product_witness :
  exists baseProduct ranked,
    productById sample_cache !! "L0" = Some baseProduct /\
    getRecommendations sample_cache (Some "L0") None = firstn 6 ranked /\
    ranking (fun p => the_Q (score_spec baseProduct p))
      (other_peers sample_cache "L0" baseProduct) ranked.
Proof.
  assert (Hl : exists b, productById sample_cache !! "L0" = Some b)
    by (eexists; vm_compute; reflexivity).
  destruct Hl as (b & Hb). exists b.
  destruct (proj1 getRecommendations_for_product sample_cache "L0" None b
              ltac:(discriminate) Hb
              (fun p => sample_laptop_scores b p Hb))
    as (ranked & H1 & _ & H2 & _).
  exists ranked. auto.
Defined.

(* ================================================================== *)
(** * Product search *)
(* ================================================================== *)

Lemma append_cons (c : ascii) (s t : string) :
  String c s ++ t = String c (s ++ t).
Proof. reflexivity. Qed.

Lemma append_nil (t : string) : "" ++ t = t.
Proof. reflexivity. Qed.

Lemma prefix_app (needle hay : string) :
  String.prefix needle hay = true <-> exists post, hay = needle ++ post.
Proof.
  revert hay. induction needle as [|a n IH]; intros hay.
  - split; [intros _; now exists hay | intros _; destruct hay; reflexivity].
  - destruct hay as [|b h]; cbn [String.prefix];
      [split; [discriminate | intros (? & ?); discriminate]|].
    destruct (ascii_dec a b) as [->|Hne].
    + rewrite IH. split; intros (post & H); exists post;
        rewrite append_cons in *; congruence.
    + split; [discriminate|].
      intros (post & H). rewrite append_cons in H. congruence.
Qed.

Lemma includes_appears (hay needle : string) :
  includes hay needle = true <-> appears needle hay.
Proof.
  unfold appears. induction hay as [|b h IH]; cbn [includes].
  - rewrite orb_false_r, prefix_app. split.
    + intros (post & H). now exists "", post.
    + intros ([|? ?] & post & H); [now exists post | discriminate].
  - rewrite orb_true_iff, prefix_app, IH. split.
    + intros [(post & H)|(pre & post & H)].
      * now exists "", post.
      * exists (String b pre), post. rewrite append_cons. now rewrite H.
    + intros ([|a pre] & post & H).
      * left. now exists post.
      * right. exists pre, post. rewrite append_cons in H. congruence.
Qed.

Lemma getTextScore_fold (hay : string) (tokens : list string) (acc : Z) :
  fold_left
    (fun score token => if includes hay token then (score + 2)%Z else score)
    tokens acc
  = (acc + 2 * Z.of_nat (length (List.filter (fun t => includes hay t) tokens)))%Z.
Proof.
  revert acc. induction tokens as [|t ts IH]; intros acc; simpl; [lia|].
  rewrite IH. destruct (includes hay t); simpl length; lia.
Qed.

Lemma getTextScore_spec (product : Product) (tokens : list string) :
  getTextScore product tokens = text_score_spec product tokens.
Proof.
  unfold getTextScore, text_score_spec. fold (haystack product).
  now rewrite getTextScore_fold.
Qed.

Lemma num_gt_of_Z (z : Z) : num_gt (num_of_Z z) (Fin 0) = (0 <? z)%Z.
Proof.
  unfold num_gt, num_of_Z. cbn [num_lt].
  destruct (0 <? z)%Z eqn:E.
  - apply Z.ltb_lt in E. apply Qlt_bool_iff.
    change 0%Q with (inject_Z 0). now rewrite <- Zlt_Qlt.
  - apply Z.ltb_ge in E. apply Qlt_bool_false.
    change 0%Q with (inject_Z 0). now rewrite <- Zle_Qle.
Qed.

(** The step of [getProducts] for a query: the products that score above
    zero, ranked by their score. *)
Lemma query_step (q : string) (results : list Product) :
  ranking (fun p => inject_Z (text_score_spec p (tokenize q)))
    (List.filter (fun p => (0 <? text_score_spec p (tokenize q))%Z) results)
    (map fst
       (js_sort by_score_desc
          (List.filter (fun item => num_gt (snd item) (Fin 0))
             (map (fun product =>
                     (product, num_of_Z (getTextScore product (tokenize q))))
                results)))).
Proof.
  rewrite filter_map_comm, rank_undecorate. cbn [snd].
  rewrite (filter_ext (fun a => num_gt (num_of_Z (getTextScore a (tokenize q))) (Fin 0))
             (fun p => (0 <? text_score_spec p (tokenize q))%Z))
    by (intros p; rewrite num_gt_of_Z, getTextScore_spec; reflexivity).
  apply (ranking_ext
           (fun p => the_Q (num_of_Z (getTextScore p (tokenize q))))).
  - intros p _. cbn [the_Q num_of_Z]. now rewrite getTextScore_spec.
  - apply js_sort_ranking. intros p _. apply num_of_Z_grid.
Qed.

Lemma all_chars_app (p : ascii -> bool) (a b : string) :
  all_chars p (a ++ b) = all_chars p a && all_chars p b.
Proof.
  induction a as [|x a IH]; [reflexivity|].
  rewrite append_cons. cbn [all_chars]. now rewrite IH, andb_assoc.
Qed.

Lemma all_chars_impl (p q : ascii -> bool) (s : string) :
  (forall c, p c = true -> q c = true) ->
  all_chars p s = true -> all_chars q s = true.
Proof.
  intros Hpq. induction s as [|c s IH]; [reflexivity|]. cbn [all_chars].
  intros H. apply andb_true_iff in H as [Hc Hs].
  now rewrite (Hpq c Hc), IH.
Qed.

Lemma split_ws_from_chars (p : ascii -> bool) (s cur : string) (in_ws : bool) :
  all_chars p cur = true ->
  all_chars (fun c => is_space c || p c) s = true ->
  Forall (fun t => all_chars p t = true) (split_ws_from cur in_ws s).
Proof.
  revert cur in_ws. induction s as [|c s IH]; intros cur in_ws Hcur Hs.
  - repeat constructor. exact Hcur.
  - cbn [all_chars] in Hs. apply andb_true_iff in Hs as [Hc Hs].
    cbn [split_ws_from]. destruct (is_space c) eqn:E.
    + destruct in_ws; [now apply IH|].
      constructor; [exact Hcur | now apply IH].
    + apply IH; [|exact Hs].
      rewrite all_chars_app, Hcur. cbn [all_chars].
      simpl in Hc. now rewrite Hc.
Qed.

(** A token is not empty, is made of the characters [a-z] and [0-9], and is
    not a stop word. *)
Lemma tokenize_tokens (s t : string) :
  In t (tokenize s) ->
  t <> "" /\ all_chars is_alnum t = true /\ mem_str t STOPWORDS = false.
Proof.
  unfold tokenize. intros H. apply filter_In in H as [Hin Hf].
  apply andb_true_iff in Hf as [Hne Hstop].
  split; [intros ->; discriminate|]. split; [|now apply negb_true_iff].
  assert (HF : Forall (fun t => all_chars is_alnum t = true)
                 (split_ws (normalizeText s))).
  { apply split_ws_from_chars; [reflexivity|].
    apply (all_chars_impl (fun c => is_alnum c || is_space c));
      [|apply normalizeText_class].
    intros c Hc. now rewrite orb_comm. }
  rewrite List.Forall_forall in HF. now apply HF.
Qed.

Lemma prefix_before_sep (t a b post : string) (c : ascii) :
  all_chars (fun x => negb (Ascii.eqb x c)) t = true ->
  t ++ post = a ++ String c b ->
  exists post', a = t ++ post'.
Proof.
  revert a. induction t as [|y t IH]; intros a Ht H.
  - now exists a.
  - cbn [all_chars] in Ht. apply andb_true_iff in Ht as [Hy Ht].
    rewrite append_cons in H. destruct a as [|x a].
    + rewrite append_nil in H. injection H as -> _.
      rewrite Ascii.eqb_refl in Hy. discriminate.
    + rewrite append_cons in H. injection H as -> H.
      destruct (IH a Ht H) as (post' & ->). now exists post'.
Qed.

Lemma append_assoc (a b c : string) : (a ++ b) ++ c = a ++ (b ++ c).
Proof.
  induction a as [|x a IH]; [reflexivity|].
  now rewrite !append_cons, IH.
Qed.

(** A text without the separator occurs in two texts joined by it exactly
    when it occurs in one of them. *)
Lemma appears_sep (t a b : string) (c : ascii) :
  t <> "" ->
  all_chars (fun x => negb (Ascii.eqb x c)) t = true ->
  appears t (a ++ String c b) <-> (appears t a \/ appears t b).
Proof.
  intros Hne Ht. unfold appears. split.
  - intros (pre & post & H). revert pre H.
    induction a as [|x a IH]; intros pre H.
    + rewrite append_nil in H. destruct pre as [|y pre].
      * rewrite append_nil in H. destruct t as [|y t]; [congruence|].
        rewrite append_cons in H. injection H as <- _.
        cbn [all_chars] in Ht. rewrite Ascii.eqb_refl in Ht. discriminate.
      * rewrite append_cons in H. injection H as _ ->. right. eauto.
    + rewrite append_cons in H. destruct pre as [|y pre].
      * rewrite append_nil in H. left. exists "".
        destruct (prefix_before_sep t (String x a) b post c Ht) as (post' & E).
        { now rewrite append_cons. }
        exists post'. now rewrite append_nil.
      * rewrite append_cons in H. injection H as <- H.
        destruct (IH pre H) as [(pre' & post' & ->)|Hb]; [|now right].
        left. exists (String x pre'), post'. now rewrite append_cons.
  - intros [(pre & post & ->)|(pre & post & ->)].
    + exists pre, (post ++ String c b). now rewrite !append_assoc.
    + exists (a ++ String c pre), post. now rewrite !append_assoc, append_cons.
Qed.

Lemma includes_sep (t a b : string) (c : ascii) :
  t <> "" ->
  all_chars (fun x => negb (Ascii.eqb x c)) t = true ->
  includes (a ++ String c b) t = includes a t || includes b t.
Proof.
  intros Hne Ht. apply eq_true_iff_eq.
  rewrite orb_true_iff, !includes_appears. now apply appears_sep.
Qed.

Lemma map_string_app (f : ascii -> ascii) (a b : string) :
  map_string f (a ++ b) = map_string f a ++ map_string f b.
Proof.
  induction a as [|x a IH]; [reflexivity|].
  rewrite append_cons. cbn [map_string]. now rewrite IH, append_cons.
Qed.

Lemma alnum_not_space (t : string) :
  all_chars is_alnum t = true ->
  all_chars (fun x => negb (Ascii.eqb x " ")) t = true.
Proof.
  induction t as [|x t IH]; [reflexivity|]. cbn [all_chars].
  intros H. apply andb_true_iff in H as [Hx Ht]. rewrite IH by exact Ht.
  destruct (Ascii.eqb_spec x " ") as [->|_]; [discriminate | reflexivity].
Qed.

(** A query token occurs in the text that is searched exactly when it
    occurs in the name, the brand, the category or the description, each in
    lower case: the spaces between the fields match no token. *)
Lemma haystack_fields (p : Product) (q t : string) :
  In t (tokenize q) ->
  includes (haystack p) t =
  includes (toLowerCase (name p)) t || includes (toLowerCase (brand p)) t
  || includes (toLowerCase (category p)) t
  || includes (toLowerCase (description p)) t.
Proof.
  intros H. destruct (tokenize_tokens q t H) as (Hne & Hal & _).
  pose proof (alnum_not_space t Hal) as Hsp.
  unfold haystack, toLowerCase. rewrite !map_string_app.
  change (map_string lower_char " ") with " ".
  change " " with (String " " "") at 1 2 3. rewrite !append_cons, !append_nil.
  rewrite !includes_sep by assumption. now rewrite !orb_assoc.
Qed.

(** C4.  The filters are applied in the order category, query, least price,
    greatest price, stock; a filter that is absent (or, for the category
    and the query, empty) leaves the list as it is.  The query step keeps
    the products that score above zero, the score being two points for
    every token of the query that occurs in the lower-case text of name,
    brand, category and description (joined by single spaces, which match
    no token), and ranks them in descending order of score, products of
    equal score in the order they had; the price bounds are inclusive and
    the stock filter keeps the products in stock. *)
Theorem getProducts_pipeline (c : Cache) (filters : Filters.t) :
  (exists byCategory ranked aboveMin belowMax,
     byCategory =
       match truthy_arg (Filters.category filters) with
       | Some cat =>
           List.filter (fun p => String.eqb (category p) cat) (products c)
       | None => products c
       end /\
     match truthy_arg (Filters.query filters) with
     | Some q =>
         ranking (fun p => inject_Z (text_score_spec p (tokenize q)))
           (List.filter (fun p => (0 <? text_score_spec p (tokenize q))%Z)
              byCategory)
           ranked
     | None => ranked = byCategory
     end /\
     aboveMin =
       match Filters.minPrice filters with
       | Some lo => List.filter (fun p => num_le lo (price p)) ranked
       | None => ranked
       end /\
     belowMax =
       match Filters.maxPrice filters with
       | Some hi => List.filter (fun p => num_le (price p) hi) aboveMin
       | None => aboveMin
       end /\
     getProducts c filters =
       if Filters.inStockOnly filters
       then List.filter (fun p => num_lt (Fin 0) (stock p)) belowMax
       else belowMax) /\
  (forall (p : Product) (tokens : list string),
     getTextScore p tokens = text_score_spec p tokens /\
     forall t, includes (haystack p) t = true <-> appears t (haystack p)) /\
  (forall (p : Product) (q t : string),
     In t (tokenize q) ->
     includes (haystack p) t =
     includes (toLowerCase (name p)) t || includes (toLowerCase (brand p)) t
     || includes (toLowerCase (category p)) t
     || includes (toLowerCase (description p)) t).
Proof.
  split; [|split; [|apply haystack_fields]].
  - unfold getProducts.
    set (byCategory :=
           match Filters.category filters with
           | Some cat =>
               if truthy_str cat
               then List.filter (fun product => String.eqb (category product) cat)
                      (products c)
               else products c
           | None => products c
           end).
    set (ranked :=
           match Filters.query filters with
           | Some q => if truthy_str q then _ else byCategory
           | None => byCategory
           end).
    exists byCategory, ranked. eexists _, _.
    split; [|split; [|split; [reflexivity | split; [reflexivity|]]]].
    + subst byCategory. unfold truthy_arg.
      destruct (Filters.category filters) as [cat|]; [|reflexivity].
      destruct (truthy_str cat); reflexivity.
    + subst ranked. unfold truthy_arg.
      destruct (Filters.query filters) as [q|]; [|reflexivity].
      destruct (truthy_str q); [|reflexivity].
      apply query_step.
    + reflexivity.
  - intros p tokens. split; [apply getTextScore_spec|].
    intros t. apply includes_appears.
Qed.

Lemma getProducts_pipeline_witness :
  In "speaker" (tokenize "Loud speaker!") /\
  includes (haystack sample_speaker) "speaker" =
  includes (toLowerCase (name sample_speaker)) "speaker"
  || includes (toLowerCase (brand sample_speaker)) "speaker"
  || includes (toLowerCase (category sample_speaker)) "speaker"
  || includes (toLowerCase (description sample_speaker)) "speaker".
Proof.
  assert (H : In "speaker" (tokenize "Loud speaker!"))
    by (vm_compute; auto).
  split; [exact H|].
  apply (proj2 (proj2 (getProducts_pipeline sample_cache
                         (Filters.mk None (Some "Loud speaker!") None None true)))
           sample_speaker "Loud speaker!" "speaker" H).
Defined.

(* ================================================================== *)
(** * The cache: [load] and [ensureFresh] *)
(* ================================================================== *)

(** Case analysis on the next event of a run. *)
Ltac next_event evs :=
  destruct evs as [|[?|?|[?|]|[?|]|[?|]] evs];
  try reflexivity; try discriminate;
  try (destruct evs; [reflexivity | discriminate || reflexivity]).

(** The runs of [load]: the three sources are read in turn, a source that
    cannot be read ends the run with the store as it was; after the third
    the snapshot is assigned, then the two timestamps. *)
Lemma run_load (s : Store) (evs : list event) :
  run (load s) evs =
  match evs with
  | [EProducts None] => Some (Throw ReadError, s)
  | [EProducts (Some _); EReviews None] => Some (Throw ReadError, s)
  | [EProducts (Some _); EReviews (Some _); EPolicies None] =>
      Some (Throw ReadError, s)
  | [EProducts (Some prows); EReviews (Some rrows); EPolicies (Some qrows);
     ENow t; EStat m] =>
      Some (Ok tt, mkStore (Some (snapshot prows rrows qrows)) t (max_mtime m))
  | _ => None
  end.
Proof.
  do 5 (next_event evs).
Qed.

Lemma run_ensureFresh (s : Store) (evs : list event) :
  run (ensureFresh s) evs =
  match evs with
  | ENow now :: evs1 =>
      if negb (has_cache s) || (now - lastLoaded s >? 30000)%Z then
        match evs1 with
        | EStat m :: evs2 =>
            if negb (has_cache s) || num_gt (max_mtime m) (lastModified s)
            then run (load s) evs2
            else match evs2 with [] => Some (Ok tt, s) | _ => None end
        | _ => None
        end
      else match evs1 with [] => Some (Ok tt, s) | _ => None end
  | _ => None
  end.
Proof.
  destruct evs as [|[now| | | |] evs1]; try reflexivity.
  unfold ensureFresh, bind, Date_now, get_store. cbn [io_bind run].
  destruct (negb (has_cache s) || (now - lastLoaded s >? 30000)%Z);
    [|destruct evs1; reflexivity].
  unfold getLastModified. cbn [io_bind run].
  destruct evs1 as [|[|m| | |] evs2]; try reflexivity.
  fold (max_mtime m).
  destruct (negb (has_cache s) || num_gt (max_mtime m) (lastModified s));
    [reflexivity | destruct evs2; reflexivity].
Qed.

(** A run of [ensureFresh] that returns leaves a snapshot in the store and
    has begun at most one reload. *)
Lemma ensureFresh_ok (s s1 : Store) (evs : list event) :
  run (ensureFresh s) evs = Some (Ok tt, s1) ->
  has_cache s1 = true /\ (reloads evs <= 1)%nat.
Proof.
  rewrite run_ensureFresh.
  destruct evs as [|[now| | | |] evs1]; try discriminate.
  assert (Hload : forall evs2 pre,
            reloads pre = 0%nat ->
            run (load s) evs2 = Some (Ok tt, s1) ->
            has_cache s1 = true /\ (reloads (pre ++ evs2)%list <= 1)%nat).
  { intros evs2 pre Hpre. rewrite run_load. unfold reloads in *.
    rewrite List.filter_app, length_app, Hpre.
    do 5 (next_event evs2). destruct evs2; [|discriminate].
    intros [= <-]. split; [reflexivity | cbn; lia]. }
  destruct (has_cache s) eqn:Hc; cbn [negb orb].
  - destruct (now - lastLoaded s >? 30000)%Z.
    + destruct evs1 as [|[|m| | |] evs2]; try discriminate.
      destruct (num_gt (max_mtime m) (lastModified s)).
      * apply (Hload evs2 [ENow now; EStat m]). reflexivity.
      * destruct evs2; [|discriminate]. intros [= <-]. split; [exact Hc | cbn; lia].
    + destruct evs1; [|discriminate]. intros [= <-]. split; [exact Hc | cbn; lia].
  - destruct evs1 as [|[|m| | |] evs2]; try discriminate.
    apply (Hload evs2 [ENow now; EStat m]). reflexivity.
Qed.

(** C6.  After a call of [ensureFresh] that returned, a second call whose
    clock reading is within 30 seconds of [lastLoaded] returns with the
    store as it is after asking for the clock only: it checks no file and
    reloads nothing, so that the two calls reload at most once.  Whenever
    the modification times read are not greater than the recorded one, a
    store that holds a snapshot is left as it is and nothing is reloaded;
    after the 30 seconds such a call returns after one check of the
    modification times. *)
Theorem ensureFresh_idempotent :
  (forall (s s1 : Store) (evs1 : list event) (t2 : Z),
     run (ensureFresh s) evs1 = Some (Ok tt, s1) ->
     (t2 - lastLoaded s1 <= 30000)%Z ->
     run (ensureFresh s1) [ENow t2] = Some (Ok tt, s1) /\
     (forall rest out,
        run (ensureFresh s1) (ENow t2 :: rest) = Some out -> rest = []) /\
     (reloads evs1 + reloads [ENow t2] <= 1)%nat /\
     stats [ENow t2] = 0%nat) /\
  (forall (s : Store) (c : Cache) (evs : list event) (out : result unit * Store),
     cache s = Some c ->
     (forall m, In (EStat m) evs ->
                num_gt (max_mtime m) (lastModified s) = false) ->
     run (ensureFresh s) evs = Some out ->
     out = (Ok tt, s) /\ reloads evs = 0%nat) /\
  (forall (s : Store) (c : Cache) (t : Z) (m : Mtimes),
     cache s = Some c ->
     (30000 < t - lastLoaded s)%Z ->
     num_gt (max_mtime m) (lastModified s) = false ->
     run (ensureFresh s) [ENow t; EStat m] = Some (Ok tt, s)).
Proof.
  split; [|split].
  - intros s s1 evs1 t2 Hrun Hwin.
    destruct (ensureFresh_ok _ _ _ Hrun) as [Hc Hre].
    assert (Hgt : (t2 - lastLoaded s1 >? 30000)%Z = false)
      by (rewrite Z.gtb_ltb; apply Z.ltb_ge; lia).
    split; [|split; [|split; [cbn; lia | reflexivity]]].
    + rewrite run_ensureFresh, Hc, Hgt. reflexivity.
    + intros rest out. rewrite run_ensureFresh, Hc, Hgt. cbn [negb orb].
      destruct rest; [reflexivity | discriminate].
  - intros s c evs out Hc Hm. rewrite run_ensureFresh.
    assert (Hh : has_cache s = true) by (unfold has_cache; now rewrite Hc).
    destruct evs as [|[now| | | |] evs1]; try discriminate.
    rewrite Hh. cbn [negb orb].
    destruct (now - lastLoaded s >? 30000)%Z.
    + destruct evs1 as [|[|m| | |] evs2]; try discriminate.
      rewrite (Hm m) by (right; now left).
      destruct evs2; [|discriminate]. intros [= <-]. split; reflexivity.
    + destruct evs1; [|discriminate]. intros [= <-]. split; reflexivity.
  - intros s c t m Hc Ht Hm. rewrite run_ensureFresh.
    assert (Hh : has_cache s = true) by (unfold has_cache; now rewrite Hc).
    assert (Hgt : (t - lastLoaded s >? 30000)%Z = true)
      by (rewrite Z.gtb_ltb; apply Z.ltb_lt; lia).
    rewrite Hh, Hgt, Hm. reflexivity.
Qed.

Lemma ensureFresh_idempotent_witness :
  run (ensureFresh sample_store) [ENow 20000] = Some (Ok tt, sample_store) /\
  run (ensureFresh sample_store) [ENow 25000] = Some (Ok tt, sample_store).
Proof.
  assert (H1 : run (ensureFresh sample_store) [ENow 20000]
               = Some (Ok tt, sample_store)) by reflexivity.
  split; [exact H1|].
  apply (proj1 ensureFresh_idempotent sample_store sample_store
           [ENow 20000%Z] 25000%Z H1).
  vm_compute. discriminate.
Defined.

(* ================================================================== *)
(** * Numeric fields at load time *)
(* ================================================================== *)

(** [load] on these rows reports no error: it returns with a snapshot in
    which the price, the ratings and the time frame are [NaN] and the stock
    is zero. *)
Lemma load_accepts_non_numeric_fields :
  exists c,
    run (load initial_store) odd_events
      = Some (Ok tt, mkStore (Some c) 1000 (Fin 500)) /\
    map price (products c) = [NaN] /\
    map stock (products c) = [Fin 0] /\
    map rating (products c) = [NaN] /\
    map r_rating (reviews c) = [NaN] /\
    map timeframe (policies c) = [NaN].
Proof.
  eexists. split; [vm_compute; reflexivity|].
  vm_compute. repeat split; reflexivity.
Qed.

(** C1, amended.  Whenever the three sources are read, [load] returns with
    the snapshot built from them and reports no error: each numeric field
    holds [Number] of its text, which is [NaN] for a text such as [abc]
    and zero for an empty text.  The only error [load] reports is a source
    that could not be read, and then the store is as it was. *)
Theorem load_coerces_numeric_fields (s : Store) :
  (forall prows rrows qrows t m,
     let c := snapshot prows rrows qrows in
     run (load s)
       [EProducts (Some prows); EReviews (Some rrows); EPolicies (Some qrows);
        ENow t; EStat m]
     = Some (Ok tt, mkStore (Some c) t (max_mtime m)) /\
     map price (products c) = map (fun row => Number (ProductRow.price row)) prows /\
     map stock (products c) = map (fun row => Number (ProductRow.stock row)) prows /\
     map rating (products c) = map (fun row => Number (ProductRow.rating row)) prows /\
     map r_rating (reviews c) = map (fun row => Number (ReviewRow.rating row)) rrows /\
     map timeframe (policies c)
       = map (fun row => Number (PolicyRow.timeframe row)) qrows) /\
  (forall evs e s',
     run (load s) evs = Some (Throw e, s') ->
     e = ReadError /\ s' = s /\
     exists pre last, evs = (pre ++ [last])%list /\ is_failed_read last) /\
  (Number "abc" = NaN /\ Number "12px" = NaN /\ Number "1,5" = NaN /\
   Number "19.99" = round64 (1999 # 100) /\ Number "" = Fin 0).
Proof.
  split; [|split].
  - intros prows rrows qrows t m c. split; [apply run_load|].
    unfold c, snapshot, parsePolicies. cbn [products reviews policies].
    rewrite !map_map. repeat split; reflexivity.
  - intros evs e s'. rewrite run_load. unfold is_failed_read.
    destruct evs as [|[| |[prows|]| |] evs]; try discriminate.
    + destruct evs as [|[| | |[rrows|]|] evs]; try discriminate.
      * destruct evs as [|[| | | |[qrows|]] evs]; try discriminate.
        -- destruct evs as [|[t| | | |] evs]; try discriminate.
           destruct evs as [|[|m| | |] evs]; try discriminate.
           destruct evs; discriminate.
        -- destruct evs; [|discriminate]. intros [= <- <-].
           repeat split. eexists [_; _], _. split; [reflexivity | auto].
      * destruct evs; [|discriminate]. intros [= <- <-].
        repeat split. eexists [_], _. split; [reflexivity | auto].
    + destruct evs; [|discriminate]. intros [= <- <-].
      repeat split. eexists [], _. split; [reflexivity | auto].
  - vm_compute. repeat split; reflexivity.
Qed.

Lemma load_coerces_numeric_fields_witness :
  run (load sample_store) [EProducts (Some []); EReviews None]
    = Some (Throw ReadError, sample_store) /\
  exists pre last,
    [EProducts (Some []); EReviews None] = (pre ++ [last])%list /\
    is_failed_read last.
Proof.
  assert (H : run (load sample_store) [EProducts (Some []); EReviews None]
              = Some (Throw ReadError, sample_store)) by reflexivity.
  split; [exact H|].
  apply (proj1 (proj2 (load_coerces_numeric_fields sample_store)) _ _ _ H).
Defined.

(* ================================================================== *)
(** * A ranking is unique *)
(* ================================================================== *)

Lemma sorted_stable_unique {A : Type} (key : A -> Q) (r1 r2 : list A) :
  StronglySorted (fun a b => (key b <= key a)%Q) r1 ->
  StronglySorted (fun a b => (key b <= key a)%Q) r2 ->
  Permutation r1 r2 ->
  (forall k, List.filter (fun p => Qeq_bool (key p) k) r1
             = List.filter (fun p => Qeq_bool (key p) k) r2) ->
  r1 = r2.
Proof.
  revert r2. induction r1 as [|x r1 IH]; intros r2 S1 S2 HP HF.
  - apply Permutation_nil in HP. now subst.
  - destruct r2 as [|y r2];
      [symmetry in HP; apply Permutation_nil in HP; discriminate|].
    inversion S1 as [|? ? S1' Hx]; subst. inversion S2 as [|? ? S2' Hy]; subst.
    rewrite List.Forall_forall in Hx, Hy.
    assert (Hxy : (key x == key y)%Q).
    { assert (H1 : In x (y :: r2)) by (eapply Permutation_in; [exact HP | now left]).
      assert (H2 : In y (x :: r1))
        by (eapply Permutation_in; [symmetry; exact HP | now left]).
      destruct H1 as [<-|H1]; [reflexivity|].
      destruct H2 as [<-|H2]; [reflexivity|].
      specialize (Hx y H2). specialize (Hy x H1). simpl in Hx, Hy. lra. }
    assert (E : x = y).
    { specialize (HF (key x)). cbn [List.filter] in HF.
      assert (E1 : Qeq_bool (key x) (key x) = true) by (apply Qeq_bool_iff; reflexivity).
      assert (E2 : Qeq_bool (key y) (key x) = true)
        by (apply Qeq_bool_iff; symmetry; exact Hxy).
      rewrite E1, E2 in HF. congruence. }
    subst y. f_equal. apply IH; auto.
    + eapply Permutation_cons_inv. exact HP.
    + intros k. specialize (HF k). cbn [List.filter] in HF.
      destruct (Qeq_bool (key x) k); congruence.
Qed.

(** Two rankings of the same list by the same key are the same list: a
    stable sort has one result, whatever the algorithm. *)
Lemma ranking_unique {A : Type} (key : A -> Q) (l r1 r2 : list A) :
  ranking key l r1 -> ranking key l r2 -> r1 = r2.
Proof.
  intros (P1 & S1 & F1) (P2 & S2 & F2).
  apply (sorted_stable_unique key); auto.
  - rewrite P1. symmetry. exact P2.
  - intros k. now rewrite F1, F2.
Qed.

(** Every exported query answers from the snapshot that [ensureFresh]
    leaves in the store. *)
Lemma run_query_try {A : Type} (k : Cache -> M A)
    (body : Cache -> Store -> result A) (s : Store) (evs : list event) :
  (forall c s', k c s' = Ret (body c s', s')) ->
  run ((c <- Api.fresh_cache ;; k c) s) evs
  = answer_try body <$> run (ensureFresh s) evs.
Proof.
  intros Hk. unfold Api.fresh_cache, bind.
  set (g := fun out : result Cache * Store =>
              match out with
              | (Ok c, s') => (body c s', s')
              | (Throw e, s') => (Throw e, s')
              end).
  set (f1 := fun out : result unit * Store =>
               match out with
               | (Ok _, s') => the_cache s'
               | (Throw e, s') => Ret (Throw e, s')
               end).
  rewrite (run_io_bind_pure _ _ g).
  2:{ intros [[c|e] s']; [apply Hk | reflexivity]. }
  rewrite (run_io_bind_pure _ f1
             (fun out => match out with
                         | (Ok _, s') =>
                             match cache s' with
                             | Some c => (Ok c, s')
                             | None => (Throw TypeError, s')
                             end
                         | (Throw e, s') => (Throw e, s')
                         end)).
  2:{ intros [[u|e] s']; [|reflexivity]. unfold f1, the_cache.
      destruct (cache s'); reflexivity. }
  destruct (run (ensureFresh s) evs) as [[[u|e] s']|]; simpl; try reflexivity.
  destruct (cache s'); reflexivity.
Qed.

Lemma api_answers (s : Store) (evs : list event) :
  (forall f, run (Api.getProducts f s) evs
             = answer (fun c _ => getProducts c f) <$> run (ensureFresh s) evs) /\
  (forall p q, run (Api.getRecommendations p q s) evs
               = answer (fun c _ => getRecommendations c p q)
                   <$> run (ensureFresh s) evs) /\
  (forall p, run (Api.getReviewSummary p s) evs
             = answer (fun c _ => getReviewSummary c p) <$> run (ensureFresh s) evs) /\
  (forall p, run (Api.getPriceComparison p s) evs
             = answer_try (fun c s' => getPriceComparison c (lastModified s') p)
                 <$> run (ensureFresh s) evs) /\
  (forall p, run (Api.getPolicyForProduct p s) evs
             = answer (fun c _ => getPolicyForProduct c p)
                 <$> run (ensureFresh s) evs) /\
  (forall k, run (Api.getPolicyByCategory k s) evs
             = answer (fun c _ => getPolicyByCategory c k)
                 <$> run (ensureFresh s) evs) /\
  (forall p, run (Api.getProductById p s) evs
             = answer (fun c _ => getProductById c p) <$> run (ensureFresh s) evs).
Proof.
  repeat split; intros;
    first [apply run_query; reflexivity | apply run_query_try; reflexivity].
Qed.

(* ================================================================== *)
(** * Further facts about the text functions *)
(* ================================================================== *)

Lemma mem_str_In (x : string) (xs : list string) :
  mem_str x xs = true <-> In x xs.
Proof.
  unfold mem_str. rewrite existsb_exists. split.
  - intros (y & Hy & E). apply String.eqb_eq in E. now subst.
  - intros H. exists x. split; [exact H | apply String.eqb_refl].
Qed.

Lemma appears_refl (t : string) : appears t t.
Proof.
  exists "", "". rewrite append_nil.
  induction t as [|c t IH]; [reflexivity|]. rewrite append_cons. now f_equal.
Qed.

Lemma append_empty_r (t : string) : t ++ "" = t.
Proof.
  induction t as [|c t IH]; [reflexivity|]. rewrite append_cons. now f_equal.
Qed.

Lemma split_ws_from_appears (s cur : string) (in_ws : bool) :
  Forall (fun t => appears t (cur ++ s)) (split_ws_from cur in_ws s).
Proof.
  revert cur in_ws. induction s as [|c s IH]; intros cur in_ws.
  - repeat constructor. rewrite append_empty_r. apply appears_refl.
  - cbn [split_ws_from]. destruct (is_space c).
    + assert (Hrest : Forall (fun t => appears t (cur ++ String c s))
                        (split_ws_from "" true s)).
      { eapply List.Forall_impl; [|apply (IH "" true)].
        intros t (pre & post & E). rewrite append_nil in E.
        exists (cur ++ String c pre), post.
        rewrite append_assoc, append_cons. now rewrite E. }
      destruct in_ws; [exact Hrest|].
      constructor; [|exact Hrest].
      exists "", (String c s). now rewrite append_nil.
    + eapply List.Forall_impl; [|apply (IH (cur ++ String c "") false)].
      intros t Ht. now rewrite append_assoc, append_cons, append_nil in Ht.
Qed.

(** X1.  Every token is a non-empty run of the characters [a-z] and [0-9]
    that occurs in the normalised text, and is not a stop word. *)
Theorem tokenize_wellformed (s t : string) :
  In t (tokenize s) ->
  t <> "" /\ all_chars is_alnum t = true /\ ~ In t STOPWORDS /\
  appears t (normalizeText s).
Proof.
  intros H. destruct (tokenize_tokens s t H) as (Hne & Hal & Hstop).
  repeat split; try assumption.
  - intros Hin. apply mem_str_In in Hin. congruence.
  - unfold tokenize in H. apply filter_In in H as [H _].
    pose proof (split_ws_from_appears (normalizeText s) "" false) as HF.
    rewrite List.Forall_forall in HF. specialize (HF t H).
    now rewrite append_nil in HF.
Qed.

Lemma tokenize_wellformed_witness :
  In "screen" (tokenize "The SCREEN, is great!") /\
  appears "screen" (normalizeText "The SCREEN, is great!").
Proof.
  assert (H : In "screen" (tokenize "The SCREEN, is great!"))
    by (vm_compute; auto).
  split; [exact H|].
  apply (tokenize_wellformed "The SCREEN, is great!" "screen" H).
Defined.

Lemma lower_char_idem (c : ascii) : lower_char (lower_char c) = lower_char c.
Proof.
  destruct c as [[] [] [] [] [] [] [] []]; vm_compute; reflexivity.
Qed.

Lemma class_char_fixed (c : ascii) :
  is_alnum c || is_space c = true -> lower_char c = c /\ replace_other c = c.
Proof.
  destruct c as [[] [] [] [] [] [] [] []]; vm_compute;
    intros H; try discriminate; split; reflexivity.
Qed.

Lemma replace_lower_idem (c : ascii) :
  replace_other (lower_char (replace_other (lower_char c)))
  = replace_other (lower_char c).
Proof.
  destruct (class_char_fixed _ (replace_other_class (lower_char c))) as [H1 H2].
  now rewrite H1, H2.
Qed.

Lemma map_string_map (f g : ascii -> ascii) (s : string) :
  map_string f (map_string g s) = map_string (fun c => f (g c)) s.
Proof. induction s as [|c s IH]; simpl; [reflexivity | now rewrite IH]. Qed.

Lemma map_string_ext (f g : ascii -> ascii) (s : string) :
  (forall c, f c = g c) -> map_string f s = map_string g s.
Proof.
  intros H. induction s as [|c s IH]; simpl; [reflexivity | now rewrite H, IH].
Qed.

(** X2.  Normalising twice is normalising once, and the tokens of a text
    are those of its normalised form and of its lower-case form: the
    tokenizer sees neither case nor punctuation. *)
Theorem normalizeText_idempotent (s : string) :
  normalizeText (normalizeText s) = normalizeText s /\
  tokenize (normalizeText s) = tokenize s /\
  normalizeText (toLowerCase s) = normalizeText s /\
  tokenize (toLowerCase s) = tokenize s.
Proof.
  assert (H1 : normalizeText (normalizeText s) = normalizeText s).
  { unfold normalizeText, toLowerCase. rewrite !map_string_map.
    apply map_string_ext. intros c. apply replace_lower_idem. }
  assert (H2 : normalizeText (toLowerCase s) = normalizeText s).
  { unfold normalizeText, toLowerCase. rewrite !map_string_map.
    apply map_string_ext. intros c. now rewrite lower_char_idem. }
  unfold tokenize. rewrite H1, H2. repeat split; reflexivity.
Qed.

Lemma lexicon_disjoint (t : string) :
  mem_str t SENTIMENT_positive && mem_str t SENTIMENT_negative = false.
Proof.
  destruct (mem_str t SENTIMENT_positive) eqn:E; [|reflexivity].
  apply mem_str_In in E. cbn [SENTIMENT_positive In] in E.
  repeat (destruct E as [<-|E]; [vm_compute; reflexivity|]). destruct E.
Qed.

Lemma scoreSentiment_fold (tokens : list string) (acc : Z) :
  fold_left
    (fun score token =>
       let score :=
         if mem_str token SENTIMENT_positive then (score + 1)%Z else score in
       if mem_str token SENTIMENT_negative then (score - 1)%Z else score)
    tokens acc
  = (acc + Z.of_nat (count_in SENTIMENT_positive tokens)
     - Z.of_nat (count_in SENTIMENT_negative tokens))%Z.
Proof.
  unfold count_in. revert acc.
  induction tokens as [|t ts IH]; intros acc; cbn [fold_left List.filter].
  - simpl. lia.
  - rewrite IH.
    destruct (mem_str t SENTIMENT_positive), (mem_str t SENTIMENT_negative);
      cbn [length]; lia.
Qed.

Lemma count_in_disjoint (tokens : list string) :
  (count_in SENTIMENT_positive tokens + count_in SENTIMENT_negative tokens
   <= length tokens)%nat.
Proof.
  unfold count_in. induction tokens as [|t ts IH]; [simpl; lia|].
  cbn [List.filter length]. pose proof (lexicon_disjoint t) as H.
  destruct (mem_str t SENTIMENT_positive), (mem_str t SENTIMENT_negative);
    try discriminate; cbn [length]; lia.
Qed.

(** X3.  The sentiment score of a text is the number of its tokens in the
    positive list less the number in the negative list; no word is in both
    lists, so the score lies between minus and plus the number of tokens. *)
Theorem scoreSentiment_counts (text : string) :
  let tokens := tokenize text in
  scoreSentiment text
  = (Z.of_nat (count_in SENTIMENT_positive tokens)
     - Z.of_nat (count_in SENTIMENT_negative tokens))%Z /\
  (- Z.of_nat (length tokens) <= scoreSentiment text <= Z.of_nat (length tokens))%Z.
Proof.
  intros tokens.
  assert (H : scoreSentiment text
              = (Z.of_nat (count_in SENTIMENT_positive tokens)
                 - Z.of_nat (count_in SENTIMENT_negative tokens))%Z).
  { unfold scoreSentiment. fold tokens. rewrite scoreSentiment_fold. lia. }
  split; [exact H|]. rewrite H.
  pose proof (count_in_disjoint tokens). lia.
Qed.

(* ================================================================== *)
(** * Further facts about rounding and the average *)
(* ================================================================== *)

Lemma round2_value (q : Q) :
  (round2 q ==
   if Qlt_bool q 0
   then - (inject_Z (Qfloor (- q * 100 + (1 # 2))) / 100)
   else inject_Z (Qfloor (q * 100 + (1 # 2))) / 100)%Q.
Proof.
  unfold round2. rewrite Qred_correct.
  destruct (Qlt_bool q 0) eqn:E.
  - apply Qlt_bool_iff in E. rewrite (Qabs_neg q) by lra. reflexivity.
  - apply Qlt_bool_false in E. rewrite (Qabs_pos q) by lra. reflexivity.
Qed.

Lemma floor_half_mono (x y : Q) :
  (x <= y)%Q ->
  (inject_Z (Qfloor (x * 100 + (1 # 2))) / 100
   <= inject_Z (Qfloor (y * 100 + (1 # 2))) / 100)%Q.
Proof.
  intros H.
  assert (Hz : (Qfloor (x * 100 + (1 # 2)) <= Qfloor (y * 100 + (1 # 2)))%Z)
    by (apply Qfloor_resp_le; lra).
  rewrite Zle_Qle in Hz.
  set (a := inject_Z (Qfloor (x * 100 + (1 # 2)))) in *.
  set (b := inject_Z (Qfloor (y * 100 + (1 # 2)))) in *.
  unfold Qdiv. apply Qmult_le_compat_r; [exact Hz | discriminate].
Qed.

Lemma floor_half_nonneg (x : Q) :
  (0 <= x)%Q -> (0 <= inject_Z (Qfloor (x * 100 + (1 # 2))) / 100)%Q.
Proof.
  intros H.
  assert (Hz : (Qfloor 0 <= Qfloor (x * 100 + (1 # 2)))%Z)
    by (apply Qfloor_resp_le; lra).
  change (Qfloor 0) with 0%Z in Hz. rewrite Zle_Qle in Hz.
  change (inject_Z 0) with 0%Q in Hz.
  set (a := inject_Z (Qfloor (x * 100 + (1 # 2)))) in *.
  apply Qle_shift_div_l; [reflexivity | lra].
Qed.

(** Rounding to two decimals keeps the order. *)
Lemma round2_mono (q q' : Q) : (q <= q')%Q -> (round2 q <= round2 q')%Q.
Proof.
  intros H. rewrite (round2_value q), (round2_value q').
  destruct (Qlt_bool q 0) eqn:E, (Qlt_bool q' 0) eqn:E'.
  - apply Qlt_bool_iff in E, E'.
    assert (Hm := floor_half_mono (- q') (- q) ltac:(lra)). lra.
  - apply Qlt_bool_iff in E. apply Qlt_bool_false in E'.
    assert (H1 := floor_half_nonneg (- q) ltac:(lra)).
    assert (H2 := floor_half_nonneg q' E'). lra.
  - apply Qlt_bool_false in E. apply Qlt_bool_iff in E'. lra.
  - now apply floor_half_mono.
Qed.

Lemma tally_total (reviews : list Review) (t : Tally) :
  t_total (fold_left tally_review reviews t)
  = fold_left num_add (map (fun r => num_or (r_rating r) (Fin 0)) reviews)
      (t_total t).
Proof.
  revert t. induction reviews as [|r rs IH]; intros t; [reflexivity|].
  cbn [fold_left map]. rewrite IH. f_equal.
  unfold tally_review.
  destruct (num_ge (r_rating r) (Fin 4) || _); [reflexivity|].
  destruct (num_le (r_rating r) (Fin 2) || _); reflexivity.
Qed.

Lemma num_between (x : number) (lo hi : Q) :
  num_le (Fin lo) x = true -> num_le x (Fin hi) = true ->
  exists v, x = Fin v /\ (lo <= v <= hi)%Q.
Proof.
  destruct x as [| | |v]; cbn [num_le]; try discriminate.
  intros H1 H2. apply Qle_bool_iff in H1, H2. eauto.
Qed.

(** A rounded result lies between the bounds of the exact one that are whole
    numbers up to [2^53]. *)
Lemma round64_between (q : Q) (lo hi : Z) :
  (0 <= lo)%Z -> (hi <= 2 ^ 53)%Z ->
  (inject_Z lo <= q <= inject_Z hi)%Q ->
  exists v, round64 q = Fin v /\ (inject_Z lo <= v <= inject_Z hi)%Q.
Proof.
  intros Hlo Hhi [H1 H2].
  assert (Hle : (lo <= hi)%Z) by (rewrite Zle_Qle; lra).
  apply num_between.
  - rewrite <- (round64_Z lo) by lia. now apply round64_mono.
  - rewrite <- (round64_Z hi) by lia. now apply round64_mono.
Qed.

(** The running sum of ratings from 0 to 5 stays between 0 and five times
    their number. *)
Lemma sum_between (xs : list number) (a : Q) (i : Z) :
  Forall (fun x => exists q, x = Fin q /\ (0 <= q <= 5)%Q) xs ->
  (0 <= i)%Z -> (5 * (i + Z.of_nat (length xs)) <= 2 ^ 53)%Z ->
  (0 <= a <= inject_Z (5 * i))%Q ->
  exists v, fold_left num_add xs (Fin a) = Fin v /\
            (0 <= v <= inject_Z (5 * (i + Z.of_nat (length xs))))%Q.
Proof.
  intros H. revert a i. induction H as [|x xs (q & -> & Hq) _ IH]; intros a i Hi Hn Ha.
  - exists a. split; [reflexivity|]. cbn [length]. now rewrite Z.add_0_r.
  - cbn [fold_left num_add]. cbn [length] in Hn. rewrite Nat2Z.inj_succ in Hn.
    destruct (round64_between (a + q) 0 (5 * (i + 1))) as (v & -> & Hv);
      [lia | lia | |].
    { replace (5 * (i + 1))%Z with (5 * i + 5)%Z by lia.
      rewrite inject_Z_plus. change (inject_Z 0) with 0%Q.
      change (inject_Z 5) with 5%Q. lra. }
    change (inject_Z 0) with 0%Q in Hv.
    destruct (IH v (i + 1)%Z ltac:(lia) ltac:(lia) Hv) as (w & -> & Hw).
    exists w. split; [reflexivity|]. cbn [length]. rewrite Nat2Z.inj_succ.
    now replace (i + Z.succ (Z.of_nat (length xs)))%Z
      with (i + 1 + Z.of_nat (length xs))%Z by lia.
Qed.

(** X4.  The average rating of a non-empty sequence of reviews rated from 0
    to 5 is a number from 0 to 5, whatever the rounding of the sum, of the
    division and of the printing with two decimals; the number of reviews
    is reported as it is and at most five themes are returned. *)
Theorem summarizeReviews_average_bounds (reviews : list Review) :
  reviews <> [] ->
  (Z.of_nat (length reviews) <= 2 ^ 50)%Z ->
  (forall r, In r reviews -> exists q, r_rating r = Fin q /\ (0 <= q <= 5)%Q) ->
  let s := summarizeReviews reviews in
  (exists a, average_rating s = Fin a /\ (0 <= a <= 5)%Q) /\
  total_reviews s = length reviews /\
  (length (themes s) <= 5)%nat.
Proof.
  intros Hne Hlen Hr s.
  split; [|split].
  - subst s. destruct reviews as [|r0 rs]; [congruence|].
    unfold summarizeReviews. cbn [average_rating].
    rewrite tally_total. cbn [tally0 t_total].
    set (rv := r0 :: rs) in *.
    assert (HF : Forall (fun x => exists q, x = Fin q /\ (0 <= q <= 5)%Q)
                   (map (fun r => num_or (r_rating r) (Fin 0)) rv)).
    { apply List.Forall_forall. intros x Hx.
      apply in_map_iff in Hx as (r & <- & Hin).
      destruct (Hr r Hin) as (q & -> & Hq).
      unfold num_or, truthy_num. destruct (Qeq_bool q 0) eqn:E; cbn [negb].
      - exists 0%Q. split; [reflexivity | lra].
      - exists q. split; [reflexivity | exact Hq]. }
    destruct (sum_between _ 0 0 HF ltac:(lia)) as (v & -> & Hv).
    { rewrite length_map. lia. }
    { change (inject_Z (5 * 0)) with 0%Q. lra. }
    rewrite length_map, Z.add_0_l in Hv.
    unfold num_of_nat. cbn [num_div].
    set (n := inject_Z (Z.of_nat (length rv))) in *.
    assert (Hn : (0 < n)%Q).
    { subst n rv. cbn [length]. rewrite Nat2Z.inj_succ.
      change 0%Q with (inject_Z 0). rewrite <- Zlt_Qlt. lia. }
    assert (Hz : Qeq_bool n 0 = false).
    { destruct (Qeq_bool n 0) eqn:E; [|reflexivity].
      apply Qeq_bool_iff in E. lra. }
    rewrite Hz.
    assert (H5 : (inject_Z (5 * Z.of_nat (length rv)) == 5 * n)%Q)
      by (rewrite inject_Z_mult; reflexivity).
    rewrite H5 in Hv.
    destruct (round64_between (v / n) 0 5) as (w & -> & Hw); [lia | lia | |].
    { change (inject_Z 0) with 0%Q. change (inject_Z 5) with 5%Q. split.
      - apply Qle_shift_div_l; [exact Hn | lra].
      - apply Qle_shift_div_r; [exact Hn | lra]. }
    change (inject_Z 0) with 0%Q in Hw. change (inject_Z 5) with 5%Q in Hw.
    cbn [toFixed2].
    destruct (round64_between (round2 w) 0 5) as (u & -> & Hu); [lia | lia | |].
    { change (inject_Z 0) with (round2 0). change (inject_Z 5) with (round2 5).
      split; apply round2_mono; lra. }
    exists u. split; [reflexivity | exact Hu].
  - subst s. destruct reviews; [congruence | reflexivity].
  - subst s. destruct reviews as [|r0 rs]; [congruence|].
    unfold summarizeReviews, slice0. cbn [themes].
    rewrite length_map, length_firstn. lia.
Qed.

Lemma summarizeReviews_average_bounds_witness :
  exists a, average_rating (summarizeReviews spec_reviews) = Fin a /\
            (0 <= a <= 5)%Q.
Proof.
  apply (summarizeReviews_average_bounds spec_reviews);
    [discriminate | vm_compute; discriminate|].
  intros r Hr. cbn in Hr.
  destruct Hr as [<-|[<-|[<-|[]]]]; eexists; (split; [reflexivity|]);
    split; discriminate.
Defined.

Lemma index_fold_rev (ps : list Product) (k : string) :
  fold_right (fun p m => <[prod_id p := p]> m) (∅ : gmap string Product) ps !! k
  = List.find (fun p => String.eqb (prod_id p) k) ps.
Proof.
  induction ps as [|p ps IH]; cbn [fold_right List.find].
  - apply lookup_empty.
  - destruct (String.eqb_spec (prod_id p) k) as [<-|Hne].
    + apply lookup_insert_eq.
    + rewrite lookup_insert_ne by exact Hne. exact IH.
Qed.

Lemma index_products_find (ps : list Product) (k : string) :
  index_products ps !! k
  = List.find (fun p => String.eqb (prod_id p) k) (rev ps).
Proof.
  unfold index_products. rewrite <- index_fold_rev. symmetry.
  apply (f_equal (fun m : gmap string Product => m !! k)).
  apply (fold_left_rev_right
           (fun (p : Product) (m : gmap string Product) => <[prod_id p := p]> m)).
Qed.

Lemma find_unique_id (ps : list Product) (p : Product) :
  List.NoDup (map prod_id ps) -> In p ps ->
  List.find (fun x => String.eqb (prod_id x) (prod_id p)) ps = Some p.
Proof.
  induction ps as [|x ps IH]; intros Hnd Hin; [destruct Hin|].
  inversion Hnd as [|? ? Hx Hnd']; subst. cbn [List.find].
  destruct Hin as [->|Hin]; [now rewrite String.eqb_refl|].
  destruct (String.eqb_spec (prod_id x) (prod_id p)) as [E|_]; [|now apply IH].
  exfalso. apply Hx. rewrite E. now apply in_map.
Qed.

(** X5.  In a snapshot built by [load], looking an identifier up gives the
    last product of the catalog that carries it, and nothing when no product
    does; when the identifiers of the catalog are all different, every
    product is found again by its identifier. *)
Theorem getProductById_last_wins (c : Cache) :
  consistent c ->
  (forall k, getProductById c k
             = List.find (fun p => String.eqb (prod_id p) k) (rev (products c))) /\
  (forall k, getProductById c k = None <->
             forall p, In p (products c) -> prod_id p <> k) /\
  (List.NoDup (map prod_id (products c)) ->
   forall p, In p (products c) -> getProductById c (prod_id p) = Some p).
Proof.
  intros [Hidx _]. unfold getProductById. rewrite Hidx.
  split; [intros k; apply index_products_find|].
  split; [intros k; apply index_products_None|].
  intros Hnd p Hp. rewrite index_products_find.
  apply find_unique_id.
  - rewrite map_rev. apply NoDup_rev. exact Hnd.
  - apply in_rev. now rewrite rev_involutive.
Qed.

Lemma getProductById_last_wins_witness :
  consistent sample_cache /\
  getProductById sample_cache "S2"
  = List.find (fun p => String.eqb (prod_id p) "S2") (rev (products sample_cache)).
Proof.
  split; [apply snapshot_consistent|].
  apply (proj1 (getProductById_last_wins sample_cache
                  (snapshot_consistent _ _ _)) "S2").
Defined.

Lemma total_reviews_length (l : list Review) :
  total_reviews (summarizeReviews l) = length l.
Proof. destruct l; reflexivity. Qed.

(** X6.  In a snapshot built by [load], the reviews grouped under an
    identifier are the reviews that name it, in the order of the source;
    the summary of an identifier is the summary of those reviews and counts
    them, and the groups hold every review. *)
Theorem reviews_grouped (c : Cache) :
  consistent c ->
  (forall k, default [] (reviewsByProduct c !! k) = reviews_of k (reviews c)) /\
  (forall k, getReviewSummary c k = summarizeReviews (reviews_of k (reviews c))) /\
  (forall k, total_reviews (getReviewSummary c k)
             = length (reviews_of k (reviews c))) /\
  (forall r, In r (reviews c) ->
             exists l, reviewsByProduct c !! product_id r = Some l /\ In r l).
Proof.
  intros [_ Hgrp].
  assert (H : forall k, default [] (reviewsByProduct c !! k)
                        = reviews_of k (reviews c)).
  { intros k. rewrite Hgrp, group_reviews_lookup.
    destruct (reviews_of k (reviews c)); reflexivity. }
  split; [exact H|]. split; [|split].
  - intros k. unfold getReviewSummary. now rewrite H.
  - intros k. unfold getReviewSummary. rewrite H. apply total_reviews_length.
  - intros r Hr. rewrite Hgrp, group_reviews_lookup.
    assert (Hin : In r (reviews_of (product_id r) (reviews c))).
    { apply filter_In. split; [exact Hr | apply String.eqb_refl]. }
    destruct (reviews_of (product_id r) (reviews c)) as [|x l] eqn:E;
      [destruct Hin|]. eauto.
Qed.

Lemma reviews_grouped_witness :
  consistent sample_cache /\
  total_reviews (getReviewSummary sample_cache "L0")
  = length (reviews_of "L0" (reviews sample_cache)).
Proof.
  split; [apply snapshot_consistent|].
  apply (reviews_grouped sample_cache (snapshot_consistent _ _ _)).
Defined.

(* ================================================================== *)
(** * Further facts about the cache *)
(* ================================================================== *)

(** The three ways a run of [ensureFresh] ends: nothing to do, a reload, or
    a source that could not be read. *)
Lemma ensureFresh_cases (s : Store) (evs : list event)
    (r : result unit * Store) :
  run (ensureFresh s) evs = Some r ->
  (r = (Ok tt, s) /\ has_cache s = true /\ reloads evs = 0%nat) \/
  (exists prows rrows qrows t m,
     r = (Ok tt, mkStore (Some (snapshot prows rrows qrows)) t (max_mtime m)) /\
     reloads evs = 1%nat) \/
  (r = (Throw ReadError, s) /\ reloads evs = 1%nat).
Proof.
  rewrite run_ensureFresh.
  destruct evs as [|[now| | | |] evs1]; try discriminate.
  assert (Hload : forall evs2 now m,
            run (load s) evs2 = Some r ->
            (exists prows rrows qrows t m,
               r = (Ok tt, mkStore (Some (snapshot prows rrows qrows)) t
                             (max_mtime m)) /\
               reloads (ENow now :: EStat m :: evs2) = 1%nat) \/
            (r = (Throw ReadError, s) /\
             reloads (ENow now :: EStat m :: evs2) = 1%nat)).
  { intros evs2 now' m'. rewrite run_load.
    destruct evs2 as [|[| |[prows|]| |] evs2]; try discriminate.
    - destruct evs2 as [|[| | |[rrows|]|] evs2]; try discriminate.
      + destruct evs2 as [|[| | | |[qrows|]] evs2]; try discriminate.
        * destruct evs2 as [|[t| | | |] evs2]; try discriminate.
          destruct evs2 as [|[|m2| | |] evs2]; try discriminate.
          destruct evs2; [|discriminate]. intros [= <-]. left.
          exists prows, rrows, qrows, t, m2. split; reflexivity.
        * destruct evs2; [|discriminate]. intros [= <-]. right.
          split; reflexivity.
      + destruct evs2; [|discriminate]. intros [= <-]. right. split; reflexivity.
    - destruct evs2; [|discriminate]. intros [= <-]. right. split; reflexivity. }
  destruct (has_cache s) eqn:Hc; cbn [negb orb].
  - destruct (now - lastLoaded s >? 30000)%Z.
    + destruct evs1 as [|[|m| | |] evs2]; try discriminate.
      destruct (num_gt (max_mtime m) (lastModified s)).
      * intros H. right. exact (Hload evs2 now m H).
      * destruct evs2; [|discriminate]. intros [= <-]. left.
        repeat split; reflexivity.
    + destruct evs1; [|discriminate]. intros [= <-]. left.
      repeat split; reflexivity.
  - destruct evs1 as [|[|m| | |] evs2]; try discriminate.
    intros H. right. exact (Hload evs2 now m H).
Qed.

(** X7.  A run of [ensureFresh] either returns, and then the store holds a
    snapshot, whose indexes are those of its own products and reviews when
    that was so before; or it throws the failure to read a source, and then
    the store is exactly as it was.  The snapshot an exported query reads is
    the one in the store, and a query throws nothing but a failure to
    read. *)
Theorem ensureFresh_outcomes (s : Store) (evs : list event) :
  (forall res s',
     run (ensureFresh s) evs = Some (res, s') ->
     match res with
     | Ok _ => exists c, cache s' = Some c /\ (store_ok s -> consistent c)
     | Throw e => e = ReadError /\ s' = s
     end) /\
  (forall res s',
     run (Api.fresh_cache s) evs = Some (res, s') ->
     match res with
     | Ok c => cache s' = Some c /\ run (ensureFresh s) evs = Some (Ok tt, s')
     | Throw e => e = ReadError /\ s' = s
     end) /\
  store_ok initial_store.
Proof.
  assert (H1 : forall res s',
             run (ensureFresh s) evs = Some (res, s') ->
             match res with
             | Ok _ => exists c, cache s' = Some c /\ (store_ok s -> consistent c)
             | Throw e => e = ReadError /\ s' = s
             end).
  { intros res s' Hrun.
    destruct (ensureFresh_cases _ _ _ Hrun)
      as [([= -> ->] & Hc & _)|[(p & r & q & t & m & [= -> ->] & _)|([= -> ->] & _)]].
    - unfold has_cache in Hc. destruct (cache s) as [c|] eqn:E; [|discriminate].
      exists c. split; [reflexivity|]. intros Hok. now apply Hok.
    - eexists. split; [reflexivity|]. intros _. apply snapshot_consistent.
    - split; reflexivity. }
  split; [exact H1|]. split; [|intros c Hc; discriminate].
  intros res s'. unfold Api.fresh_cache, bind.
  rewrite (run_io_bind_pure _ _
             (fun out => match out with
                         | (Ok _, s1) =>
                             match cache s1 with
                             | Some c => (Ok c, s1)
                             | None => (Throw TypeError, s1)
                             end
                         | (Throw e, s1) => (Throw e, s1)
                         end)).
  2:{ intros [[u|e] s1]; [|reflexivity]. unfold the_cache.
      destruct (cache s1); reflexivity. }
  destruct (run (ensureFresh s) evs) as [[[[]|e] s1]|] eqn:Hrun;
    cbn [fmap option_fmap option_map]; try discriminate.
  - destruct (H1 _ _ eq_refl) as (c & Hc & _). rewrite Hc.
    intros [= <- <-]. split; [exact Hc | reflexivity].
  - intros [= <- <-]. exact (H1 _ _ eq_refl).
Qed.

Lemma ensureFresh_outcomes_witness :
  run (ensureFresh initial_store) [ENow 5; EStat (mkMtimes None None None);
                                   EProducts None]
    = Some (Throw ReadError, initial_store) /\
  ReadError = ReadError /\ initial_store = initial_store.
Proof.
  assert (H : run (ensureFresh initial_store)
                [ENow 5; EStat (mkMtimes None None None); EProducts None]
              = Some (Throw ReadError, initial_store)) by reflexivity.
  split; [exact H|].
  apply (proj1 (ensureFresh_outcomes initial_store _) _ _ H).
Defined.

(** X8.  [ensureFresh] reloads exactly when the store holds no snapshot, or
    more than 30 seconds have passed since [lastLoaded] and the greatest
    modification time is above the recorded one.  A reload that reads the
    three sources puts the snapshot built from them in the store, with the
    clock and the modification times read after the sources. *)
Theorem ensureFresh_reloads (s : Store) :
  (forall now m prows rrows qrows t' m',
     has_cache s = false \/
     ((30000 < now - lastLoaded s)%Z /\
      num_gt (max_mtime m) (lastModified s) = true) ->
     run (ensureFresh s)
       [ENow now; EStat m; EProducts (Some prows); EReviews (Some rrows);
        EPolicies (Some qrows); ENow t'; EStat m']
     = Some (Ok tt, mkStore (Some (snapshot prows rrows qrows)) t'
                      (max_mtime m'))) /\
  (forall evs r,
     run (ensureFresh s) evs = Some r -> (0 < reloads evs)%nat ->
     exists now m rest,
       evs = ENow now :: EStat m :: rest /\
       (has_cache s = false \/
        ((30000 < now - lastLoaded s)%Z /\
         num_gt (max_mtime m) (lastModified s) = true))).
Proof.
  split.
  - intros now m prows rrows qrows t' m' H. rewrite run_ensureFresh.
    destruct H as [H|[Ht Hm]].
    + rewrite H. cbn [negb orb]. now rewrite run_load.
    + assert (Hgt : (now - lastLoaded s >? 30000)%Z = true)
        by (rewrite Z.gtb_ltb; apply Z.ltb_lt; lia).
      rewrite Hgt, Hm, !orb_true_r. now rewrite run_load.
  - intros evs r. rewrite run_ensureFresh.
    destruct evs as [|[now| | | |] evs1]; try discriminate.
    destruct (has_cache s) eqn:Hc; cbn [negb orb].
    + destruct (now - lastLoaded s >? 30000)%Z eqn:Hgt.
      * destruct evs1 as [|[|m| | |] evs2]; try discriminate.
        destruct (num_gt (max_mtime m) (lastModified s)) eqn:Hm.
        -- intros _ _. exists now, m, evs2. split; [reflexivity|]. right.
           split; [|exact Hm].
           rewrite Z.gtb_ltb in Hgt. apply Z.ltb_lt in Hgt. lia.
        -- destruct evs2; [|discriminate]. intros _ H. cbn in H. lia.
      * destruct evs1; [|discriminate]. intros _ H. cbn in H. lia.
    + destruct evs1 as [|[|m| | |] evs2]; try discriminate.
      intros _ _. exists now, m, evs2. split; [reflexivity | now left].
Qed.

Lemma ensureFresh_reloads_witness :
  run (ensureFresh initial_store)
    [ENow 7000; EStat (mkMtimes (Some 5%Q) None None);
     EProducts (Some sample_product_rows); EReviews (Some sample_review_rows);
     EPolicies (Some sample_policy_rows); ENow 7100;
     EStat (mkMtimes (Some 5%Q) (Some 6%Q) None)]
  = Some (Ok tt, mkStore (Some sample_cache) 7100 (Fin 6)).
Proof.
  apply (proj1 (ensureFresh_reloads initial_store)). left. reflexivity.
Defined.

(** X9.  A check that finds nothing new does not move [lastLoaded]: once
    more than 30 seconds have passed since the last reload, every call
    checks the modification times of the files again, until one of them
    leads to a reload. *)
Theorem ensureFresh_checks_again (s : Store) (c : Cache) (t : Z) (m : Mtimes) :
  cache s = Some c ->
  (30000 < t - lastLoaded s)%Z ->
  num_gt (max_mtime m) (lastModified s) = false ->
  run (ensureFresh s) [ENow t; EStat m] = Some (Ok tt, s) /\
  (forall t' evs r,
     (t <= t')%Z ->
     run (ensureFresh s) (ENow t' :: evs) = Some r ->
     exists m' rest, evs = EStat m' :: rest).
Proof.
  intros Hc Ht Hm.
  assert (Hh : has_cache s = true) by (unfold has_cache; now rewrite Hc).
  split.
  - rewrite run_ensureFresh, Hh.
    assert (Hgt : (t - lastLoaded s >? 30000)%Z = true)
      by (rewrite Z.gtb_ltb; apply Z.ltb_lt; lia).
    now rewrite Hgt, Hm.
  - intros t' evs r Hle. rewrite run_ensureFresh, Hh.
    assert (Hgt : (t' - lastLoaded s >? 30000)%Z = true)
      by (rewrite Z.gtb_ltb; apply Z.ltb_lt; lia).
    rewrite Hgt. cbn [negb orb].
    destruct evs as [|[|m'| | |] rest]; try discriminate. eauto.
Qed.

Lemma ensureFresh_checks_again_witness :
  run (ensureFresh sample_store)
    [ENow 40000; EStat (mkMtimes (Some 500%Q) (Some 400%Q) (Some 300%Q))]
  = Some (Ok tt, sample_store).
Proof.
  apply (ensureFresh_checks_again sample_store sample_cache 40000%Z
           (mkMtimes (Some 500%Q) (Some 400%Q) (Some 300%Q)) eq_refl).
  - vm_compute. reflexivity.
  - vm_compute. reflexivity.
Defined.

Lemma max_mtime_value (m : Mtimes) :
  max_mtime m
  = Fin (Qmax2 (Qmax2 (the_Q (mtimeMs (mt_products m)))
                      (the_Q (mtimeMs (mt_reviews m))))
               (the_Q (mtimeMs (mt_policies m)))).
Proof.
  unfold max_mtime, Math_max, Qmax2.
  destruct (mt_products m), (mt_reviews m), (mt_policies m);
    cbn [mtimeMs the_Q fold_left max2 num_le];
    repeat match goal with
           | |- context [Qle_bool ?a ?b] => destruct (Qle_bool a b) eqn:?
           end; cbn [max2 num_le];
    repeat match goal with
           | H : Qle_bool ?a ?b = _ |- context [Qle_bool ?a ?b] => rewrite H
           end; reflexivity.
Qed.

(** X10.  The modification time that is compared is the greatest of the
    three, a missing file counting as 0.  A snapshot therefore stays in
    effect, without any read, as long as no file is newer than the recorded
    time: a change to a file that is older than another one of the three is
    not noticed. *)
Theorem ensureFresh_misses_older_change (s : Store) (c : Cache) (L : Q)
    (t : Z) (m : Mtimes) :
  cache s = Some c -> lastModified s = Fin L ->
  (the_Q (mtimeMs (mt_products m)) <= L)%Q ->
  (the_Q (mtimeMs (mt_reviews m)) <= L)%Q ->
  (the_Q (mtimeMs (mt_policies m)) <= L)%Q ->
  (exists q, max_mtime m = Fin q /\ (q <= L)%Q /\
             (the_Q (mtimeMs (mt_products m)) <= q)%Q /\
             (the_Q (mtimeMs (mt_reviews m)) <= q)%Q /\
             (the_Q (mtimeMs (mt_policies m)) <= q)%Q) /\
  (forall evs r,
     run (ensureFresh s) (ENow t :: EStat m :: evs) = Some r ->
     evs = [] /\ r = (Ok tt, s)).
Proof.
  intros Hc HL Hp Hr Hq.
  pose proof (max_mtime_value m) as Hmax.
  set (a := the_Q (mtimeMs (mt_products m))) in *.
  set (b := the_Q (mtimeMs (mt_reviews m))) in *.
  set (d := the_Q (mtimeMs (mt_policies m))) in *.
  destruct (Qmax2_spec a b) as (H1 & H2 & H3).
  destruct (Qmax2_spec (Qmax2 a b) d) as (H4 & H5 & H6).
  assert (Hle : (Qmax2 (Qmax2 a b) d <= L)%Q).
  { destruct H6 as [->| ->]; [|exact Hq]. destruct H3 as [->| ->]; assumption. }
  split.
  - eexists. split; [exact Hmax|]. repeat split; try assumption; lra.
  - intros evs r. rewrite run_ensureFresh.
    assert (Hh : has_cache s = true) by (unfold has_cache; now rewrite Hc).
    assert (Hgt : num_gt (max_mtime m) (lastModified s) = false).
    { rewrite Hmax, HL. unfold num_gt. cbn [num_lt].
      now apply Qlt_bool_false. }
    rewrite Hh, Hgt. cbn [negb orb].
    destruct (t - lastLoaded s >? 30000)%Z; [|discriminate].
    destruct evs; [|discriminate]. intros [= <-]. split; reflexivity.
Qed.

Lemma ensureFresh_misses_older_change_witness :
  exists q,
    max_mtime (mkMtimes (Some 500%Q) (Some 450%Q) (Some 300%Q)) = Fin q /\
    (q <= 500)%Q /\
    (the_Q (mtimeMs (Some 500%Q)) <= q)%Q /\
    (the_Q (mtimeMs (Some 450%Q)) <= q)%Q /\
    (the_Q (mtimeMs (Some 300%Q)) <= q)%Q.
Proof.
  apply (proj1 (ensureFresh_misses_older_change sample_store sample_cache
                  500%Q 90000%Z
                  (mkMtimes (Some 500%Q) (Some 450%Q) (Some 300%Q))
                  eq_refl eq_refl
                  ltac:(vm_compute; discriminate)
                  ltac:(vm_compute; discriminate)
                  ltac:(vm_compute; discriminate))).
Defined.

(* ================================================================== *)
(** * Further facts about the policies *)
(* ================================================================== *)

Lemma split_pipe_from_nonempty (cur s : string) : split_pipe_from cur s <> [].
Proof.
  revert cur. induction s as [|c s IH]; intros cur; cbn [split_pipe_from].
  - discriminate.
  - destruct (Ascii.eqb c "|"); [discriminate | apply IH].
Qed.

Lemma join_pipe_cons (x : string) (l : list string) :
  l <> [] -> join_pipe (x :: l) = x ++ "|" ++ join_pipe l.
Proof. destruct l; [congruence | reflexivity]. Qed.

Lemma join_split_from (cur s : string) :
  join_pipe (split_pipe_from cur s) = cur ++ s.
Proof.
  revert cur. induction s as [|c s IH]; intros cur; cbn [split_pipe_from].
  - cbn [join_pipe]. now rewrite append_empty_r.
  - destruct (Ascii.eqb_spec c "|") as [->|Hne].
    + rewrite join_pipe_cons by apply split_pipe_from_nonempty.
      now rewrite IH, append_nil.
    + rewrite IH. now rewrite append_assoc, append_cons, append_nil.
Qed.

Lemma split_pipe_from_clean (cur s : string) :
  all_chars (fun c => negb (Ascii.eqb c "|")) cur = true ->
  Forall (fun t => all_chars (fun c => negb (Ascii.eqb c "|")) t = true)
    (split_pipe_from cur s).
Proof.
  revert cur. induction s as [|c s IH]; intros cur Hcur; cbn [split_pipe_from].
  - repeat constructor. exact Hcur.
  - destruct (Ascii.eqb c "|") eqn:E.
    + constructor; [exact Hcur | now apply IH].
    + apply IH. rewrite all_chars_app, Hcur. cbn [all_chars]. now rewrite E.
Qed.

(** X11.  The conditions of a policy are the pieces of the column between
    the bars: joined by bars they give the column back, no piece holds a
    bar, and an empty column gives no condition at all.  [parsePolicies]
    keeps the rows in number and order. *)
Theorem parsePolicies_conditions (rows : list PolicyRow.t) :
  length (parsePolicies rows) = length rows /\
  map policy_description (parsePolicies rows) = map PolicyRow.description rows /\
  Forall2
    (fun row policy =>
       join_pipe (conditions policy) = PolicyRow.conditions row /\
       (conditions policy = [] <-> PolicyRow.conditions row = "") /\
       Forall (fun t => all_chars (fun c => negb (Ascii.eqb c "|")) t = true)
         (conditions policy))
    rows (parsePolicies rows).
Proof.
  unfold parsePolicies. rewrite length_map, map_map. repeat split.
  induction rows as [|row rows IH]; cbn [map]; constructor; [|exact IH].
  cbn [conditions]. destruct (PolicyRow.conditions row) as [|c s] eqn:E.
  - cbn [truthy_str]. repeat split; auto.
  - cbn [truthy_str]. unfold split_pipe. repeat split.
    + now rewrite join_split_from, append_nil.
    + intros H. now apply split_pipe_from_nonempty in H.
    + discriminate.
    + now apply split_pipe_from_clean.
Qed.

(* ================================================================== *)
(** * Further facts about the queries *)
(* ================================================================== *)

Lemma perm_filter {A : Type} (f : A -> bool) (l l' : list A) :
  Permutation l l' -> Permutation (List.filter f l) (List.filter f l').
Proof.
  induction 1 as [|x l l' _ IH|x y l|l l' l'' _ IH1 _ IH2]; cbn [List.filter].
  - constructor.
  - destruct (f x); [now constructor | exact IH].
  - destruct (f x), (f y); try apply Permutation_refl. apply perm_swap.
  - eapply perm_trans; eassumption.
Qed.

Lemma filter_twice {A : Type} (f g : A -> bool) (l : list A) :
  List.filter f (List.filter g l) = List.filter (fun x => g x && f x) l.
Proof.
  induction l as [|x l IH]; [reflexivity|]. cbn [List.filter].
  destruct (g x); cbn [List.filter andb]; [destruct (f x)|]; now rewrite IH.
Qed.

Lemma filter_all {A : Type} (l : list A) : List.filter (fun _ => true) l = l.
Proof. induction l as [|x l IH]; [reflexivity|]. cbn. now rewrite IH. Qed.

Lemma filter_same {A : Type} (f g : A -> bool) (l : list A) :
  (forall x, f x = g x) -> List.filter f l = List.filter g l.
Proof. intros H. apply filter_ext. exact H. Qed.

Lemma truthy_arg_cases (o : option string) :
  (truthy_arg o = None /\ (o = None \/ o = Some "")) \/
  (exists s, o = Some s /\ truthy_str s = true /\ truthy_arg o = Some s).
Proof.
  destruct o as [[|ch s]|]; cbn; eauto 6.
Qed.

(** The steps of [getProducts], each written as a filter of the list it is
    given, up to the order the query step puts the products in. *)
Lemma getProducts_perm (c : Cache) (filters : Filters.t) :
  Permutation (getProducts c filters)
    (List.filter (matches filters) (products c)) /\
  (truthy_arg (Filters.query filters) = None ->
   getProducts c filters = List.filter (matches filters) (products c)).
Proof.
  unfold getProducts.
  set (fc := fun p : Product =>
               match truthy_arg (Filters.category filters) with
               | Some cat => String.eqb (category p) cat
               | None => true
               end).
  set (fq := fun p : Product =>
               match truthy_arg (Filters.query filters) with
               | Some q => (0 <? text_score_spec p (tokenize q))%Z
               | None => true
               end).
  set (f1 := fun p : Product =>
               match Filters.minPrice filters with
               | Some lo => num_le lo (price p)
               | None => true
               end).
  set (f2 := fun p : Product =>
               match Filters.maxPrice filters with
               | Some hi => num_le (price p) hi
               | None => true
               end).
  set (f3 := fun p : Product =>
               if Filters.inStockOnly filters then num_lt (Fin 0) (stock p)
               else true).
  assert (Hm : forall l,
             List.filter f3 (List.filter f2 (List.filter f1
               (List.filter fq (List.filter fc l))))
             = List.filter (matches filters) l).
  { intros l. rewrite !filter_twice. apply filter_same. intros x.
    unfold matches, fc, fq, f1, f2, f3. now rewrite !andb_assoc. }
  set (r1 := match Filters.category filters with
             | Some cat =>
                 if truthy_str cat
                 then List.filter (fun product => String.eqb (category product) cat)
                        (products c)
                 else products c
             | None => products c
             end).
  assert (H1 : r1 = List.filter fc (products c)).
  { unfold r1, fc. destruct (Filters.category filters) as [cat|]; cbn [truthy_arg].
    - destruct (truthy_str cat); [reflexivity | now rewrite filter_all].
    - now rewrite filter_all. }
  set (r2 := match Filters.query filters with
             | Some q =>
                 if truthy_str q
                 then _
                 else r1
             | None => r1
             end).
  assert (H2 : Permutation r2 (List.filter fq r1) /\
               (truthy_arg (Filters.query filters) = None ->
                r2 = List.filter fq r1)).
  { unfold r2, fq. destruct (Filters.query filters) as [q|]; cbn [truthy_arg].
    - destruct (truthy_str q).
      + split; [|discriminate]. apply (query_step q r1).
      + rewrite filter_all. split; [apply Permutation_refl | reflexivity].
    - rewrite filter_all. split; [apply Permutation_refl | reflexivity]. }
  clearbody r2.
  set (r3 := match Filters.minPrice filters with
             | Some lo => List.filter (fun product => num_ge (price product) lo) r2
             | None => r2
             end).
  assert (H3 : r3 = List.filter f1 r2).
  { unfold r3, f1. destruct (Filters.minPrice filters);
      [reflexivity | now rewrite filter_all]. }
  set (r4 := match Filters.maxPrice filters with
             | Some hi => List.filter (fun product => num_le (price product) hi) r3
             | None => r3
             end).
  assert (H4 : r4 = List.filter f2 r3).
  { unfold r4, f2. destruct (Filters.maxPrice filters);
      [reflexivity | now rewrite filter_all]. }
  assert (H5 : (if Filters.inStockOnly filters
                then List.filter (fun product => num_gt (stock product) (Fin 0)) r4
                else r4) = List.filter f3 r4).
  { unfold f3. destruct (Filters.inStockOnly filters);
      [reflexivity | now rewrite filter_all]. }
  rewrite H5, H4, H3. rewrite <- Hm, <- H1. destruct H2 as [Hp He]. split.
  - now repeat apply perm_filter.
  - intros Hq. now rewrite (He Hq).
Qed.

Lemma text_score_positive (p : Product) (tokens : list string) :
  (0 <? text_score_spec p tokens)%Z = true <->
  exists t, In t tokens /\ appears t (haystack p).
Proof.
  unfold text_score_spec. rewrite Z.ltb_lt. split.
  - intros H.
    destruct (List.filter (fun t => includes (haystack p) t) tokens)
      as [|t l] eqn:E; [cbn in H; lia|].
    assert (Hin : In t (List.filter (fun t => includes (haystack p) t) tokens))
      by (rewrite E; now left).
    apply filter_In in Hin as [Hin Hinc]. exists t. split; [exact Hin|].
    now apply includes_appears.
  - intros (t & Hin & Happ).
    assert (Hf : In t (List.filter (fun t => includes (haystack p) t) tokens)).
    { apply filter_In. split; [exact Hin | now apply includes_appears]. }
    destruct (List.filter (fun t => includes (haystack p) t) tokens);
      [destruct Hf | cbn [length]; lia].
Qed.

Lemma matches_query (filters : Filters.t) (p : Product) (q : string) :
  truthy_arg (Filters.query filters) = Some q ->
  matches filters p = true ->
  (0 <? text_score_spec p (tokenize q))%Z = true.
Proof.
  intros Hq Hm. unfold matches in Hm. rewrite Hq in Hm.
  do 3 apply andb_prop in Hm as [Hm _]. now apply andb_prop in Hm as [_ Hm].
Qed.

(** X12.  The products [getProducts] returns are the products of the
    catalog that pass every filter, each as often as the catalog holds it;
    without a query they come in the order of the catalog.  A product passes
    the query when one of its tokens occurs in the searched text. *)
Theorem getProducts_members (c : Cache) (filters : Filters.t) :
  Permutation (getProducts c filters)
    (List.filter (matches filters) (products c)) /\
  (truthy_arg (Filters.query filters) = None ->
   getProducts c filters = List.filter (matches filters) (products c)) /\
  (forall p, In p (getProducts c filters) <->
             In p (products c) /\ matches filters p = true) /\
  (length (getProducts c filters) <= length (products c))%nat /\
  (forall p q,
     truthy_arg (Filters.query filters) = Some q ->
     matches filters p = true ->
     exists t, In t (tokenize q) /\ appears t (haystack p)).
Proof.
  destruct (getProducts_perm c filters) as [Hp He].
  split; [exact Hp|]. split; [exact He|]. split; [|split].
  - intros p. rewrite <- filter_In. split; intros H.
    + eapply Permutation_in; [exact Hp | exact H].
    + eapply Permutation_in; [symmetry; exact Hp | exact H].
  - rewrite (Permutation_length Hp). apply filter_length_le.
  - intros p q Hq Hm. apply text_score_positive.
    exact (matches_query filters p q Hq Hm).
Qed.

Lemma getProducts_members_witness :
  getProducts sample_cache (Filters.mk (Some "speaker") None None None true)
  = List.filter (matches (Filters.mk (Some "speaker") None None None true))
      (products sample_cache).
Proof.
  apply (proj1 (proj2 (getProducts_members sample_cache
                         (Filters.mk (Some "speaker") None None None true)))
           eq_refl).
Defined.

(** X13.  A query none of whose tokens occurs in the text of any product
    gives no product at all; this is so for a query made of stop words or of
    punctuation only, which has no token. *)
Theorem getProducts_no_match (c : Cache) (filters : Filters.t) (q : string) :
  truthy_arg (Filters.query filters) = Some q ->
  (forall p t, In p (products c) -> In t (tokenize q) ->
               ~ appears t (haystack p)) ->
  getProducts c filters = [].
Proof.
  intros Hq Hno.
  destruct (getProducts c filters) as [|p l] eqn:E; [reflexivity|].
  exfalso.
  assert (Hin : In p (List.filter (matches filters) (products c))).
  { eapply Permutation_in; [apply getProducts_perm|]. rewrite E. now left. }
  apply filter_In in Hin as [Hin Hm].
  apply (matches_query filters p q Hq) in Hm.
  apply text_score_positive in Hm as (t & Ht & Happ).
  exact (Hno p t Hin Ht Happ).
Qed.

Lemma getProducts_no_match_witness :
  getProducts sample_cache
    (Filters.mk None (Some "the, and... of?") None None false) = [].
Proof.
  apply (getProducts_no_match sample_cache
           (Filters.mk None (Some "the, and... of?") None None false)
           "the, and... of?" eq_refl).
  intros p t _ Ht. vm_compute in Ht. destruct Ht.
Defined.

Lemma firstn_In {A : Type} (n : nat) (l : list A) (x : A) :
  In x (firstn n l) -> In x l.
Proof.
  revert l. induction n as [|n IH]; intros [|y l] H; try destruct H.
  - now left.
  - right. now apply IH.
Qed.

Lemma getRecommendations_modes (c : Cache) (productId query : option string) :
  getRecommendations c productId query =
  match truthy_arg productId, base_product c productId with
  | Some pid, Some baseProduct =>
      firstn 6
        (js_sort (fun a b => num_sub (scoreRecommendation baseProduct b)
                               (scoreRecommendation baseProduct a))
           (other_peers c pid baseProduct))
  | _, _ =>
      match truthy_arg query with
      | Some q =>
          firstn 6
            (js_sort
               (fun a b =>
                  num_sub (num_add (num_of_Z (getTextScore b (tokenize q)))
                             (rating b))
                    (num_add (num_of_Z (getTextScore a (tokenize q)))
                       (rating a)))
               (List.filter
                  (fun p => num_gt (num_add (num_of_Z (getTextScore p (tokenize q)))
                                      (rating p)) (Fin 0))
                  (products c)))
      | None =>
          firstn 6
            (js_sort (fun a b => num_sub (rating b) (rating a)) (products c))
      end
  end.
Proof.
  unfold getRecommendations, base_product, slice0, other_peers.
  destruct (truthy_arg productId) as [pid|].
  - destruct (productById c !! pid) as [b|].
    + rewrite <- firstn_map. f_equal.
      apply (rank_undecorate (scoreRecommendation b)).
    + destruct (truthy_arg query) as [q|]; [|reflexivity].
      rewrite <- firstn_map, filter_map_comm. f_equal.
      apply (rank_undecorate
               (fun p => num_add (num_of_Z (getTextScore p (tokenize q)))
                           (rating p))).
  - destruct (truthy_arg query) as [q|]; [|reflexivity].
    rewrite <- firstn_map, filter_map_comm. f_equal.
    apply (rank_undecorate
             (fun p => num_add (num_of_Z (getTextScore p (tokenize q)))
                         (rating p))).
Qed.

(** X14.  Whatever it is asked, [getRecommendations] returns at most six
    products, all of the catalog.  An identifier that is missing, empty or
    unknown is no error: the answer is that of the request without it.  When
    the product is known the query plays no part, and the answer holds the
    six best, or all, of the other products of its category. *)
Theorem getRecommendations_general (c : Cache) (productId query : option string) :
  (length (getRecommendations c productId query) <= 6)%nat /\
  (forall p, In p (getRecommendations c productId query) -> In p (products c)) /\
  (base_product c productId = None ->
   getRecommendations c productId query = getRecommendations c None query) /\
  (forall pid b,
     truthy_arg productId = Some pid -> productById c !! pid = Some b ->
     (forall query', getRecommendations c productId query'
                     = getRecommendations c productId query) /\
     length (getRecommendations c productId query)
     = Nat.min 6 (length (other_peers c pid b)) /\
     forall p, In p (getRecommendations c productId query) ->
               category p = category b /\ prod_id p <> pid) /\
  (base_product c productId = None -> truthy_arg query = None ->
   length (getRecommendations c productId query)
   = Nat.min 6 (length (products c))).
Proof.
  assert (Hsub : forall p, In p (getRecommendations c productId query) ->
                           In p (products c)).
  { intros p. rewrite getRecommendations_modes.
    destruct (truthy_arg productId) as [pid|];
      [destruct (base_product c productId) as [b|]|];
      try destruct (truthy_arg query) as [q|];
      intros H; apply firstn_In, js_sort_In in H;
      try (apply filter_In in H as [H _]); exact H. }
  split; [|split; [exact Hsub|split; [|split]]].
  - rewrite getRecommendations_modes.
    destruct (truthy_arg productId) as [pid|];
      [destruct (base_product c productId) as [b|]|];
      try destruct (truthy_arg query) as [q|];
      rewrite length_firstn; lia.
  - intros Hb. rewrite !getRecommendations_modes, Hb. cbn [base_product truthy_arg].
    now destruct (truthy_arg productId).
  - intros pid b Hpid Hb.
    assert (Hbase : base_product c productId = Some b)
      by (unfold base_product; now rewrite Hpid).
    split; [|split].
    + intros query'. now rewrite !getRecommendations_modes, Hpid, Hbase.
    + rewrite getRecommendations_modes, Hpid, Hbase.
      now rewrite length_firstn, js_sort_length.
    + intros p. rewrite getRecommendations_modes, Hpid, Hbase. intros H.
      apply firstn_In, js_sort_In in H. apply filter_In in H as [_ H].
      apply andb_prop in H as [H1 H2].
      apply String.eqb_eq in H1. apply negb_true_iff in H2.
      apply String.eqb_neq in H2. now split.
  - intros Hb Hq. rewrite getRecommendations_modes, Hb, Hq.
    destruct (truthy_arg productId);
      now rewrite length_firstn, js_sort_length.
Qed.

Lemma getRecommendations_general_witness :
  getRecommendations sample_cache (Some "unknown") (Some "speaker")
  = getRecommendations sample_cache None (Some "speaker").
Proof.
  apply (proj1 (proj2 (proj2 (getRecommendations_general sample_cache
                                (Some "unknown") (Some "speaker"))))
           eq_refl).
Defined.

(** The sign of the sum of a text score and a rating is the sign of the
    exact sum. *)
Lemma query_score_sign (tokens : list string) (p : Product) (v : Q) :
  is_fin (rating p) -> query_score tokens p = Fin v ->
  on_grid v /\
  Qlt_bool 0 v
  = Qlt_bool 0 (inject_Z (text_score_spec p tokens) + the_Q (rating p)).
Proof.
  unfold query_score. intros Hr Hv. apply is_fin_grid in Hr. split.
  - exact (num_add_grid _ _ v (num_of_Z_grid _) Hr Hv).
  - destruct (rating p) as [| | |r]; try contradiction.
    cbn [num_of_Z num_add the_Q] in *.
    rewrite <- (round64_sign (inject_Z (text_score_spec p tokens) + r))
      by (apply on_grid_add; [apply on_grid_Z | exact Hr]).
    now rewrite Hv.
Qed.

(** X15.  Without a known product, a query ranks the products by the sum of
    their text score and their rating, as the language adds them, and keeps
    those whose sum is positive; the six first are returned.  A product of
    positive rating is thus ranked even when no token of the query occurs
    in its text.  The ratings are numbers and no sum overflows. *)
Theorem getRecommendations_by_query (c : Cache) (productId query : option string)
    (q : string) :
  base_product c productId = None ->
  truthy_arg query = Some q ->
  (forall p, In p (products c) ->
     is_fin (rating p) /\ exists v, query_score (tokenize q) p = Fin v) ->
  exists ranked,
    getRecommendations c productId query = firstn 6 ranked /\
    ranking (query_key (tokenize q))
      (List.filter (fun p => Qlt_bool 0 (query_key (tokenize q) p)) (products c))
      ranked /\
    (forall p, In p (products c) -> (0 < the_Q (rating p))%Q -> In p ranked) /\
    (forall p, In p ranked ->
               (0 < the_Q (rating p))%Q \/
               exists t, In t (tokenize q) /\ appears t (haystack p)).
Proof.
  intros Hb Hq Hfin.
  set (score := fun p : Product =>
                  num_add (num_of_Z (getTextScore p (tokenize q))) (rating p)).
  assert (Hscore : forall p, score p = query_score (tokenize q) p).
  { intros p. unfold score, query_score. now rewrite getTextScore_spec. }
  assert (Hkeep : List.filter (fun p => num_gt (score p) (Fin 0)) (products c)
                  = List.filter (fun p => Qlt_bool 0 (query_key (tokenize q) p))
                      (products c)).
  { apply filter_ext_in. intros p Hp. rewrite Hscore. unfold query_key.
    destruct (Hfin p Hp) as (_ & v & ->). reflexivity. }
  assert (Hsign : forall p, In p (products c) ->
            Qlt_bool 0 (query_key (tokenize q) p)
            = Qlt_bool 0 (inject_Z (text_score_spec p (tokenize q))
                          + the_Q (rating p))).
  { intros p Hp. destruct (Hfin p Hp) as (Hr & v & Hv).
    unfold query_key. rewrite Hv.
    exact (proj2 (query_score_sign _ _ _ Hr Hv)). }
  assert (Hnonneg : forall p, (0 <= inject_Z (text_score_spec p (tokenize q)))%Q).
  { intros p. unfold text_score_spec. change 0%Q with (inject_Z 0).
    rewrite <- Zle_Qle. lia. }
  exists (js_sort (fun a b => num_sub (score b) (score a))
            (List.filter (fun p => num_gt (score p) (Fin 0)) (products c))).
  split; [|split; [|split]].
  - rewrite getRecommendations_modes, Hb, Hq.
    now destruct (truthy_arg productId).
  - rewrite <- Hkeep.
    apply (ranking_ext (fun p => the_Q (score p))).
    + intros p Hp. now rewrite Hscore.
    + apply js_sort_ranking. intros p Hp. apply filter_In in Hp as [Hp _].
      rewrite Hscore. destruct (Hfin p Hp) as (Hr & v & Hv). rewrite Hv.
      exact (proj1 (query_score_sign _ _ _ Hr Hv)).
  - intros p Hp Hr. apply js_sort_In. rewrite Hkeep. apply filter_In.
    split; [exact Hp|]. rewrite (Hsign p Hp). apply Qlt_bool_iff.
    specialize (Hnonneg p). lra.
  - intros p Hp. apply js_sort_In in Hp. rewrite Hkeep in Hp.
    apply filter_In in Hp as [Hp Hk]. rewrite (Hsign p Hp) in Hk.
    apply Qlt_bool_iff in Hk.
    destruct (Qlt_le_dec 0 (the_Q (rating p))) as [Hr|Hr]; [now left|right].
    apply text_score_positive. apply Z.ltb_lt.
    assert (H0 : (0 < inject_Z (text_score_spec p (tokenize q)))%Q) by lra.
    change 0%Q with (inject_Z 0) in H0. now rewrite <- Zlt_Qlt in H0.
Qed.

Lemma sample_ratings_fin :
  forall p, In p (products sample_cache) -> is_fin (rating p).
Proof.
  intros p Hp. cbn in Hp.
  repeat (destruct Hp as [<-|Hp]; [vm_compute; reflexivity|]). destruct Hp.
Qed.

Lemma sample_query_scores :
  forall p, In p (products sample_cache) ->
    is_fin (rating p) /\ exists v, query_score (tokenize "gaming") p = Fin v.
Proof.
  intros p Hp. split; [now apply sample_ratings_fin|]. cbn in Hp.
  repeat (destruct Hp as [<-|Hp]; [eexists; vm_compute; reflexivity|]).
  destruct Hp.
Qed.

Lemma getRecommendations_by_query_witness :
  exists ranked,
    getRecommendations sample_cache None (Some "gaming") = firstn 6 ranked /\
    ranking (query_key (tokenize "gaming"))
      (List.filter (fun p => Qlt_bool 0 (query_key (tokenize "gaming") p))
         (products sample_cache))
      ranked /\
    (forall p, In p (products sample_cache) -> (0 < the_Q (rating p))%Q ->
               In p ranked) /\
    (forall p, In p ranked ->
               (0 < the_Q (rating p))%Q \/
               exists t, In t (tokenize "gaming") /\ appears t (haystack p)).
Proof.
  apply (getRecommendations_by_query sample_cache None (Some "gaming") "gaming"
           eq_refl eq_refl sample_query_scores).
Defined.

(** X16.  Without a known product and without a query, the answer is the
    six first of the catalog ranked by rating, products of equal rating in
    the order of the catalog. *)
Theorem getRecommendations_fallback (c : Cache) (productId query : option string) :
  base_product c productId = None ->
  truthy_arg query = None ->
  (forall p, In p (products c) -> is_fin (rating p)) ->
  exists ranked,
    getRecommendations c productId query = firstn 6 ranked /\
    ranking (fun p => the_Q (rating p)) (products c) ranked.
Proof.
  intros Hb Hq Hfin.
  exists (js_sort (fun a b => num_sub (rating b) (rating a)) (products c)).
  split.
  - rewrite getRecommendations_modes, Hb, Hq.
    now destruct (truthy_arg productId).
  - apply js_sort_ranking. intros p Hp. apply is_fin_grid, Hfin, Hp.
Qed.

Lemma getRecommendations_fallback_witness :
  exists ranked,
    getRecommendations sample_cache (Some "nothing") (Some "") = firstn 6 ranked /\
    ranking (fun p => the_Q (rating p)) (products sample_cache) ranked.
Proof.
  apply (getRecommendations_fallback sample_cache (Some "nothing") (Some "")
           eq_refl eq_refl sample_ratings_fin).
Defined.

Lemma num_lt_irrefl (x : number) : num_lt x x = false.
Proof.
  destruct x as [| | |q]; try reflexivity. cbn [num_lt].
  apply Qlt_bool_false. lra.
Qed.

(** Printing with two decimals keeps the order of finite numbers. *)
Lemma toFixed2_mono (a b : Q) :
  (a <= b)%Q -> num_le (toFixed2 (Fin a)) (toFixed2 (Fin b)) = true.
Proof. intros H. cbn [toFixed2]. now apply round64_mono, round2_mono. Qed.

(** X17.  For a known product [getPriceComparison] throws a [RangeError]
    when the recorded modification time is not a valid date, and otherwise
    returns the product with [updated_at] the modification time cut to whole
    milliseconds.  The products listed as cheaper are other products of the
    catalog, of the same category and of a strictly lower price; there is
    none exactly when no product of the category is cheaper.  With finite
    prices the printed price of the product lies between the minimum and
    the maximum that are returned. *)
Theorem getPriceComparison_bounds (c : Cache) (lm : number) (productId : string)
    (product : Product) :
  consistent c ->
  productById c !! productId = Some product ->
  In product (products c) /\ prod_id product = productId /\
  (TimeClip lm = None -> getPriceComparison c lm productId = Throw RangeError) /\
  (forall t, TimeClip lm = Some t ->
     exists r,
       getPriceComparison c lm productId = Ok (Some r) /\
       base r = product /\ updated_at r = t /\
       (forall p, In p (cheaper r) ->
          In p (products c) /\ category p = category product /\
          num_lt (price p) (price product) = true /\ p <> product) /\
       (cheaper r = [] <->
        forall p, In p (products c) -> category p = category product ->
                  num_lt (price p) (price product) = false) /\
       ((forall p, In p (products c) -> is_fin (price p)) ->
        num_le (min r) (toFixed2 (price product)) = true /\
        num_le (toFixed2 (price product)) (max r) = true)).
Proof.
  intros [Hidx _] Hget.
  assert (Hin : In product (products c) /\ prod_id product = productId).
  { apply index_products_Some. now rewrite <- Hidx. }
  destruct Hin as [Hin Hid].
  split; [exact Hin|]. split; [exact Hid|]. split.
  { intros Ht. unfold getPriceComparison, toISOString. now rewrite Hget, Ht. }
  intros t Ht. unfold getPriceComparison, toISOString. rewrite Hget, Ht.
  fold (peers c product). fold (cheaper_peers c product).
  eexists. split; [reflexivity|]. cbn [base min max avg cheaper updated_at].
  split; [reflexivity|]. split; [reflexivity|]. split; [|split].
  - intros p Hp. unfold slice0 in Hp. apply firstn_In, js_sort_In in Hp.
    apply filter_In in Hp as [Hp Hcheap].
    apply filter_In in Hp as [Hp Hcat]. apply String.eqb_eq in Hcat.
    repeat split; try assumption. intros ->.
    rewrite num_lt_irrefl in Hcheap. discriminate.
  - unfold slice0. split.
    + intros Hnil p Hp Hcat.
      destruct (num_lt (price p) (price product)) eqn:Hless; [exfalso|reflexivity].
      assert (Hc : In p (cheaper_peers c product)).
      { apply filter_In. split; [|exact Hless].
        apply filter_In. split; [exact Hp | now apply String.eqb_eq]. }
      apply (js_sort_In (fun a b => num_sub (price a) (price b))) in Hc.
      destruct (js_sort _ (cheaper_peers c product)) as [|x l];
        [destruct Hc | discriminate Hnil].
    + intros Hall.
      destruct (cheaper_peers c product) as [|p l] eqn:E; [reflexivity|].
      exfalso.
      assert (Hc : In p (cheaper_peers c product)) by (rewrite E; now left).
      apply filter_In in Hc as [Hp Hcheap].
      apply filter_In in Hp as [Hp Hcat]. apply String.eqb_eq in Hcat.
      rewrite (Hall p Hp Hcat) in Hcheap. discriminate.
  - intros Hfin.
    assert (Hpeer : In product (peers c product)).
    { apply filter_In. split; [exact Hin | apply String.eqb_refl]. }
    assert (Hpf : forall p, In p (peers c product) -> is_fin (price p)).
    { intros p Hp. apply Hfin. now apply filter_In in Hp as [Hp _]. }
    rewrite (fin_prices _ Hpf).
    set (qs := map (fun p => the_Q (price p)) (peers c product)).
    assert (Hbase : In (the_Q (price product)) qs).
    { subst qs. exact (in_map (fun p => the_Q (price p)) _ _ Hpeer). }
    assert (Hqs : exists q qs', qs = q :: qs').
    { destruct qs as [|q qs']; [destruct Hbase | eauto]. }
    destruct Hqs as (q & qs' & Hqs).
    destruct (Math_min_fin q qs') as (lo & Hmin & Hlo & Hlo').
    destruct (Math_max_fin q qs') as (hi & Hmax & Hhi & Hhi').
    rewrite <- Hqs in Hmin, Hmax, Hlo, Hlo', Hhi, Hhi'.
    rewrite Hmin, Hmax.
    specialize (Hfin product Hin).
    destruct (price product) as [| | |pq]; try contradiction.
    cbn [the_Q] in Hbase.
    split; apply toFixed2_mono; [now apply Hlo' | now apply Hhi'].
Qed.

Lemma sample_prices_fin :
  forall p, In p (products sample_cache) -> is_fin (price p).
Proof.
  intros p Hp. cbn in Hp.
  repeat (destruct Hp as [<-|Hp]; [vm_compute; reflexivity|]). destruct Hp.
Qed.

Lemma getPriceComparison_bounds_witness :
  exists r,
    getPriceComparison sample_cache (Fin (5005 # 10)) "S2" = Ok (Some r) /\
    updated_at r = 500%Z /\
    num_le (min r) (toFixed2 (price (base r))) = true /\
    num_le (toFixed2 (price (base r))) (max r) = true.
Proof.
  destruct (getPriceComparison_bounds sample_cache (Fin (5005 # 10)) "S2"
              (product_of_row
                 (ProductRow.mk "S2" "Midi" "Sono" "speaker" "70"
                    "room speaker" "2" "4.1"))
              (snapshot_consistent _ _ _) eq_refl)
    as (_ & _ & _ & H).
  destruct (H 500%Z eq_refl) as (r & H1 & H2 & H3 & _ & _ & H4).
  exists r. rewrite H2. split; [exact H1|]. split; [exact H3|].
  exact (H4 sample_prices_fin).
Defined.

Lemma round64_not_NaN (q : Q) : round64 q <> NaN.
Proof.
  unfold round64, round_pos. destruct (Qnum q); [discriminate| |];
    match goal with
    | |- context [if ?b then PInf else _] => destruct b
    end; discriminate.
Qed.

(** What is not negative rounds to a number that is not negative, or
    overflows. *)
Lemma round64_nonneg (q : Q) :
  (0 <= q)%Q -> round64 q = PInf \/ exists e, round64 q = Fin e /\ (0 <= e)%Q.
Proof.
  intros H. apply round64_mono in H. change (round64 0) with (Fin 0) in H.
  destruct (round64 q) as [| | |e]; cbn [num_le] in H; try discriminate.
  - now left.
  - right. exists e. split; [reflexivity | now apply Qle_bool_iff].
Qed.

(** The part of the score that compares the prices lies between 0 and 1. *)
Lemma price_score_unit (cp bp : Q) :
  exists u,
    num_sub (Fin 1)
      (Math_min [num_div (num_abs (num_sub (Fin cp) (Fin bp)))
                   (Math_max [Fin bp; Fin 1]); Fin 1]) = Fin u /\
    (0 <= u <= 1)%Q.
Proof.
  assert (Hm : exists m, Math_max [Fin bp; Fin 1] = Fin m /\ (0 < m)%Q).
  { unfold Math_max. cbn [fold_left max2 num_le].
    destruct (Qle_bool bp 1) eqn:E; eexists; (split; [reflexivity|]); [lra|].
    destruct (Qlt_le_dec 0 bp) as [H|H]; [exact H|].
    assert (Qle_bool bp 1 = true) by (apply Qle_bool_iff; lra). congruence. }
  destruct Hm as (m & -> & Hm).
  assert (Hd : num_abs (num_sub (Fin cp) (Fin bp)) = PInf \/
               exists d, num_abs (num_sub (Fin cp) (Fin bp)) = Fin d /\ (0 <= d)%Q).
  { rewrite num_sub_fin. pose proof (round64_not_NaN (cp - bp)) as HN.
    destruct (round64 (cp - bp)) as [| | |d]; cbn [num_abs];
      [congruence | now left | now left |].
    right. exists (Qabs d). split; [reflexivity | apply Qabs_nonneg]. }
  assert (Hq : exists t,
             Math_min [num_div (num_abs (num_sub (Fin cp) (Fin bp))) (Fin m); Fin 1]
             = Fin t /\ (0 <= t <= 1)%Q).
  { assert (Hgt : (m ?= 0)%Q = Gt) by now apply Qgt_alt.
    assert (Hz : Qeq_bool m 0 = false).
    { destruct (Qeq_bool m 0) eqn:E; [|reflexivity].
      apply Qeq_bool_iff in E. lra. }
    assert (Hone : forall x,
               x = PInf \/ (exists e, x = Fin e /\ (0 <= e)%Q) ->
               exists t, Math_min [x; Fin 1] = Fin t /\ (0 <= t <= 1)%Q).
    { intros x [->|(e & -> & He)]; unfold Math_min; cbn [fold_left min2 num_le].
      - exists 1%Q. split; [reflexivity | lra].
      - destruct (Qle_bool e 1) eqn:E.
        + exists e. split; [reflexivity|]. apply Qle_bool_iff in E. lra.
        + exists 1%Q. split; [reflexivity | lra]. }
    apply Hone. destruct Hd as [->|(d & -> & Hd)].
    - left. cbn [num_div num_sign]. now rewrite Hgt.
    - cbn [num_div]. rewrite Hz. apply round64_nonneg.
      apply Qle_shift_div_l; [exact Hm | lra]. }
  destruct Hq as (t & -> & Ht). rewrite num_sub_fin.
  destruct (round64_between (1 - t) 0 1) as (u & -> & Hu); [lia | lia | |].
  { change (inject_Z 0) with 0%Q. change (inject_Z 1) with 1%Q. lra. }
  exists u. split; [reflexivity | exact Hu].
Qed.

(** X18.  For a candidate whose rating is a number from 0 to 5, and prices
    that are finite numbers, the score computed by [scoreRecommendation] is
    a finite number from 0 to 12, whatever the rounding of its operations:
    at least 1 for a candidate in stock and at most 11 for one that is not. *)
Theorem scoreRecommendation_bounds (baseProduct candidate : Product)
    (r cp bp : Q) :
  rating candidate = Fin r -> (0 <= r <= 5)%Q ->
  price candidate = Fin cp -> price baseProduct = Fin bp ->
  exists v,
    scoreRecommendation baseProduct candidate = Fin v /\
    (0 <= v <= 12)%Q /\
    (num_gt (stock candidate) (Fin 0) = true -> (1 <= v)%Q) /\
    (num_gt (stock candidate) (Fin 0) = false -> (v <= 11)%Q).
Proof.
  intros Hr Hr5 Hcp Hbp. unfold scoreRecommendation. rewrite Hr, Hcp, Hbp.
  destruct (price_score_unit cp bp) as (u & -> & Hu).
  assert (Ha : exists a, num_mul (num_or (Fin r) (Fin 0)) (Fin 2) = Fin a /\
                         (0 <= a <= 10)%Q).
  { unfold num_or, truthy_num.
    destruct (Qeq_bool r 0); cbn [negb num_mul];
      apply (round64_between _ 0 10); try lia;
      change (inject_Z 0) with 0%Q; change (inject_Z 10) with 10%Q; lra. }
  destruct Ha as (a & -> & Ha). cbn [num_add].
  destruct (round64_between (a + u) 0 11) as (w & -> & Hw); [lia | lia | |].
  { change (inject_Z 0) with 0%Q. change (inject_Z 11) with 11%Q. lra. }
  change (inject_Z 0) with 0%Q in Hw. change (inject_Z 11) with 11%Q in Hw.
  destruct (num_gt (stock candidate) (Fin 0)); cbn [num_add].
  - destruct (round64_between (w + 1) 1 12) as (v & -> & Hv); [lia | lia | |].
    { change (inject_Z 1) with 1%Q. change (inject_Z 12) with 12%Q. lra. }
    change (inject_Z 1) with 1%Q in Hv. change (inject_Z 12) with 12%Q in Hv.
    exists v. split; [reflexivity|]. split; [lra|]. split; [lra | discriminate].
  - destruct (round64_between (w + 0) 0 11) as (v & -> & Hv); [lia | lia | |].
    { change (inject_Z 0) with 0%Q. change (inject_Z 11) with 11%Q. lra. }
    change (inject_Z 0) with 0%Q in Hv. change (inject_Z 11) with 11%Q in Hv.
    exists v. split; [reflexivity|]. split; [lra|]. split; [discriminate | lra].
Qed.

Lemma scoreRecommendation_bounds_witness :
  exists v,
    scoreRecommendation
      (product_of_row
         (ProductRow.mk "L0" "Base" "Acme" "laptop" "100" "work laptop" "3" "4"))
      (product_of_row
         (ProductRow.mk "LB" "B" "Bolt" "laptop" "300" "gaming laptop" "0" "5"))
    = Fin v /\ (0 <= v <= 12)%Q.
Proof.
  destruct (scoreRecommendation_bounds
              (product_of_row
                 (ProductRow.mk "L0" "Base" "Acme" "laptop" "100" "work laptop"
                    "3" "4"))
              (product_of_row
                 (ProductRow.mk "LB" "B" "Bolt" "laptop" "300" "gaming laptop"
                    "0" "5"))
              5 300 100 eq_refl ltac:(split; discriminate) eq_refl eq_refl)
    as (v & H1 & H2 & _).
  exists v. now split.
Defined.

(* ================================================================== *)
(** * Facts about the request layer *)
(* ================================================================== *)

Lemma toLowerCase_idem (s : string) : toLowerCase (toLowerCase s) = toLowerCase s.
Proof.
  unfold toLowerCase. rewrite map_string_map. apply map_string_ext.
  apply lower_char_idem.
Qed.

Lemma includes_any3 (text a b d : string) :
  includes text a || includes text b || includes text d = true <->
  exists w, In w [a; b; d] /\ appears w text.
Proof.
  rewrite !orb_true_iff, !includes_appears. split.
  - intros [[H|H]|H]; eexists; (split; [|exact H]); cbn; auto.
  - intros (w & [<-|[<-|[<-|[]]]] & H); auto.
Qed.

(** X19.  [detectIntent] answers one of five intents and does not depend on
    the case of the message.  The groups of words are tried in the order
    policy, review, price, recommend: a message is given the first group one
    of whose words occurs in it, as a word or inside one, and is a search
    when none does. *)
Theorem detectIntent_spec (message : string) :
  In (detectIntent message) ["policy"; "review"; "price"; "recommend"; "search"] /\
  detectIntent (toLowerCase message) = detectIntent message /\
  (detectIntent message = "policy" <-> mentions policy_words message) /\
  (detectIntent message = "review" <->
   ~ mentions policy_words message /\ mentions review_words message) /\
  (detectIntent message = "price" <->
   ~ mentions policy_words message /\ ~ mentions review_words message /\
   mentions price_words message) /\
  (detectIntent message = "recommend" <->
   ~ mentions policy_words message /\ ~ mentions review_words message /\
   ~ mentions price_words message /\ mentions recommend_words message) /\
  (detectIntent message = "search" <->
   ~ mentions policy_words message /\ ~ mentions review_words message /\
   ~ mentions price_words message /\ ~ mentions recommend_words message).
Proof.
  split; [|split].
  - unfold detectIntent.
    repeat match goal with
           | |- context [if ?b then _ else _] => destruct b
           end; cbn; tauto.
  - unfold detectIntent. now rewrite toLowerCase_idem.
  - pose proof (includes_any3 (toLowerCase message) "policy" "return" "warranty")
      as H1.
    pose proof (includes_any3 (toLowerCase message) "review" "summary" "sentiment")
      as H2.
    pose proof (includes_any3 (toLowerCase message) "compare" "price" "cheaper")
      as H3.
    pose proof (includes_any3 (toLowerCase message) "recommend" "suggest" "similar")
      as H4.
    fold (mentions policy_words message) in H1.
    fold (mentions review_words message) in H2.
    fold (mentions price_words message) in H3.
    fold (mentions recommend_words message) in H4.
    unfold detectIntent.
    destruct (includes (toLowerCase message) "policy"
              || includes (toLowerCase message) "return"
              || includes (toLowerCase message) "warranty") eqn:E1;
      [|destruct (includes (toLowerCase message) "review"
                  || includes (toLowerCase message) "summary"
                  || includes (toLowerCase message) "sentiment") eqn:E2;
        [|destruct (includes (toLowerCase message) "compare"
                    || includes (toLowerCase message) "price"
                    || includes (toLowerCase message) "cheaper") eqn:E3;
          [|destruct (includes (toLowerCase message) "recommend"
                      || includes (toLowerCase message) "suggest"
                      || includes (toLowerCase message) "similar") eqn:E4]]];
      repeat match goal with
             | H : true = true <-> ?P |- _ =>
                 assert P by (apply H; reflexivity); clear H
             | H : false = true <-> ?P |- _ =>
                 assert (~ P) by (intros X; apply H in X; discriminate); clear H
             end;
      repeat split; intros; try discriminate; try tauto.
Qed.

Lemma run_bind_ret {A B : Type} (q : M A) (k : A -> M B) (g : A -> B)
    (s : Store) (evs : list event) :
  (forall a s', k a s' = Ret (Ok (g a), s')) ->
  run ((x <- q ;; k x) s) evs
  = (fun out : result A * Store =>
       match out with
       | (Ok a, s') => (Ok (g a), s')
       | (Throw e, s') => (Throw e, s')
       end) <$> run (q s) evs.
Proof.
  intros Hk. unfold bind. apply run_io_bind_pure.
  intros [[a|e] s']; [apply Hk | reflexivity].
Qed.

Lemma run_ret {A : Type} (a : A) (s : Store) (evs : list event)
    (r : result A * Store) :
  run (ret a s) evs = Some r <-> evs = [] /\ r = (Ok a, s).
Proof.
  unfold ret. cbn [run]. destruct evs; split.
  - intros [= <-]. now split.
  - intros [_ ->]. reflexivity.
  - discriminate.
  - intros [H _]. discriminate.
Qed.

(** A handler that asks one query and answers from its value. *)
Lemma handler_fresh {A : Type} (q : M A) (k : A -> M Response)
    (g : A -> Response) (body : Cache -> Store -> A)
    (s s' : Store) (c : Cache) (evs : list event) :
  (forall a s1, k a s1 = Ret (Ok (g a), s1)) ->
  run (q s) evs = answer body <$> run (ensureFresh s) evs ->
  fresh s evs s' c ->
  responds (x <- q ;; k x) s evs (g (body c s')) s'.
Proof.
  intros Hk Hq [Hrun Hc]. unfold responds.
  rewrite (run_bind_ret q k g s evs Hk), Hq, Hrun. cbn. now rewrite Hc.
Qed.

Lemma handler_throws {A : Type} (q : M A) (k : A -> M Response)
    (g : A -> Response) (body : Cache -> Store -> A)
    (s s' : Store) (e : error) (evs : list event) :
  (forall a s1, k a s1 = Ret (Ok (g a), s1)) ->
  run (q s) evs = answer body <$> run (ensureFresh s) evs ->
  run (ensureFresh s) evs = Some (Throw e, s') ->
  run ((x <- q ;; k x) s) evs = Some (Throw e, s').
Proof.
  intros Hk Hq Hrun.
  rewrite (run_bind_ret q k g s evs Hk), Hq, Hrun. reflexivity.
Qed.

Lemma sample_fresh : fresh sample_store [ENow 2000] sample_store sample_cache.
Proof. split; reflexivity. Qed.

(** A handler that asks one query whose body may throw. *)
Lemma handler_fresh_try {A : Type} (q : M A) (k : A -> M Response)
    (g : A -> Response) (body : Cache -> Store -> result A)
    (s s' : Store) (c : Cache) (evs : list event) :
  (forall a s1, k a s1 = Ret (Ok (g a), s1)) ->
  run (q s) evs = answer_try body <$> run (ensureFresh s) evs ->
  fresh s evs s' c ->
  run ((x <- q ;; k x) s) evs
  = Some (match body c s' with
          | Ok a => Ok (g a)
          | Throw e => Throw e
          end, s').
Proof.
  intros Hk Hq [Hrun Hc].
  rewrite (run_bind_ret q k g s evs Hk), Hq, Hrun. cbn. rewrite Hc.
  now destruct (body c s').
Qed.

Lemma handler_throws_try {A : Type} (q : M A) (k : A -> M Response)
    (g : A -> Response) (body : Cache -> Store -> result A)
    (s s' : Store) (e : error) (evs : list event) :
  (forall a s1, k a s1 = Ret (Ok (g a), s1)) ->
  run (q s) evs = answer_try body <$> run (ensureFresh s) evs ->
  run (ensureFresh s) evs = Some (Throw e, s') ->
  run ((x <- q ;; k x) s) evs = Some (Throw e, s').
Proof.
  intros Hk Hq Hrun.
  rewrite (run_bind_ret q k g s evs Hk), Hq, Hrun. reflexivity.
Qed.

(** X20.  [GET /api/price-compare] answers 400 when the identifier is missing
    or empty, and then reads neither the clock nor the files.  Otherwise, on
    a snapshot, it answers 404 when the identifier is not in the index, which
    is when no product of the catalog has it; when a product has it, it
    answers 200 with the comparison of that product, [updated_at] being the
    modification time of the store cut to whole milliseconds, unless that
    time is not a valid date: the [RangeError] then escapes the handler, as
    does an error of the reload. *)
Theorem price_compare_status (s : Store) (productId : option string)
    (evs : list event) :
  (truthy_arg productId = None ->
   forall r, run (Server.price_compare productId s) evs = Some r <->
             evs = [] /\ r = (Ok (fail 400 "productId required"), s)) /\
  (forall pid s' c,
     truthy_arg productId = Some pid -> fresh s evs s' c -> consistent c ->
     match productById c !! pid with
     | None =>
         (forall p, In p (products c) -> prod_id p <> pid) /\
         responds (Server.price_compare productId) s evs
           (fail 404 "product not found") s'
     | Some product =>
         In product (products c) /\ prod_id product = pid /\
         match TimeClip (lastModified s') with
         | Some t =>
             exists r,
               responds (Server.price_compare productId) s evs
                 (json (BComparison r)) s' /\
               getPriceComparison c (lastModified s') pid = Ok (Some r) /\
               base r = product /\ updated_at r = t
         | None =>
             run (Server.price_compare productId s) evs
             = Some (Throw RangeError, s')
         end
     end) /\
  res_status (fail 404 "product not found") = 404 /\
  (forall r, res_status (json (BComparison r)) = 200) /\
  (forall pid s' e,
     truthy_arg productId = Some pid ->
     run (ensureFresh s) evs = Some (Throw e, s') ->
     run (Server.price_compare productId s) evs = Some (Throw e, s')).
Proof.
  pose proof (api_answers s evs) as (_ & _ & _ & Hapi & _).
  set (g := fun comparison : option PriceComparison =>
              match comparison with
              | None => fail 404 "product not found"
              | Some r => json (BComparison r)
              end).
  assert (Hk : forall (a : option PriceComparison) (s1 : Store),
             match a with
             | None => ret (fail 404 "product not found")
             | Some r => ret (json (BComparison r))
             end s1 = Ret (Ok (g a), s1))
    by (intros [r|] s1; reflexivity).
  split; [|split; [|split; [reflexivity|split; [reflexivity|]]]].
  - intros Hnone r. unfold Server.price_compare. rewrite Hnone. apply run_ret.
  - intros pid s' c Hpid Hfresh [Hidx _].
    assert (Hrun : run (Server.price_compare productId s) evs
                   = Some (match getPriceComparison c (lastModified s') pid with
                           | Ok a => Ok (g a)
                           | Throw e => Throw e
                           end, s')).
    { unfold Server.price_compare. rewrite Hpid.
      exact (handler_fresh_try _ _ g _ s s' c evs Hk (Hapi pid) Hfresh). }
    unfold responds. rewrite Hrun. unfold getPriceComparison, toISOString.
    destruct (productById c !! pid) as [product|] eqn:E.
    + rewrite Hidx in E. apply index_products_Some in E as [Hin Hid].
      split; [exact Hin|]. split; [exact Hid|].
      destruct (TimeClip (lastModified s')) as [t|]; [|reflexivity].
      eexists. repeat split; reflexivity.
    + split; [|reflexivity]. rewrite Hidx in E.
      now apply index_products_None.
  - intros pid s' e Hpid Hrun. unfold Server.price_compare. rewrite Hpid.
    exact (handler_throws_try _ _ g _ s s' e evs Hk (Hapi pid) Hrun).
Qed.

Lemma price_compare_status_witness :
  exists r,
    responds (Server.price_compare (Some "S3")) sample_store [ENow 2000]
      (json (BComparison r)) sample_store /\
    getPriceComparison sample_cache (lastModified sample_store) "S3"
    = Ok (Some r).
Proof.
  pose proof (proj1 (proj2 (price_compare_status sample_store (Some "S3")
                              [ENow 2000]))
                "S3" sample_store sample_cache eq_refl sample_fresh
                (snapshot_consistent _ _ _)) as H.
  destruct (productById sample_cache !! "S3") as [product|] eqn:E;
    [|vm_compute in E; discriminate].
  destruct H as (_ & _ & H).
  destruct (TimeClip (lastModified sample_store)) as [t|] eqn:Et;
    [|vm_compute in Et; discriminate].
  destruct H as (r & H1 & H2 & _). exists r. now split.
Defined.

(** X21.  [GET /api/reviews/summary] answers 400 when the identifier is
    missing or empty, without reading the clock or the files; for any other
    identifier it answers 200, with the summary of the reviews that name it:
    an identifier no review names is not an error, its summary counts no
    review. *)
Theorem reviews_summary_status (s : Store) (productId : option string)
    (evs : list event) :
  (truthy_arg productId = None ->
   forall r, run (Server.reviews_summary productId s) evs = Some r <->
             evs = [] /\ r = (Ok (fail 400 "productId required"), s)) /\
  (forall pid s' c,
     truthy_arg productId = Some pid -> fresh s evs s' c -> consistent c ->
     responds (Server.reviews_summary productId) s evs
       (json (BSummary (summarizeReviews (reviews_of pid (reviews c))))) s' /\
     total_reviews (summarizeReviews (reviews_of pid (reviews c)))
     = length (reviews_of pid (reviews c))).
Proof.
  pose proof (api_answers s evs) as (_ & _ & Hapi & _).
  split.
  - intros Hnone r. unfold Server.reviews_summary. rewrite Hnone. apply run_ret.
  - intros pid s' c Hpid Hfresh Hcons. split; [|apply total_reviews_length].
    unfold Server.reviews_summary. rewrite Hpid.
    assert (Hsum : getReviewSummary c pid
                   = summarizeReviews (reviews_of pid (reviews c))).
    { unfold getReviewSummary. destruct Hcons as [_ ->].
      rewrite group_reviews_lookup.
      destruct (reviews_of pid (reviews c)); reflexivity. }
    rewrite <- Hsum.
    exact (handler_fresh _ (fun summary => ret (json (BSummary summary)))
             (fun summary => json (BSummary summary))
             (fun c _ => getReviewSummary c pid) s s' c evs
             ltac:(reflexivity) (Hapi pid) Hfresh).
Qed.

Lemma reviews_summary_status_witness :
  responds (Server.reviews_summary (Some "unknown")) sample_store [ENow 2000]
    (json (BSummary
             (summarizeReviews (reviews_of "unknown" (reviews sample_cache)))))
    sample_store /\
  total_reviews (summarizeReviews (reviews_of "unknown" (reviews sample_cache)))
  = length (reviews_of "unknown" (reviews sample_cache)).
Proof.
  apply (proj2 (reviews_summary_status sample_store (Some "unknown")
                  [ENow 2000])
           "unknown" sample_store sample_cache eq_refl sample_fresh
           (snapshot_consistent _ _ _)).
Defined.

Lemma policy_by_category_cases (c : Cache) (cat : string) :
  (exists n p, getPolicyByCategory c cat = Some p /\ policy_name cat = Some n /\
               In p (policies c) /\ policy_description p = n) \/
  (getPolicyByCategory c cat = None /\
   forall n, policy_name cat = Some n ->
             forall p, In p (policies c) -> policy_description p <> n).
Proof.
  unfold getPolicyByCategory.
  destruct (List.find (description_is (policy_name cat)) (policies c))
    as [p|] eqn:E.
  - left. apply List.find_some in E as [Hin Hd].
    destruct (policy_name cat) as [n|]; [|discriminate].
    cbn [description_is] in Hd. apply String.eqb_eq in Hd. eauto 6.
  - right. split; [reflexivity|]. intros n Hn p Hp Hd.
    pose proof (List.find_none _ _ E p Hp) as Hf. rewrite Hn in Hf.
    cbn [description_is] in Hf. apply String.eqb_neq in Hf. contradiction.
Qed.

(** X22.  [GET /api/policy] looks at the product first: with an identifier
    the category of the request is not looked at, and the policy is that of
    the category of the product; an unknown product, a category without a
    policy name and a name no policy carries all answer 404 [policy not
    found].  Without an identifier the category of the request is used, and
    without both the answer is 400, before the clock or a file is read. *)
Theorem policy_status (s : Store) (productId categoryName : option string)
    (evs : list event) :
  (truthy_arg productId = None -> truthy_arg categoryName = None ->
   forall r, run (Server.policy productId categoryName s) evs = Some r <->
             evs = [] /\
             r = (Ok (fail 400 "productId or category required"), s)) /\
  (forall pid,
     truthy_arg productId = Some pid ->
     Server.policy productId categoryName = Server.policy productId None) /\
  (forall pid s' c,
     truthy_arg productId = Some pid -> fresh s evs s' c -> consistent c ->
     exists resp,
       responds (Server.policy productId categoryName) s evs resp s' /\
       ((res_status resp = 200 /\
         exists product n p,
           In product (products c) /\ prod_id product = pid /\
           policy_name (category product) = Some n /\
           In p (policies c) /\ policy_description p = n /\
           res_body resp = BPolicy p)
        \/
        (res_status resp = 404 /\ res_body resp = BError "policy not found" /\
         ((forall p, In p (products c) -> prod_id p <> pid) \/
          exists product,
            In product (products c) /\ prod_id product = pid /\
            forall n, policy_name (category product) = Some n ->
                      forall p, In p (policies c) -> policy_description p <> n)))) /\
  (forall cat s' c,
     truthy_arg productId = None -> truthy_arg categoryName = Some cat ->
     fresh s evs s' c ->
     exists resp,
       responds (Server.policy productId categoryName) s evs resp s' /\
       ((res_status resp = 200 /\
         exists n p,
           policy_name cat = Some n /\ In p (policies c) /\
           policy_description p = n /\ res_body resp = BPolicy p)
        \/
        (res_status resp = 404 /\ res_body resp = BError "policy not found" /\
         forall n, policy_name cat = Some n ->
                   forall p, In p (policies c) -> policy_description p <> n))).
Proof.
  pose proof (api_answers s evs) as (_ & _ & _ & _ & HapiP & HapiC & _).
  set (g := fun policy : option Policy =>
              match policy with
              | None => fail 404 "policy not found"
              | Some p => json (BPolicy p)
              end).
  assert (Hk : forall (a : option Policy) (s1 : Store),
             match a with
             | None => ret (fail 404 "policy not found")
             | Some p => ret (json (BPolicy p))
             end s1 = Ret (Ok (g a), s1))
    by (intros [p|] s1; reflexivity).
  split; [|split; [|split]].
  - intros Hp Hc r. unfold Server.policy. rewrite Hp, Hc. apply run_ret.
  - intros pid Hpid. unfold Server.policy. now rewrite Hpid.
  - intros pid s' c Hpid Hfresh [Hidx _].
    exists (g (getPolicyForProduct c pid)). split.
    + unfold Server.policy. rewrite Hpid.
      exact (handler_fresh _ _ g _ s s' c evs Hk (HapiP pid) Hfresh).
    + unfold getPolicyForProduct. rewrite Hidx.
      destruct (index_products (products c) !! pid) as [product|] eqn:E.
      * apply index_products_Some in E as [Hin Hid].
        fold (getPolicyByCategory c (category product)).
        destruct (policy_by_category_cases c (category product))
          as [(n & p & -> & Hn & Hp & Hd)|[-> Hno]].
        -- left. split; [reflexivity|]. exists product, n, p. now repeat split.
        -- right. split; [reflexivity|]. split; [reflexivity|]. right.
           exists product. now repeat split.
      * right. split; [reflexivity|]. split; [reflexivity|]. left.
        now apply index_products_None.
  - intros cat s' c Hp Hc Hfresh.
    exists (g (getPolicyByCategory c cat)). split.
    + unfold Server.policy. rewrite Hp, Hc.
      exact (handler_fresh _ _ g _ s s' c evs Hk (HapiC cat) Hfresh).
    + destruct (policy_by_category_cases c cat)
        as [(n & p & -> & Hn & Hin & Hd)|[-> Hno]].
      * left. split; [reflexivity|]. exists n, p. now repeat split.
      * right. now repeat split.
Qed.

Lemma policy_status_witness :
  exists resp,
    responds (Server.policy (Some "LB") (Some "speaker")) sample_store
      [ENow 2000] resp sample_store /\
    ((res_status resp = 200 /\
      exists product n p,
        In product (products sample_cache) /\ prod_id product = "LB" /\
        policy_name (category product) = Some n /\
        In p (policies sample_cache) /\ policy_description p = n /\
        res_body resp = BPolicy p)
     \/
     (res_status resp = 404 /\ res_body resp = BError "policy not found" /\
      ((forall p, In p (products sample_cache) -> prod_id p <> "LB") \/
       exists product,
         In product (products sample_cache) /\ prod_id product = "LB" /\
         forall n, policy_name (category product) = Some n ->
                   forall p, In p (policies sample_cache) ->
                             policy_description p <> n))).
Proof.
  apply (proj1 (proj2 (proj2 (policy_status sample_store (Some "LB")
                                (Some "speaker") [ENow 2000])))
           "LB" sample_store sample_cache eq_refl sample_fresh
           (snapshot_consistent _ _ _)).
Defined.

Lemma asNumber_finite (value : option string) (x : number) :
  asNumber value = Some x -> exists v, x = Fin v.
Proof.
  unfold asNumber. destruct value as [v|]; [|discriminate].
  destruct (String.eqb v ""); [discriminate|].
  destruct (Number v) as [| | |v0]; cbn [isFinite]; try discriminate.
  intros [= <-]. eauto.
Qed.

(** X23.  [GET /api/products] answers 200 with the first fifty products of
    [getProducts] for the filters of the request: each is a product of the
    catalog that passes them.  A price bound that is given is a finite
    number, a bound that is missing, empty or not a finite number is left
    out, and only the text [true] asks for products in stock. *)
Theorem products_page (s : Store) (q : Server.ProductsQuery.t) (evs : list event) :
  (forall s' c,
     fresh s evs s' c ->
     exists l,
       responds (Server.products q) s evs (json (BProducts l)) s' /\
       l = firstn 50 (getProducts c (Server.filters_of q)) /\
       (length l <= 50)%nat /\
       (forall p, In p l ->
                  In p (products c) /\ matches (Server.filters_of q) p = true)) /\
  (forall x, Filters.minPrice (Server.filters_of q) = Some x -> exists v, x = Fin v) /\
  (forall x, Filters.maxPrice (Server.filters_of q) = Some x -> exists v, x = Fin v) /\
  (Filters.inStockOnly (Server.filters_of q) = true <->
   Server.ProductsQuery.inStockOnly q = Some "true") /\
  (forall s' e,
     run (ensureFresh s) evs = Some (Throw e, s') ->
     run (Server.products q s) evs = Some (Throw e, s')).
Proof.
  pose proof (api_answers s evs) as (Hapi & _).
  split; [|split; [|split; [|split]]].
  - intros s' c Hfresh. eexists. split; [|split; [reflexivity|split]].
    + unfold Server.products.
      exact (handler_fresh _
               (fun results => ret (json (BProducts (slice0 50 results))))
               (fun results => json (BProducts (slice0 50 results)))
               (fun c _ => getProducts c (Server.filters_of q)) s s' c evs
               ltac:(reflexivity) (Hapi (Server.filters_of q)) Hfresh).
    + unfold slice0. rewrite length_firstn. lia.
    + intros p Hp. unfold slice0 in Hp. apply firstn_In in Hp.
      apply filter_In.
      eapply Permutation_in; [apply getProducts_perm | exact Hp].
  - intros x. apply asNumber_finite.
  - intros x. apply asNumber_finite.
  - unfold Server.filters_of, Server.is_true_text. cbn [Filters.inStockOnly].
    destruct (Server.ProductsQuery.inStockOnly q) as [v|]; split; try discriminate.
    + intros H. apply String.eqb_eq in H. now subst.
    + intros [= ->]. reflexivity.
  - intros s' e Hrun. unfold Server.products.
    exact (handler_throws _
             (fun results => ret (json (BProducts (slice0 50 results))))
             (fun results => json (BProducts (slice0 50 results)))
             (fun c _ => getProducts c (Server.filters_of q)) s s' e evs
             ltac:(reflexivity) (Hapi (Server.filters_of q)) Hrun).
Qed.

Lemma products_page_witness :
  exists l,
    responds
      (Server.products
         (Server.ProductsQuery.mk (Some "speaker") None (Some "60") (Some "abc")
            (Some "true")))
      sample_store [ENow 2000] (json (BProducts l)) sample_store /\
    l = firstn 50
          (getProducts sample_cache
             (Server.filters_of
                (Server.ProductsQuery.mk (Some "speaker") None (Some "60")
                   (Some "abc") (Some "true")))) /\
    (length l <= 50)%nat /\
    (forall p, In p l ->
               In p (products sample_cache) /\
               matches
                 (Server.filters_of
                    (Server.ProductsQuery.mk (Some "speaker") None (Some "60")
                       (Some "abc") (Some "true"))) p = true).
Proof.
  apply (proj1 (products_page sample_store
                  (Server.ProductsQuery.mk (Some "speaker") None (Some "60")
                     (Some "abc") (Some "true"))
                  [ENow 2000])
           sample_store sample_cache sample_fresh).
Defined.

(** X24.  [GET /api/recommendations] has no error of its own: on a snapshot
    it answers 200 for every identifier and query, known or not, with at
    most six products of the catalog. *)
Theorem recommendations_status (s s' : Store) (c : Cache)
    (productId query : option string) (evs : list event) :
  fresh s evs s' c ->
  responds (Server.recommendations productId query) s evs
    (json (BProducts (getRecommendations c productId query))) s' /\
  (length (getRecommendations c productId query) <= 6)%nat /\
  (forall p, In p (getRecommendations c productId query) -> In p (products c)) /\
  (base_product c productId = None ->
   getRecommendations c productId query = getRecommendations c None query).
Proof.
  intros Hfresh.
  pose proof (api_answers s evs) as (_ & Hapi & _).
  split; [|split; [|split]].
  - unfold Server.recommendations.
    exact (handler_fresh _
             (fun results => ret (json (BProducts results)))
             (fun results => json (BProducts results))
             (fun c _ => getRecommendations c productId query)
             s s' c evs ltac:(reflexivity) (Hapi productId query) Hfresh).
  - rewrite getRecommendations_modes.
    destruct (truthy_arg productId) as [pid|];
      [destruct (base_product c productId) as [b|]|];
      try destruct (truthy_arg query) as [q|];
      rewrite length_firstn; lia.
  - intros p. rewrite getRecommendations_modes.
    destruct (truthy_arg productId) as [pid|];
      [destruct (base_product c productId) as [b|]|];
      try destruct (truthy_arg query) as [q|];
      intros H; apply firstn_In, js_sort_In in H;
      try (apply filter_In in H as [H _]); exact H.
  - intros Hb. rewrite !getRecommendations_modes, Hb.
    cbn [base_product truthy_arg]. now destruct (truthy_arg productId).
Qed.

Lemma recommendations_status_witness :
  responds (Server.recommendations (Some "unknown") None) sample_store
    [ENow 2000]
    (json (BProducts (getRecommendations sample_cache (Some "unknown") None)))
    sample_store.
Proof.
  apply (recommendations_status sample_store sample_store sample_cache
           (Some "unknown") None [ENow 2000] sample_fresh).
Defined.

(* ================================================================== *)
(** * Facts about the chat *)
(* ================================================================== *)










Ltac replace_space_step H w :=
  let c := fresh "c" in
  let Hc := fresh "Hc" in
  destruct w as [|c w]; [discriminate H|];
  cbn [replace_space] in H;
  destruct (Ascii.eqb_spec c " ") as [->|Hc]; [discriminate H|];
  injection H as -> H.

Ltac replace_space_end H w :=
  destruct w as [|? w]; [reflexivity|];
  cbn [replace_space] in H; destruct (Ascii.eqb _ " "); discriminate H.

Lemma replace_space_keys (w n : string) :
  policy_name (replace_space w) = Some n ->
  In w chat_categories.
Proof.
  intros H. apply policy_name_table in H.
  unfold CATEGORY_POLICY_MAP in H. cbn [In] in H.
  destruct H as [H|[H|[H|[H|[]]]]]; injection H as H _; symmetry in H;
    unfold chat_categories; cbn [In].
  - left. symmetry. do 6 replace_space_step H w. replace_space_end H w.
  - right; left. symmetry. do 10 replace_space_step H w. replace_space_end H w.
  - do 5 replace_space_step H w.
    destruct w as [|x w]; [discriminate H|]. cbn [replace_space] in H.
    destruct (Ascii.eqb_spec x " ") as [->|Hx].
    + injection H as ->. right; right; right; left. reflexivity.
    + injection H as -> H. do 2 replace_space_step H w.
      right; right; right; right; left. symmetry. replace_space_end H w.
  - right; right; left. symmetry. do 7 replace_space_step H w.
    replace_space_end H w.
Qed.



Lemma truthy_arg_some (message : string) :
  message <> "" -> truthy_arg (Some message) = Some message.
Proof. destruct message; [congruence | reflexivity]. Qed.

Lemma responds_bind_inv {A : Type} (q : M A) (k : A -> M Response)
    (g : A -> Response) (s s' : Store) (evs : list event) (resp : Response) :
  (forall a s1, k a s1 = Ret (Ok (g a), s1)) ->
  responds (x <- q ;; k x) s evs resp s' ->
  exists a, resp = g a.
Proof.
  intros Hk. unfold responds. rewrite (run_bind_ret q k g s evs Hk).
  destruct (run (q s) evs) as [[[a|e] s1]|]; cbn; intros [=]; eauto.
Qed.

Lemma run_ret_bind {A B : Type} (a : A) (k : A -> M B) (s : Store) :
  (x <- ret a ;; k x) s = k a s.
Proof. reflexivity. Qed.

(** What the chat answers from a policy that was, or was not, found. *)
Lemma chat_policy_k (intent : string) (a : option Policy) (s1 : Store) :
  match a with
  | Some p =>
      ret (json (BChat (ReplyPolicy (policy_description p) (timeframe p))
                   intent (PayloadPolicy p)))
  | None => ret (json (BChat ReplyNoPolicy intent PayloadEmpty))
  end s1
  = Ret (Ok (match a with
             | Some p =>
                 json (BChat (ReplyPolicy (policy_description p) (timeframe p))
                         intent (PayloadPolicy p))
             | None => json (BChat ReplyNoPolicy intent PayloadEmpty)
             end), s1).
Proof. destruct a; reflexivity. Qed.

Lemma chat_price_k (intent : string) (a : option PriceComparison) (s1 : Store) :
  match a with
  | None => ret (json (BChat ReplyNoProduct intent PayloadEmpty))
  | Some r =>
      ret (json (BChat (ReplyPrice (category (base r)) (min r) (max r) (avg r))
                   intent (PayloadComparison r)))
  end s1
  = Ret (Ok (match a with
             | None => json (BChat ReplyNoProduct intent PayloadEmpty)
             | Some r =>
                 json (BChat (ReplyPrice (category (base r)) (min r) (max r)
                                (avg r))
                         intent (PayloadComparison r))
             end), s1).
Proof. destruct a; reflexivity. Qed.

Lemma chat_policy_unfold (message : string) (productId : option string) :
  message <> "" -> detectIntent message = "policy" ->
  Server.chat (Some message) productId =
  (policy <-
     match truthy_arg productId with
     | Some pid => Api.getPolicyForProduct pid
     | None =>
         match chat_category message with
         | Some cat => Api.getPolicyByCategory cat
         | None => ret None
         end
     end ;;
   match policy with
   | Some p =>
       ret (json (BChat (ReplyPolicy (policy_description p) (timeframe p))
                    "policy" (PayloadPolicy p)))
   | None => ret (json (BChat ReplyNoPolicy "policy" PayloadEmpty))
   end).
Proof.
  intros Hne Hint. unfold Server.chat.
  rewrite (truthy_arg_some message Hne). cbv zeta. rewrite Hint. reflexivity.
Qed.

(** X26.  For a message whose intent is the policy, [POST /api/chat] looks
    up the policy of the product when an identifier is given, whatever the
    message names, and otherwise the policy of the category read in the
    message; it answers 200 in both cases, with the policy or with the
    sentence that none was found.  A message that names no category is
    answered without reading the clock or the files, and a category written
    otherwise than the five known ways has no policy. *)
Theorem chat_policy (s : Store) (message : string) (productId : option string)
    (evs : list event) :
  message <> "" -> detectIntent message = "policy" ->
  (truthy_arg productId = None -> chat_category message = None ->
   forall r, run (Server.chat (Some message) productId s) evs = Some r <->
             evs = [] /\
             r = (Ok (json (BChat ReplyNoPolicy "policy" PayloadEmpty)), s)) /\
  (forall s' c,
     fresh s evs s' c ->
     truthy_arg productId <> None \/ chat_category message <> None ->
     exists resp,
       responds (Server.chat (Some message) productId) s evs resp s' /\
       resp =
         match
           match truthy_arg productId with
           | Some pid => getPolicyForProduct c pid
           | None =>
               match chat_category message with
               | Some cat => getPolicyByCategory c cat
               | None => None
               end
           end
         with
         | Some p =>
             json (BChat (ReplyPolicy (policy_description p) (timeframe p))
                     "policy" (PayloadPolicy p))
         | None => json (BChat ReplyNoPolicy "policy" PayloadEmpty)
         end /\
       (forall w,
          truthy_arg productId = None -> category_match message = Some w ->
          ~ In w chat_categories ->
          resp = json (BChat ReplyNoPolicy "policy" PayloadEmpty))).
Proof.
  intros Hne Hint.
  pose proof (api_answers s evs) as (_ & _ & _ & _ & HapiP & HapiC & _).
  rewrite (chat_policy_unfold message productId Hne Hint).
  split.
  - intros Hp Hc r. rewrite Hp, Hc, run_ret_bind. apply run_ret.
  - intros s' c Hfresh Hsome.
    destruct (truthy_arg productId) as [pid|] eqn:Hp.
    + eexists. split; [|split; [reflexivity|]].
      * exact (handler_fresh _ _ _ _ s s' c evs (chat_policy_k "policy")
                 (HapiP pid) Hfresh).
      * discriminate.
    + destruct (chat_category message) as [cat|] eqn:Hc;
        [|destruct Hsome; congruence].
      eexists. split; [|split; [reflexivity|]].
      * exact (handler_fresh _ _ _ _ s s' c evs (chat_policy_k "policy")
                 (HapiC cat) Hfresh).
      * intros w _ Hw Hnot. cbv beta.
        assert (Hcat : cat = replace_space w).
        { unfold chat_category in Hc. rewrite Hw in Hc. cbn [option_map] in Hc.
          destruct (truthy_str (replace_space w)); congruence. }
        destruct (policy_by_category_cases c cat)
          as [(n & p & _ & Hn & _)|[-> _]]; [|reflexivity].
        exfalso. apply Hnot. rewrite Hcat in Hn.
        exact (replace_space_keys w n Hn).
Qed.

Lemma chat_policy_witness :
  exists resp,
    responds (Server.chat (Some "What is the Laptop return policy?") None)
      sample_store [ENow 2000] resp sample_store /\
    resp = json (BChat ReplyNoPolicy "policy" PayloadEmpty).
Proof.
  destruct (proj2 (chat_policy sample_store "What is the Laptop return policy?"
                     None [ENow 2000] ltac:(discriminate) eq_refl)
              sample_store sample_cache sample_fresh
              ltac:(right; discriminate))
    as (resp & Hresp & _ & Hno).
  exists resp. split; [exact Hresp|].
  apply (Hno "Laptop" eq_refl eq_refl).
  unfold chat_categories. cbn [In]. intuition discriminate.
Defined.

(** X27.  [POST /api/chat] answers 400 when the message is missing or empty,
    and every other answer it gives has the status 200 and carries the
    intent [detectIntent] finds in the message.  When the intent is a review
    or a price and no identifier is given, it asks for one, and reads neither
    the clock nor the files. *)
Theorem chat_intent (s : Store) (message productId : option string)
    (evs : list event) :
  (truthy_arg message = None ->
   forall r, run (Server.chat message productId s) evs = Some r <->
             evs = [] /\ r = (Ok (fail 400 "message required"), s)) /\
  (forall msg resp s',
     truthy_arg message = Some msg ->
     responds (Server.chat message productId) s evs resp s' ->
     res_status resp = 200 /\
     exists reply payload,
       res_body resp = BChat reply (detectIntent msg) payload) /\
  (forall msg,
     truthy_arg message = Some msg -> truthy_arg productId = None ->
     (detectIntent msg = "review" ->
      forall r, run (Server.chat message productId s) evs = Some r <->
                evs = [] /\
                r = (Ok (json (BChat ReplyAskReview "review" PayloadEmpty)), s)) /\
     (detectIntent msg = "price" ->
      forall r, run (Server.chat message productId s) evs = Some r <->
                evs = [] /\
                r = (Ok (json (BChat ReplyAskPrice "price" PayloadEmpty)), s))).
Proof.
  split; [|split].
  - intros Hnone r. unfold Server.chat. rewrite Hnone. apply run_ret.
  - intros msg resp s' Hmsg. unfold Server.chat. rewrite Hmsg. cbv zeta.
    set (intent := detectIntent msg).
    destruct (String.eqb intent "policy");
      [|destruct (String.eqb intent "review");
        [|destruct (String.eqb intent "price");
          [|destruct (String.eqb intent "recommend")]]].
    + intros H.
      apply (responds_bind_inv _ _ _ s s' evs resp (chat_policy_k intent))
        in H as ([p|] & ->); cbn; eauto.
    + destruct (truthy_arg productId) as [pid|].
      * intros H.
        apply (responds_bind_inv _ _
                 (fun summary =>
                    json (BChat (ReplyReview (average_rating summary)
                                   (total_reviews summary))
                            intent (PayloadSummary summary)))
                 s s' evs resp ltac:(reflexivity)) in H as (a & ->).
        cbn; eauto.
      * unfold responds. intros H. apply run_ret in H as [_ [= -> _]].
        cbn; eauto.
    + destruct (truthy_arg productId) as [pid|].
      * intros H.
        apply (responds_bind_inv _ _ _ s s' evs resp (chat_price_k intent))
          in H as ([r|] & ->); cbn; eauto.
      * unfold responds. intros H. apply run_ret in H as [_ [= -> _]].
        cbn; eauto.
    + intros H.
      apply (responds_bind_inv _ _
               (fun recommendations =>
                  json (BChat ReplyRecommend intent
                          (PayloadRecommendations recommendations)))
               s s' evs resp ltac:(reflexivity)) in H as (a & ->).
      cbn; eauto.
    + intros H.
      apply (responds_bind_inv _ _
               (fun results =>
                  json (BChat (match results with
                               | [] => ReplyNotFound
                               | _ => ReplyFound
                               end)
                          intent (PayloadResults (slice0 8 results))))
               s s' evs resp ltac:(reflexivity)) in H as (a & ->).
      cbn; eauto.
  - intros msg Hmsg Hp. split; intros Hint r; unfold Server.chat;
      rewrite Hmsg; cbv zeta; rewrite Hint, Hp; apply run_ret.
Qed.

Lemma chat_intent_witness :
  run (Server.chat (Some "") (Some "L0") sample_store) []
  = Some (Ok (fail 400 "message required"), sample_store).
Proof.
  apply (proj1 (chat_intent sample_store (Some "") (Some "L0") []) eq_refl).
  split; reflexivity.
Defined.

Lemma chat_unfold (message : string) (productId : option string) :
  message <> "" ->
  Server.chat (Some message) productId =
  if String.eqb (detectIntent message) "policy" then
    (policy <-
       match truthy_arg productId with
       | Some pid => Api.getPolicyForProduct pid
       | None =>
           match chat_category message with
           | Some cat => Api.getPolicyByCategory cat
           | None => ret None
           end
       end ;;
     match policy with
     | Some p =>
         ret (json (BChat (ReplyPolicy (policy_description p) (timeframe p))
                      (detectIntent message) (PayloadPolicy p)))
     | None =>
         ret (json (BChat ReplyNoPolicy (detectIntent message) PayloadEmpty))
     end)
  else if String.eqb (detectIntent message) "review" then
    match truthy_arg productId with
    | None =>
        ret (json (BChat ReplyAskReview (detectIntent message) PayloadEmpty))
    | Some pid =>
        (summary <- Api.getReviewSummary pid ;;
         ret (json (BChat (ReplyReview (average_rating summary)
                             (total_reviews summary))
                      (detectIntent message) (PayloadSummary summary))))
    end
  else if String.eqb (detectIntent message) "price" then
    match truthy_arg productId with
    | None =>
        ret (json (BChat ReplyAskPrice (detectIntent message) PayloadEmpty))
    | Some pid =>
        (comparison <- Api.getPriceComparison pid ;;
         match comparison with
         | None =>
             ret (json (BChat ReplyNoProduct (detectIntent message)
                          PayloadEmpty))
         | Some r =>
             ret (json (BChat (ReplyPrice (category (base r)) (min r) (max r)
                                 (avg r))
                          (detectIntent message) (PayloadComparison r)))
         end)
    end
  else if String.eqb (detectIntent message) "recommend" then
    (recommendations <- Api.getRecommendations productId (Some message) ;;
     ret (json (BChat ReplyRecommend (detectIntent message)
                  (PayloadRecommendations recommendations))))
  else
    (results <-
       Api.getProducts (Filters.mk None (Some message) None None true) ;;
     ret (json (BChat (match results with
                       | [] => ReplyNotFound
                       | _ => ReplyFound
                       end)
                  (detectIntent message) (PayloadResults (slice0 8 results))))).
Proof.
  intros Hne. unfold Server.chat. now rewrite (truthy_arg_some message Hne).
Qed.

(** X28.  A message that is a search is answered with the products in stock
    that [getProducts] finds for the whole message as the query: the first
    eight of them, each a product of the catalog with stock whose text holds
    a token of the message, together with the sentence that products were
    found, or, when there is none, that no match was found. *)
Theorem chat_search (s s' : Store) (c : Cache) (message : string)
    (productId : option string) (evs : list event) :
  message <> "" -> detectIntent message = "search" ->
  fresh s evs s' c ->
  exists results,
    results = getProducts c (Filters.mk None (Some message) None None true) /\
    responds (Server.chat (Some message) productId) s evs
      (json (BChat (match results with [] => ReplyNotFound | _ => ReplyFound end)
               "search" (PayloadResults (firstn 8 results))))
      s' /\
    (length (firstn 8 results) <= 8)%nat /\
    (firstn 8 results = [] <-> results = []) /\
    (forall p, In p results ->
               In p (products c) /\ num_lt (Fin 0) (stock p) = true /\
               exists t, In t (tokenize message) /\ appears t (haystack p)).
Proof.
  intros Hne Hint Hfresh.
  pose proof (api_answers s evs) as (Hapi & _).
  eexists. split; [reflexivity|]. split; [|split; [|split]].
  - rewrite (chat_unfold message productId Hne), Hint. cbn [String.eqb Ascii.eqb Bool.eqb].
    exact (handler_fresh _
             (fun results =>
                ret (json (BChat (match results with
                                  | [] => ReplyNotFound
                                  | _ => ReplyFound
                                  end)
                             "search" (PayloadResults (slice0 8 results)))))
             (fun results =>
                json (BChat (match results with
                             | [] => ReplyNotFound
                             | _ => ReplyFound
                             end)
                        "search" (PayloadResults (slice0 8 results))))
             (fun c _ => getProducts c (Filters.mk None (Some message) None None true))
             s s' c evs ltac:(reflexivity) (Hapi _) Hfresh).
  - rewrite length_firstn. lia.
  - destruct (getProducts c _); split; intros H; try discriminate; reflexivity.
  - intros p Hp.
    assert (Hin : In p (List.filter
                          (matches (Filters.mk None (Some message) None None true))
                          (products c))).
    { eapply Permutation_in; [apply getProducts_perm | exact Hp]. }
    apply filter_In in Hin as [Hin Hm]. split; [exact Hin|]. split.
    + unfold matches in Hm. cbn [Filters.inStockOnly] in Hm.
      now apply andb_prop in Hm as [_ Hm].
    + apply text_score_positive.
      apply (matches_query (Filters.mk None (Some message) None None true)
               p message); [|exact Hm].
      cbn [Filters.query]. now apply truthy_arg_some.
Qed.

Lemma chat_search_witness :
  exists results,
    results = getProducts sample_cache
                (Filters.mk None (Some "a loud speaker") None None true) /\
    responds (Server.chat (Some "a loud speaker") None) sample_store [ENow 2000]
      (json (BChat (match results with [] => ReplyNotFound | _ => ReplyFound end)
               "search" (PayloadResults (firstn 8 results))))
      sample_store /\
    (length (firstn 8 results) <= 8)%nat /\
    (firstn 8 results = [] <-> results = []) /\
    (forall p, In p results ->
               In p (products sample_cache) /\
               num_lt (Fin 0) (stock p) = true /\
               exists t, In t (tokenize "a loud speaker") /\
                         appears t (haystack p)).
Proof.
  apply (chat_search sample_store sample_store sample_cache "a loud speaker"
           None [ENow 2000] ltac:(discriminate) eq_refl sample_fresh).
Defined.

(** X29.  With an identifier, a message about reviews is answered with the
    summary of the product and its two figures, and a message about prices
    with the comparison of the product, or, with the status 200 as well,
    with the sentence that the product was not found; when the product is
    found and the modification time of the store is not a valid date, the
    [RangeError] of the comparison escapes the handler.  A message asking
    for recommendations is answered by [getRecommendations] with the whole
    message for its query: at most six products of the catalog. *)
Theorem chat_answers (s s' : Store) (c : Cache) (message : string)
    (productId : option string) (evs : list event) :
  message <> "" -> fresh s evs s' c ->
  (forall pid,
     detectIntent message = "review" -> truthy_arg productId = Some pid ->
     responds (Server.chat (Some message) productId) s evs
       (json (BChat (ReplyReview (average_rating (getReviewSummary c pid))
                       (total_reviews (getReviewSummary c pid)))
                "review" (PayloadSummary (getReviewSummary c pid))))
       s') /\
  (forall pid,
     detectIntent message = "price" -> truthy_arg productId = Some pid ->
     consistent c ->
     (productById c !! pid <> None ->
      TimeClip (lastModified s') = None ->
      run (Server.chat (Some message) productId s) evs
      = Some (Throw RangeError, s')) /\
     (forall t,
        productById c !! pid = None \/ TimeClip (lastModified s') = Some t ->
        exists resp,
          responds (Server.chat (Some message) productId) s evs resp s' /\
          res_status resp = 200 /\
          ((resp = json (BChat ReplyNoProduct "price" PayloadEmpty) /\
            forall p, In p (products c) -> prod_id p <> pid)
           \/
           exists r,
             getPriceComparison c (lastModified s') pid = Ok (Some r) /\
             prod_id (base r) = pid /\ In (base r) (products c) /\
             updated_at r = t /\
             resp = json (BChat (ReplyPrice (category (base r)) (min r) (max r)
                                   (avg r))
                            "price" (PayloadComparison r))))) /\
  (detectIntent message = "recommend" ->
   responds (Server.chat (Some message) productId) s evs
     (json (BChat ReplyRecommend "recommend"
              (PayloadRecommendations
                 (getRecommendations c productId (Some message)))))
     s' /\
   (length (getRecommendations c productId (Some message)) <= 6)%nat /\
   (forall p, In p (getRecommendations c productId (Some message)) ->
              In p (products c))).
Proof.
  intros Hne Hfresh.
  pose proof (api_answers s evs) as (_ & HapiR & HapiS & HapiC & _).
  rewrite (chat_unfold message productId Hne).
  split; [|split].
  - intros pid Hint Hpid. rewrite Hint, Hpid. cbn [String.eqb Ascii.eqb Bool.eqb].
    exact (handler_fresh _
             (fun summary =>
                ret (json (BChat (ReplyReview (average_rating summary)
                                    (total_reviews summary))
                             "review" (PayloadSummary summary))))
             (fun summary =>
                json (BChat (ReplyReview (average_rating summary)
                               (total_reviews summary))
                        "review" (PayloadSummary summary)))
             (fun c _ => getReviewSummary c pid)
             s s' c evs ltac:(reflexivity) (HapiS pid) Hfresh).
  - intros pid Hint Hpid [Hidx _]. rewrite Hint, Hpid.
    cbn [String.eqb Ascii.eqb Bool.eqb].
    set (g := fun a : option PriceComparison =>
                match a with
                | None => json (BChat ReplyNoProduct "price" PayloadEmpty)
                | Some r =>
                    json (BChat (ReplyPrice (category (base r)) (min r) (max r)
                                   (avg r))
                            "price" (PayloadComparison r))
                end).
    unfold responds.
    match goal with
    | |- context [run (?m s) evs] =>
        assert (Hrun : run (m s) evs
                       = Some (match getPriceComparison c (lastModified s') pid with
                               | Ok a => Ok (g a)
                               | Throw e => Throw e
                               end, s'))
          by exact (handler_fresh_try _ _ g _ s s' c evs (chat_price_k "price")
                      (HapiC pid) Hfresh)
    end.
    rewrite Hrun. subst g. clear Hrun.
    unfold getPriceComparison, toISOString. rewrite Hidx.
    destruct (index_products (products c) !! pid) as [product|] eqn:E.
    + apply index_products_Some in E as [Hin Hid]. split.
      * intros _ Ht. now rewrite Ht.
      * intros t [Hno|Ht]; [discriminate|]. rewrite Ht.
        eexists. split; [reflexivity|]. split; [reflexivity|]. right.
        eexists. split; [reflexivity|]. cbn [base updated_at].
        repeat split; assumption.
    + split; [congruence|]. intros t _.
      eexists. split; [reflexivity|]. split; [reflexivity|]. left.
      split; [reflexivity|]. now apply index_products_None.
  - intros Hint. rewrite Hint. cbn [String.eqb Ascii.eqb Bool.eqb].
    split; [|split].
    + exact (handler_fresh _
               (fun recommendations =>
                  ret (json (BChat ReplyRecommend "recommend"
                               (PayloadRecommendations recommendations))))
               (fun recommendations =>
                  json (BChat ReplyRecommend "recommend"
                          (PayloadRecommendations recommendations)))
               (fun c _ => getRecommendations c productId (Some message))
               s s' c evs ltac:(reflexivity) (HapiR productId (Some message))
               Hfresh).
    + rewrite getRecommendations_modes.
      destruct (truthy_arg productId) as [pid|];
        [destruct (base_product c productId) as [b|]|];
        try destruct (truthy_arg (Some message)) as [q|];
        rewrite length_firstn; lia.
    + intros p. rewrite getRecommendations_modes.
      destruct (truthy_arg productId) as [pid|];
        [destruct (base_product c productId) as [b|]|];
        try destruct (truthy_arg (Some message)) as [q|];
        intros H; apply firstn_In, js_sort_In in H;
        try (apply filter_In in H as [H _]); exact H.
Qed.

Lemma chat_answers_witness :
  responds (Server.chat (Some "any reviews?") (Some "L0")) sample_store
    [ENow 2000]
    (json (BChat (ReplyReview
                    (average_rating (getReviewSummary sample_cache "L0"))
                    (total_reviews (getReviewSummary sample_cache "L0")))
             "review" (PayloadSummary (getReviewSummary sample_cache "L0"))))
    sample_store.
Proof.
  apply (proj1 (chat_answers sample_store sample_store sample_cache
                  "any reviews?" (Some "L0") [ENow 2000]
                  ltac:(discriminate) sample_fresh)
           "L0" eq_refl eq_refl).
Defined.
